(** * md-browse: a shallow embedding of the fetch/convert pipeline and of the
      tab/navigation state machine, with the properties of the specification
      and further properties of the code.

    Sources embedded here:
    - [src/shared/turndown.ts]   (the shared converter and its output cleanup),
    - [src/bun/index.ts]         (the bun process: converter, fetchPage, RPC handlers),
    - [src/toolbar-svelte/lib/rpc.ts] (the view shim of the same operations).

    JavaScript strings are sequences of UTF-16 code units; a code unit is a
    number in [N].  Regular expressions of the source are written out as
    matchers on such sequences, one matcher per regular expression, and
    [String.prototype.replace] with a global regular expression is the scan
    [replaceAll]. *)

From Stdlib Require Import String Ascii.
From Stdlib Require Import List NArith ZArith Lia Bool.
Import ListNotations.

Set Implicit Arguments.

(* ================================================================== *)
(** * JavaScript strings *)
(* ================================================================== *)

Module JS.

Local Open Scope N_scope.

(** A code unit, and a string. *)
Abbreviation char := N (only parsing).
Abbreviation jsstring := (list N) (only parsing).

Definition chr (a : ascii) : char := N_of_ascii a.

(** A Rocq string literal as a JavaScript string (ASCII only). *)
Definition str (s : String.string) : jsstring :=
  map chr (String.list_ascii_of_string s).
Arguments str s%_string.
Arguments chr a%_char.

Definition jsstring_eqb (a b : jsstring) : bool :=
  if list_eq_dec N.eq_dec a b then true else false.

(** ECMAScript LineTerminator: LF, CR, LS, PS. *)
Definition isLineTerminator (c : char) : bool :=
  (c =? 10) || (c =? 13) || (c =? 8232) || (c =? 8233).

(** ECMAScript WhiteSpace and LineTerminator: what the class [\s] matches and
    what [trim] strips. *)
Definition isWhiteSpace (c : char) : bool :=
  (c =? 9) || (c =? 11) || (c =? 12) || (c =? 32) || (c =? 160) ||
  (c =? 5760) || ((8192 <=? c) && (c <=? 8202)) || (c =? 8239) ||
  (c =? 8287) || (c =? 12288) || (c =? 65279) || isLineTerminator c.

(** The class [\d]. *)
Definition isDigit (c : char) : bool := (48 <=? c) && (c <=? 57).

(** A string is truthy when it is not empty. *)
Definition truthy (s : jsstring) : bool :=
  match s with [] => false | _ :: _ => true end.

(** The longest prefix whose characters satisfy [p], and the rest: a greedy
    [p*] that is followed by something [p] excludes. *)
Fixpoint span (p : char -> bool) (s : jsstring) : jsstring * jsstring :=
  match s with
  | c :: s' =>
      if p c then let (a, b) := span p s' in (c :: a, b) else ([], s)
  | [] => ([], [])
  end.

Fixpoint dropWhile (p : char -> bool) (s : jsstring) : jsstring :=
  match s with
  | c :: s' => if p c then dropWhile p s' else s
  | [] => []
  end.

Definition trimStart (s : jsstring) : jsstring := dropWhile isWhiteSpace s.
Definition trimEnd (s : jsstring) : jsstring := rev (dropWhile isWhiteSpace (rev s)).

(** [String.prototype.trim]. *)
Definition trim (s : jsstring) : jsstring := trimEnd (trimStart s).

(** [s.startsWith(p)], returning the rest of [s] after [p]. *)
Fixpoint stripPrefix (p s : jsstring) : option jsstring :=
  match p, s with
  | [], _ => Some s
  | a :: p', b :: s' => if a =? b then stripPrefix p' s' else None
  | _ :: _, [] => None
  end.

Definition startsWith (p s : jsstring) : bool :=
  match stripPrefix p s with Some _ => true | None => false end.

(** [s.includes(p)]. *)
Fixpoint includes (p s : jsstring) : bool :=
  startsWith p s || match s with [] => false | _ :: s' => includes p s' end.

(** Case folding of a regular expression with the [i] flag and no [u] flag:
    on an ASCII pattern only the ASCII letters fold. *)
Definition foldCase (c : char) : char :=
  if (65 <=? c) && (c <=? 90) then c + 32 else c.

(** A literal (lower-case) pattern matched without regard to case. *)
Fixpoint stripPrefixCI (p s : jsstring) : option jsstring :=
  match p, s with
  | [], _ => Some s
  | a :: p', b :: s' => if a =? foldCase b then stripPrefixCI p' s' else None
  | _ :: _, [] => None
  end.

(** The assertion [^] with the [m] flag, given the character before the
    position ([None] at the start of the input). *)
Definition bol (prev : option char) : bool :=
  match prev with None => true | Some c => isLineTerminator c end.

(** The assertion [$] with the [m] flag, given the rest of the input. *)
Definition eol (rest : jsstring) : bool :=
  match rest with [] => true | c :: _ => isLineTerminator c end.

(** A greedy quantifier that already matched the run [w] gives characters
    back until its continuation [ok] succeeds: the largest [k] with
    [ok (skipn k w ++ rest)]. *)
Fixpoint longestPrefix (ok : jsstring -> bool) (w rest : jsstring) : option nat :=
  match w with
  | [] => if ok rest then Some 0%nat else None
  | _ :: w' =>
      match longestPrefix ok w' rest with
      | Some k => Some (S k)
      | None => if ok (w ++ rest) then Some 0%nat else None
      end
  end.

(** A matcher tries one regular expression at one position: it sees the
    character before the position and the input from the position on, and
    answers with the replacement text and the length of the match. *)
Definition matcher := option char -> jsstring -> option (jsstring * nat).

(** [s.replace(re, f)] for a global [re]: matches are tried left to right,
    a match of length [n] is replaced and the scan resumes after it (an empty
    match copies one character), unmatched characters are copied.  [skip]
    counts the characters of the current match still to pass over. *)
Fixpoint replaceFrom (m : matcher) (prev : option char) (skip : nat) (s : jsstring)
  : jsstring :=
  match skip with
  | S k =>
      match s with
      | c :: s' => replaceFrom m (Some c) k s'
      | [] => []
      end
  | O =>
      match m prev s with
      | Some (r, S k) =>
          r ++ match s with
               | c :: s' => replaceFrom m (Some c) k s'
               | [] => []
               end
      | Some (r, O) =>
          r ++ match s with
               | c :: s' => c :: replaceFrom m (Some c) O s'
               | [] => []
               end
      | None =>
          match s with
          | c :: s' => c :: replaceFrom m (Some c) O s'
          | [] => []
          end
      end
  end.

Definition replaceAll (m : matcher) (s : jsstring) : jsstring :=
  replaceFrom m None 0 s.

(** [s.match(re)] for a regular expression without the [g] flag: the first
    position where it matches, with what the matcher captured. *)
Fixpoint firstMatch {A} (m : option char -> jsstring -> option A)
    (prev : option char) (s : jsstring) : option A :=
  match m prev s with
  | Some a => Some a
  | None =>
      match s with
      | c :: s' => firstMatch m (Some c) s'
      | [] => None
      end
  end.

(** [/\s+/g] replaced by one space. *)
Definition wsRunAt : matcher := fun _ s =>
  match span isWhiteSpace s with
  | ((_ :: _) as w, _) => Some ([chr " "], length w)
  | ([], _) => None
  end.

(** What a call produces: a value, or a thrown exception (identified with
    its message). *)
Inductive outcome (A : Type) : Type :=
| Ok (a : A)
| Throw (message : jsstring).
Arguments Ok {A} a.
Arguments Throw {A} message.

Definition bind {A B} (x : outcome A) (f : A -> outcome B) : outcome B :=
  match x with
  | Ok a => f a
  | Throw m => Throw m
  end.

(** The characters [encodeURIComponent] leaves alone: letters, digits and
    the marks [- _ . ! ~ * ' ( )]. *)
Definition uriUnreserved (c : char) : bool :=
  ((65 <=? c) && (c <=? 90)) || ((97 <=? c) && (c <=? 122)) || isDigit c ||
  (c =? 45) || (c =? 95) || (c =? 46) || (c =? 33) || (c =? 126) ||
  (c =? 42) || (c =? 39) || (c =? 40) || (c =? 41).

Definition isHighSurrogate (c : char) : bool := (55296 <=? c) && (c <=? 56319).
Definition isLowSurrogate (c : char) : bool := (56320 <=? c) && (c <=? 57343).

(** The upper-case hexadecimal digit for the low four bits of [n]. *)
Definition hexDigit (n : N) : char :=
  let d := n mod 16 in if d <? 10 then 48 + d else 55 + d.

(** One octet as a percent sign and two upper-case hexadecimal digits. *)
Definition percentEncode (octet : N) : jsstring :=
  [37; hexDigit (octet / 16); hexDigit octet].

(** The UTF-8 octets of a code point. *)
Definition utf8 (cp : N) : list N :=
  if cp <? 128 then [cp]
  else if cp <? 2048 then [192 + cp / 64; 128 + cp mod 64]
  else if cp <? 65536 then
    [224 + cp / 4096; 128 + (cp / 64) mod 64; 128 + cp mod 64]
  else
    [240 + cp / 262144; 128 + (cp / 4096) mod 64; 128 + (cp / 64) mod 64;
     128 + cp mod 64].

Definition URIError : jsstring := str "URI malformed".

(** [encodeURIComponent] (ECMAScript Encode): unreserved code units are
    copied, any other code point is written as its percent-encoded UTF-8
    octets, and a surrogate without its partner throws a URIError. *)
Fixpoint encodeURIComponent (s : jsstring) : outcome jsstring :=
  match s with
  | [] => Ok []
  | c :: r =>
      if uriUnreserved c then
        bind (encodeURIComponent r) (fun e => Ok (c :: e))
      else if isLowSurrogate c then Throw URIError
      else if isHighSurrogate c then
        match r with
        | d :: r2 =>
            if isLowSurrogate d then
              let cp := (c - 55296) * 1024 + (d - 56320) + 65536 in
              bind (encodeURIComponent r2)
                   (fun e => Ok (concat (map percentEncode (utf8 cp)) ++ e))
            else Throw URIError
        | [] => Throw URIError
        end
      else
        bind (encodeURIComponent r)
             (fun e => Ok (concat (map percentEncode (utf8 c)) ++ e))
  end.

End JS.

Import JS.

(* ================================================================== *)
(** * The DOM nodes the converter rules inspect *)
(* ================================================================== *)

Module Dom.

#[local] Unset Elimination Schemes.

(** An element has an upper-case [nodeName] (as the DOM reports it for HTML),
    attributes with lower-case names, and children in document order. *)
Inductive node :=
| Element (nodeName : jsstring) (attrs : list (jsstring * jsstring)) (children : list node)
| Text (data : jsstring).

Definition nodeName (n : node) : jsstring :=
  match n with
  | Element name _ _ => name
  | Text _ => str "#text"
  end.

(** [node.textContent]: the text of all descendants, in document order. *)
Fixpoint textContent (n : node) : jsstring :=
  match n with
  | Text d => d
  | Element _ _ cs =>
      (fix go (l : list node) : jsstring :=
         match l with
         | [] => []
         | c :: l' => textContent c ++ go l'
         end) cs
  end.

(** [node.getAttribute(name)]: [None] stands for [null]. *)
Definition getAttribute (name : jsstring) (n : node) : option jsstring :=
  match n with
  | Element _ attrs _ =>
      match find (fun kv => jsstring_eqb (fst kv) name) attrs with
      | Some kv => Some (snd kv)
      | None => None
      end
  | Text _ => None
  end.

(** The descendants of a node (itself excluded), in document order. *)
Fixpoint descendants (n : node) : list node :=
  match n with
  | Text _ => []
  | Element _ _ cs =>
      (fix go (l : list node) : list node :=
         match l with
         | [] => []
         | c :: l' => c :: descendants c ++ go l'
         end) cs
  end.

(** The two shapes of selector the source uses: a tag name ([th], [table])
    and a tag name with an attribute that must be present ([img[alt]]).  Tag
    names are given in upper case, as [nodeName] has them. *)
Inductive selector :=
| Tag (name : jsstring)
| TagWithAttr (name attr : jsstring).

Definition matchesSelector (sel : selector) (n : node) : bool :=
  match n, sel with
  | Element name _ _, Tag t => jsstring_eqb name t
  | Element name _ _, TagWithAttr t a =>
      jsstring_eqb name t &&
      match getAttribute a n with Some _ => true | None => false end
  | Text _, _ => false
  end.

Definition querySelectorAll (sel : selector) (n : node) : list node :=
  filter (matchesSelector sel) (descendants n).

Definition querySelector (sel : selector) (n : node) : option node :=
  find (matchesSelector sel) (descendants n).

End Dom.

Import Dom.

(* ================================================================== *)
(** * The conversion engine's rule list *)
(* ================================================================== *)

(** The rule engine is the third-party converter; of it the source relies on
    an ordered rule array ([turndown.rules.array]), on [addRule], which puts
    the new rule at the front of that array, and on rule lookup, which takes
    the first rule of the array whose filter accepts the node (anchors and
    tables are never handed to the engine's blank-node rule). *)
Module Engine.

Record rule := {
  key : jsstring;
  filter : node -> bool;
  replacement : jsstring -> node -> jsstring
}.

Definition addRule (r : rule) (array : list rule) : list rule := r :: array.

Definition forNode (array : list rule) (n : node) : option rule :=
  find (fun r => filter r n) array.

(** [array.findIndex(r => r?.key === k)], [None] standing for [-1]. *)
Fixpoint findIndex (k : jsstring) (array : list rule) : option nat :=
  match array with
  | [] => None
  | r :: rest =>
      if jsstring_eqb (key r) k then Some 0%nat
      else option_map S (findIndex k rest)
  end.

(** [const [rule] = array.splice(index, 1); array.unshift(rule)]. *)
Definition moveToFront (k : jsstring) (array : list rule) : list rule :=
  match findIndex k array with
  | Some i =>
      match nth_error array i with
      | Some r => r :: (firstn i array ++ skipn (S i) array)
      | None => array
      end
  | None => array
  end.

End Engine.

Import Engine.

(* ================================================================== *)
(** * Matchers of the output cleanup *)
(* ================================================================== *)

Module Re.

Definition notRBracket (c : char) : bool := negb (N.eqb c (chr "]")).
Definition notRParen (c : char) : bool := negb (N.eqb c (chr ")")).

(** The link pattern of [cleanupTurndownOutput] at one position: an opening
    bracket, a greedy run of characters other than the closing bracket (first
    capture), a closing bracket, an opening parenthesis, a greedy non-empty
    run of characters other than the closing parenthesis (second capture), a
    closing parenthesis.  Each run ends at the one character that can follow
    it, so the pattern leaves no choice.  The result is the two captures and
    the length of the match. *)
Definition linkAt (s : jsstring) : option (jsstring * jsstring * nat) :=
  match s with
  | c :: r =>
      if N.eqb c (chr "[") then
        let (text, r1) := span notRBracket r in
        match r1 with
        | c1 :: c2 :: r2 =>
            if N.eqb c1 (chr "]") && N.eqb c2 (chr "(") then
              let (url, r3) := span notRParen r2 in
              match url, r3 with
              | _ :: _, _ :: _ => Some (text, url, 4 + length text + length url)
              | _, _ => None
              end
            else None
        | _ => None
        end
      else None
  | [] => None
  end.

(** The same pattern with the literal [data:] at the start of the
    parenthesised part (and one or more characters after it): the length of
    the match. *)
Definition dataLinkAt (s : jsstring) : option nat :=
  match s with
  | c :: r =>
      if N.eqb c (chr "[") then
        let (text, r1) := span notRBracket r in
        match r1 with
        | c1 :: c2 :: r2 =>
            if N.eqb c1 (chr "]") && N.eqb c2 (chr "(") then
              match stripPrefix (str "data:") r2 with
              | Some r3 =>
                  let (u, r4) := span notRParen r3 in
                  match u, r4 with
                  | _ :: _, _ :: _ => Some (9 + length text + length u)
                  | _, _ => None
                  end
              | None => None
              end
            else None
        | _ => None
        end
      else None
  | [] => None
  end.

(** The [data:] pattern preceded by an exclamation mark (an image). *)
Definition dataImageAt (s : jsstring) : option nat :=
  match s with
  | c :: r => if N.eqb c (chr "!") then option_map S (dataLinkAt r) else None
  | [] => None
  end.

(** [/^\d+\.\s*$/m] at one position: the length of the match.  [\d+] and
    [\.] leave no choice; [\s*] takes the whole run of white space and gives
    back until [$] holds. *)
Definition orphanAt (prev : option char) (s : jsstring) : option nat :=
  if bol prev then
    let (ds, r) := span isDigit s in
    match ds, r with
    | _ :: _, c :: r1 =>
        if N.eqb c (chr ".") then
          let (w, r2) := span isWhiteSpace r1 in
          match longestPrefix eol w r2 with
          | Some k => Some (length ds + 1 + k)
          | None => None
          end
        else None
    | _, _ => None
    end
  else None.

(** [/\n{3,}/] at one position: the length of the run of line feeds. *)
Definition newlinesAt (s : jsstring) : option nat :=
  let (ns, _) := span (fun c => N.eqb c 10) s in
  if (3 <=? length ns)%nat then Some (length ns) else None.

(** The orphan pattern with its replacement, the empty string. *)
Definition orphanMatcher : matcher :=
  fun prev s => option_map (fun n => ([], n)) (orphanAt prev s).

(** The run of line feeds with its replacement, two line feeds. *)
Definition newlineMatcher : matcher :=
  fun _ s => option_map (fun n => ([10; 10]%N, n)) (newlinesAt s).

(** [markdown.replace(/^\d+\.\s*$/gm, "")]. *)
Definition removeOrphanNumbers (md : jsstring) : jsstring :=
  replaceAll orphanMatcher md.

(** [markdown.replace(/\n{3,}/g, "\n\n")]. *)
Definition collapseBlankLines (md : jsstring) : jsstring :=
  replaceAll newlineMatcher md.

(** [value.replace(/\s+/g, " ").trim()]. *)
Definition normalizeWhitespace (value : jsstring) : jsstring :=
  trim (replaceAll wsRunAt value).

End Re.

Import Re.

(* ================================================================== *)
(** * src/shared/turndown.ts *)
(* ================================================================== *)

Module Shared.

Definition UNWANTED_ELEMENTS : list jsstring :=
  [str "script"; str "style"; str "noscript"; str "iframe"; str "object";
   str "embed"; str "meta"; str "link"].

Definition normalizeWhitespace := Re.normalizeWhitespace.

(** [String(node?.getAttribute?.(name) ?? "")]. *)
Definition attrOrEmpty (name : jsstring) (n : node) : jsstring :=
  match getAttribute name n with Some v => v | None => [] end.

Definition getLinkLabel (n : node) : jsstring :=
  let textContent := normalizeWhitespace (textContent n) in
  if truthy textContent then textContent else
  let ariaLabel := normalizeWhitespace (attrOrEmpty (str "aria-label") n) in
  if truthy ariaLabel then ariaLabel else
  let title := normalizeWhitespace (attrOrEmpty (str "title") n) in
  if truthy title then title else
  let img := querySelector (TagWithAttr (str "IMG") (str "alt")) n in
  let imgAlt :=
    normalizeWhitespace
      (match img with Some i => attrOrEmpty (str "alt") i | None => [] end) in
  if truthy imgAlt then imgAlt else [].

Definition ignoreLayoutTables : rule := {|
  key := str "ignoreLayoutTables";
  filter := fun n =>
    if negb (jsstring_eqb (nodeName n) (str "TABLE")) then false else
    let hasHeaders := (0 <? length (querySelectorAll (Tag (str "TH")) n))%nat in
    negb hasHeaders;
  replacement := fun content _ => [10; 10]%N ++ content ++ [10; 10]%N
|}.

Definition preserveBlankLinks : rule := {|
  key := str "preserveBlankLinks";
  filter := fun n =>
    jsstring_eqb (nodeName n) (str "A") &&
    (match getAttribute (str "href") n with Some _ => true | None => false end) &&
    jsstring_eqb (normalizeWhitespace (textContent n)) [];
  replacement := fun _content n =>
    let href := trim (attrOrEmpty (str "href") n) in
    let label := if truthy (getLinkLabel n) then getLinkLabel n else href in
    if negb (truthy href) then label
    else str "[" ++ label ++ str "](" ++ href ++ str ")"
|}.

(** The rule array [createTurndownService] leaves behind, given the array
    [gfm] that [turndown.use(gfm)] produced. *)
Definition createTurndownService (gfm : list rule) : list rule :=
  let array := addRule ignoreLayoutTables gfm in
  let array := moveToFront (str "ignoreLayoutTables") array in
  addRule preserveBlankLinks array.

Definition linkReplacement : matcher := fun _ s =>
  match linkAt s with
  | Some (text, url, n) =>
      let cleaned := normalizeWhitespace text in
      let normalizedUrl :=
        if startsWith (str "//") url then str "https:" ++ url else url in
      let label := if truthy cleaned then cleaned else normalizedUrl in
      Some (if truthy label
            then str "[" ++ label ++ str "](" ++ normalizedUrl ++ str ")"
            else [],
            n)
  | None => None
  end.

Definition cleanupTurndownOutput (markdown : jsstring) : jsstring :=
  let markdown := replaceAll linkReplacement markdown in
  let markdown :=
    replaceAll (fun _ s => option_map (fun n => ([], n)) (dataImageAt s)) markdown in
  let markdown :=
    replaceAll (fun _ s => option_map (fun n => ([], n)) (dataLinkAt s)) markdown in
  let markdown := removeOrphanNumbers markdown in
  let markdown := collapseBlankLines markdown in
  trim markdown.

End Shared.

(* ================================================================== *)
(** * src/shared/types.ts and src/shared/start-page.ts *)
(* ================================================================== *)

Module BrowserSettings.
Record t := {
  sendAcceptMd : bool;
  autoConvert : bool;
  allowJavascript : bool
}.
End BrowserSettings.

Module PageContent.
Record t := {
  url : jsstring;
  markdown : jsstring;
  rawHtml : jsstring;
  title : jsstring;
  wasMarkdown : bool
}.
End PageContent.

Module TabInfo.
Record t := {
  id : Z;
  url : jsstring;
  title : jsstring;
  isActive : bool;
  isLoading : bool
}.
End TabInfo.

(** [Partial<BrowserSettings>]: a key is absent ([None]) or carries a
    boolean. *)
Module PartialSettings.
Record t := {
  sendAcceptMd : option bool;
  autoConvert : option bool;
  allowJavascript : option bool
}.
End PartialSettings.

(** [{ ...settings, ...newSettings }], and [Object.assign(settings,
    newSettings)]: the keys present in [newSettings] replace those of
    [settings]. *)
Definition assignSettings (settings : BrowserSettings.t) (newSettings : PartialSettings.t)
  : BrowserSettings.t :=
  let pick (v : option bool) (old : bool) := match v with Some b => b | None => old end in
  {| BrowserSettings.sendAcceptMd :=
       pick (PartialSettings.sendAcceptMd newSettings)
            (BrowserSettings.sendAcceptMd settings);
     BrowserSettings.autoConvert :=
       pick (PartialSettings.autoConvert newSettings)
            (BrowserSettings.autoConvert settings);
     BrowserSettings.allowJavascript :=
       pick (PartialSettings.allowJavascript newSettings)
            (BrowserSettings.allowJavascript settings) |}.

Definition START_PAGE_URL : jsstring := str "mdbrowse://start".
Definition START_PAGE_TITLE : jsstring := str "MDBrowse".

(** What the fetch pipeline takes from outside the repository: the
    conversion engine, the URL parser, the text decoders and the network; and
    the two long page texts of [start-page.ts], whose content plays no role in
    what is proved. *)
Record Platform := {
  (** [turndown.turndown(html)] *)
  turndown : jsstring -> outcome jsstring;
  (** [new URL(u).hostname] *)
  hostname : jsstring -> outcome jsstring;
  (** [new TextDecoder(label)], [None] when the label is not supported, and
      its [decode] *)
  textDecoder : jsstring -> option (list N -> jsstring);
  (** [String.prototype.toLowerCase] *)
  toLowerCase : jsstring -> jsstring;
  START_PAGE_MARKDOWN : jsstring;
  START_PAGE_HTML : jsstring
}.

(** A response as [fetch] resolves it: the [content-type] header ([None]
    when absent), the URL after redirects, and the body. *)
Record Response := {
  contentTypeHeader : option jsstring;
  responseUrl : jsstring;
  arrayBuffer : list N
}.

(** Matchers and steps of the markup reduction in [fetchPage]. *)
Module Html.

(** The first occurrence of the literal [pat], matched without regard to
    case: what precedes it and what follows it. *)
Fixpoint findCI (pat s : jsstring) : option (jsstring * jsstring) :=
  match stripPrefixCI pat s with
  | Some rest => Some ([], rest)
  | None =>
      match s with
      | c :: s' =>
          match findCI pat s' with
          | Some (before, rest) => Some (c :: before, rest)
          | None => None
          end
      | [] => None
      end
  end.

(** A region pattern: the literal [opening], then as few characters as
    possible, then the literal [closing]; both literals without regard to
    case.  The result is the length of the match. *)
Definition regionAt (opening closing : jsstring) (s : jsstring) : option nat :=
  match stripPrefixCI opening s with
  | Some r =>
      match findCI closing r with
      | Some (inner, _) => Some (length opening + length inner + length closing)
      | None => None
      end
  | None => None
  end.

Definition removeRegions (opening closing : jsstring) (s : jsstring) : jsstring :=
  replaceAll (fun _ t => option_map (fun n => ([], n)) (regionAt opening closing t)) s.

(** An anchor with nothing but white space inside: [<a], characters other
    than [>], [>], white space, [</a>]. *)
Definition emptyAnchorAt (s : jsstring) : option nat :=
  match stripPrefixCI (str "<a") s with
  | Some r =>
      let (attrs, r1) := span (fun c => negb (N.eqb c (chr ">"))) r in
      match r1 with
      | _ :: r2 =>
          let (w, r3) := span isWhiteSpace r2 in
          match stripPrefixCI (str "</a>") r3 with
          | Some _ => Some (2 + length attrs + 1 + length w + 4)
          | None => None
          end
      | [] => None
      end
  | None => None
  end.

(** A container pattern such as the one for [main]: the opening literal, as
    few characters as possible up to [>], then the captured content, as short
    as possible, up to the closing literal. *)
Definition containerAt (opening closing : jsstring) (s : jsstring) : option jsstring :=
  match stripPrefixCI opening s with
  | Some r =>
      match findCI (str ">") r with
      | Some (_, r1) =>
          match findCI closing r1 with
          | Some (inner, _) => Some inner
          | None => None
          end
      | None => None
      end
  | None => None
  end.

Definition matchContainer (opening closing : jsstring) (s : jsstring) : option jsstring :=
  firstMatch (fun _ t => containerAt opening closing t) None s.

(** The title pattern: [<title], characters other than [>], [>], a captured
    non-empty run of characters other than [<], [</title>]. *)
Definition titleAt (s : jsstring) : option jsstring :=
  match stripPrefixCI (str "<title") s with
  | Some r =>
      let (_, r1) := span (fun c => negb (N.eqb c (chr ">"))) r in
      match r1 with
      | _ :: r2 =>
          let (t, r3) := span (fun c => negb (N.eqb c (chr "<"))) r2 in
          match t, stripPrefixCI (str "</title>") r3 with
          | _ :: _, Some _ => Some t
          | _, _ => None
          end
      | [] => None
      end
  | None => None
  end.

(** The heading pattern [/^#\s+(.+)$/m]: at the start of a line a hash, a run
    of white space that gives back until a character other than a line
    terminator follows, then the rest of that line (captured). *)
Definition notLineTerminator (c : char) : bool := negb (isLineTerminator c).

Definition headingAt (prev : option char) (s : jsstring) : option jsstring :=
  if bol prev then
    match s with
    | h :: c1 :: r =>
        if N.eqb h (chr "#") && isWhiteSpace c1 then
          let (w, r2) := span isWhiteSpace r in
          match longestPrefix (fun t => negb (eol t)) w r2 with
          | Some k => Some (fst (span notLineTerminator (skipn k w ++ r2)))
          | None => None
          end
        else None
    | _ => None
    end
  else None.

(** The chain of replacements and the choice of the main region. *)
Definition reduce (text : jsstring) : jsstring :=
  let cleanHtml := removeRegions (str "<head") (str "</head>") text in
  let cleanHtml := removeRegions (str "<script") (str "</script>") cleanHtml in
  let cleanHtml := removeRegions (str "<style") (str "</style>") cleanHtml in
  let cleanHtml := removeRegions (str "<noscript") (str "</noscript>") cleanHtml in
  let cleanHtml := removeRegions (str "<!--") (str "-->") cleanHtml in
  let cleanHtml := removeRegions (str "<nav") (str "</nav>") cleanHtml in
  let cleanHtml := removeRegions (str "<footer") (str "</footer>") cleanHtml in
  let cleanHtml := removeRegions (str "<aside") (str "</aside>") cleanHtml in
  let cleanHtml := removeRegions (str "<form") (str "</form>") cleanHtml in
  let cleanHtml := removeRegions (str "<iframe") (str "</iframe>") cleanHtml in
  let cleanHtml :=
    replaceAll (fun _ t => option_map (fun n => ([], n)) (emptyAnchorAt t)) cleanHtml in
  let mainMatch :=
    match matchContainer (str "<main") (str "</main>") cleanHtml with
    | Some m => Some m
    | None => matchContainer (str "<article") (str "</article>") cleanHtml
    end in
  match mainMatch with
  | Some m => m
  | None =>
      match matchContainer (str "<body") (str "</body>") cleanHtml with
      | Some b => b
      | None => cleanHtml
      end
  end.

(** [contentType.match(/charset=([^;]+)/i)]. *)
Definition charsetAt (s : jsstring) : option jsstring :=
  match stripPrefixCI (str "charset=") s with
  | Some r =>
      match fst (span (fun c => negb (N.eqb c (chr ";"))) r) with
      | (_ :: _) as v => Some v
      | [] => None
      end
  | None => None
  end.

End Html.

(* ================================================================== *)
(** * src/bun/index.ts: the bun process *)
(* ================================================================== *)

Module Bun.

Definition ignoreLayoutTables : rule := {|
  key := str "ignoreLayoutTables";
  filter := fun n =>
    if negb (jsstring_eqb (nodeName n) (str "TABLE")) then false else
    let hasHeaders := (0 <? length (querySelectorAll (Tag (str "TH")) n))%nat in
    let hasNested :=
      match querySelector (Tag (str "TABLE")) n with Some _ => true | None => false end in
    negb hasHeaders && hasNested;
  replacement := fun content _ => [10; 10]%N ++ content ++ [10; 10]%N
|}.

Definition removeBlankLinks : rule := {|
  key := str "removeBlankLinks";
  filter := fun n =>
    jsstring_eqb (nodeName n) (str "A") &&
    (match getAttribute (str "href") n with Some _ => true | None => false end) &&
    jsstring_eqb (trim (textContent n)) [];
  replacement := fun _ _ => []
|}.

(** The rule array of the module-level [turndown] instance, given the array
    [gfm] that [turndown.use(gfm)] produced. *)
Definition rulesArray (gfm : list rule) : list rule :=
  let array := addRule ignoreLayoutTables gfm in
  let array := moveToFront (str "ignoreLayoutTables") array in
  addRule removeBlankLinks array.

Definition removedElements : list jsstring :=
  [str "script"; str "style"; str "noscript"; str "iframe"; str "object";
   str "embed"; str "nav"; str "footer"; str "aside"; str "meta"; str "link"].

Definition linkReplacement : matcher := fun _ s =>
  match linkAt s with
  | Some (text, url, n) =>
      let cleaned := trim (replaceAll wsRunAt text) in
      Some (if negb (truthy cleaned) then []
            else str "[" ++ cleaned ++ str "](" ++ url ++ str ")",
            n)
  | None => None
  end.

Definition cleanupTurndownOutput (markdown : jsstring) : jsstring :=
  let markdown := replaceAll linkReplacement markdown in
  let markdown := removeOrphanNumbers markdown in
  let markdown := collapseBlankLines markdown in
  trim markdown.

Definition getCharset (P : Platform) (contentType : jsstring) : jsstring :=
  match firstMatch (fun _ t => Html.charsetAt t) None contentType with
  | Some v =>
      toLowerCase P (List.filter (fun c => negb (N.eqb c 34)) (trim v))
  | None => str "utf-8"
  end.

Definition decodeResponseBody (P : Platform) (response : Response)
    (contentType : jsstring) : outcome jsstring :=
  let buffer := arrayBuffer response in
  let charset := getCharset P contentType in
  match textDecoder P charset with
  | Some decode => Ok (decode buffer)
  | None =>
      match textDecoder P (str "utf-8") with
      | Some decode => Ok (decode buffer)
      | None => Throw (str "RangeError")
      end
  end.

Definition settings0 : BrowserSettings.t := {|
  BrowserSettings.sendAcceptMd := true;
  BrowserSettings.autoConvert := true;
  BrowserSettings.allowJavascript := false
|}.

(** The [updateSettings] handler: the settings it leaves in the module-level
    variable, and the [needsRefresh] of its answer. *)
Definition updateSettings (newSettings : PartialSettings.t) (settings : BrowserSettings.t)
  : BrowserSettings.t * bool :=
  let oldSettings := settings in
  let settings := assignSettings settings newSettings in
  let needsRefresh :=
    negb (Bool.eqb (BrowserSettings.sendAcceptMd oldSettings)
                   (BrowserSettings.sendAcceptMd settings)) ||
    negb (Bool.eqb (BrowserSettings.autoConvert oldSettings)
                   (BrowserSettings.autoConvert settings)) ||
    negb (Bool.eqb (BrowserSettings.allowJavascript oldSettings)
                   (BrowserSettings.allowJavascript settings)) in
  (settings, needsRefresh).

(** [/^https?:\/\//i]. *)
Definition looksLikeUrl (url : jsstring) : bool :=
  match stripPrefixCI (str "http://") url, stripPrefixCI (str "https://") url with
  | None, None => false
  | _, _ => true
  end.

Definition normalizeUrl (url : jsstring) : outcome jsstring :=
  let url := trim url in
  if negb (truthy url) then Ok [] else
  if startsWith (str "mdbrowse://") url then Ok url else
  if looksLikeUrl url then Ok url else
  if includes (str ".") url && negb (includes (str " ") url) then
    Ok (str "https://" ++ url)
  else
    bind (encodeURIComponent url)
         (fun q => Ok (str "https://duckduckgo.com/?q=" ++ q)).

(** The test that the response is markdown, or plain text that is not
    HTML. *)
Definition isMarkdownResponse (contentType text : jsstring) : bool :=
  includes (str "text/markdown") contentType ||
  includes (str "text/x-markdown") contentType ||
  (includes (str "text/plain") contentType &&
   negb (startsWith (str "<!") (trim text)) &&
   negb (startsWith (str "<html") (trim text))).

Definition acceptHeader (settings : BrowserSettings.t) : jsstring :=
  if BrowserSettings.sendAcceptMd settings
  then str "text/markdown, text/x-markdown, text/plain, text/html, */*"
  else str "text/html, */*".

(** The body of the [try] block of [fetchPage] once [fetch] has resolved to
    [response]. *)
Definition processResponse (P : Platform) (settings : BrowserSettings.t)
    (response : Response) : outcome PageContent.t :=
  let contentType :=
    match contentTypeHeader response with
    | Some ((_ :: _) as v) => v
    | _ => []
    end in
  let finalUrl := responseUrl response in
  bind (decodeResponseBody P response contentType) (fun text =>
  if isMarkdownResponse contentType text then
    let markdown := text in
    let headingMatch := firstMatch Html.headingAt None markdown in
    bind (match headingMatch with
          | Some h => Ok h
          | None => hostname P finalUrl
          end) (fun title =>
    Ok {| PageContent.url := finalUrl;
          PageContent.markdown := markdown;
          PageContent.rawHtml := [];
          PageContent.title := title;
          PageContent.wasMarkdown := true |})
  else
    let rawHtml := text in
    let titleMatch := firstMatch (fun _ t => Html.titleAt t) None text in
    bind (match titleMatch with
          | Some t => Ok (trim t)
          | None => hostname P finalUrl
          end) (fun title =>
    bind (if BrowserSettings.autoConvert settings then
            bind (turndown P (Html.reduce text))
                 (fun md => Ok (cleanupTurndownOutput md))
          else Ok rawHtml) (fun markdown =>
    Ok {| PageContent.url := finalUrl;
          PageContent.markdown := markdown;
          PageContent.rawHtml := rawHtml;
          PageContent.title := title;
          PageContent.wasMarkdown := false |}))).

Definition errorPage (url errorMessage : jsstring) : PageContent.t := {|
  PageContent.url := url;
  PageContent.markdown :=
    str "# Error Loading Page" ++ [10; 10]%N ++ str "Failed to load: " ++ url ++
    [10; 10]%N ++ str "**Error:** " ++ errorMessage;
  PageContent.rawHtml :=
    str "<h1>Error Loading Page</h1><p>Failed to load: " ++ url ++
    str "</p><p><strong>Error:</strong> " ++ errorMessage ++ str "</p>";
  PageContent.title := str "Error";
  PageContent.wasMarkdown := false
|}.

(** [fetchPage(url)]; [fetched] is the outcome of the call of [fetch] it
    makes when [url] is not the start page. *)
Definition fetchPage (P : Platform) (settings : BrowserSettings.t)
    (fetched : outcome Response) (url : jsstring) : outcome PageContent.t :=
  if jsstring_eqb url START_PAGE_URL then
    if BrowserSettings.sendAcceptMd settings then
      Ok {| PageContent.url := START_PAGE_URL;
            PageContent.markdown := START_PAGE_MARKDOWN P;
            PageContent.rawHtml := [];
            PageContent.title := START_PAGE_TITLE;
            PageContent.wasMarkdown := true |}
    else
      let rawHtml := START_PAGE_HTML P in
      bind (if BrowserSettings.autoConvert settings then
              bind (turndown P rawHtml) (fun md => Ok (cleanupTurndownOutput md))
            else Ok rawHtml) (fun markdown =>
      Ok {| PageContent.url := START_PAGE_URL;
            PageContent.markdown := markdown;
            PageContent.rawHtml := rawHtml;
            PageContent.title := START_PAGE_TITLE;
            PageContent.wasMarkdown := false |})
  else
    match bind fetched (processResponse P settings) with
    | Ok content => Ok content
    | Throw errorMessage => Ok (errorPage url errorMessage)
    end.

(** ** State management *)

Local Open Scope Z_scope.

Module Tab.
Record t := {
  id : Z;
  url : jsstring;
  title : jsstring;
  history : list jsstring;
  historyIndex : Z;
  isLoading : bool;
  content : option PageContent.t
}.
End Tab.

(** [array[i]]: [None] stands for [undefined]. *)
Definition at_ {A} (array : list A) (i : Z) : option A :=
  if i <? 0 then None else nth_error array (Z.to_nat i).

(** [array.slice(0, end)]. *)
Definition slice0 {A} (array : list A) (e : Z) : list A :=
  if e <? 0 then firstn (Z.to_nat (Z.of_nat (length array) + e)) array
  else firstn (Z.to_nat e) array.

Definition len {A} (array : list A) : Z := Z.of_nat (length array).

(** An RPC handler runs without interruption up to its [await fetchPage(...)]
    and again from there once the fetch has settled; in between, other
    handlers run.  A suspended handler is remembered with the tab object it
    holds (tab ids are never reused, so the id stands for the object) and the
    URL it asked for. *)
Inductive Handler := Navigate | History | Reload.

Record Pending := {
  handler : Handler;
  tabRef : Z;
  requested : jsstring
}.

Record State := {
  tabs : list Tab.t;
  activeTabId : Z;
  nextTabId : Z;
  pending : list Pending
}.

Definition newTab (id : Z) (title : jsstring) : Tab.t := {|
  Tab.id := id;
  Tab.url := [];
  Tab.title := title;
  Tab.history := [];
  Tab.historyIndex := -1;
  Tab.isLoading := false;
  Tab.content := None
|}.

(** The module-level state once the initial tab has been created. *)
Definition initialState : State := {|
  tabs := [newTab 1 (str "New Tab")];
  activeTabId := 1;
  nextTabId := 2;
  pending := []
|}.

Definition getActiveTab (s : State) : option Tab.t :=
  find (fun t => Tab.id t =? activeTabId s) (tabs s).

(** [t.title || t.url || "New Tab"]. *)
Definition displayTitle (t : Tab.t) : jsstring :=
  if truthy (Tab.title t) then Tab.title t
  else if truthy (Tab.url t) then Tab.url t
  else str "New Tab".

Definition getTabInfos (s : State) : list TabInfo.t :=
  map (fun t =>
         {| TabInfo.id := Tab.id t;
            TabInfo.url := Tab.url t;
            TabInfo.title := displayTitle t;
            TabInfo.isActive := Tab.id t =? activeTabId s;
            TabInfo.isLoading := Tab.isLoading t |})
      (tabs s).

Record NavigationState := {
  canGoBack : bool;
  canGoForward : bool;
  navIsLoading : bool;
  navUrl : jsstring;
  navTitle : jsstring
}.

Definition getNavigationState (s : State) : NavigationState :=
  let tab := getActiveTab s in
  {| canGoBack :=
       match tab with Some t => 0 <? Tab.historyIndex t | None => false end;
     canGoForward :=
       match tab with
       | Some t => Tab.historyIndex t <? len (Tab.history t) - 1
       | None => false
       end;
     navIsLoading := match tab with Some t => Tab.isLoading t | None => false end;
     navUrl := match tab with Some t => Tab.url t | None => [] end;
     navTitle := match tab with Some t => Tab.title t | None => [] end |}.

(** A mutation of the tab object with identity [id]; a tab that was closed
    meanwhile is no longer part of the state. *)
Definition updateTab (id : Z) (f : Tab.t -> Tab.t) (ts : list Tab.t) : list Tab.t :=
  map (fun t => if Tab.id t =? id then f t else t) ts.

Definition withTabs (s : State) (ts : list Tab.t) : State :=
  {| tabs := ts; activeTabId := activeTabId s; nextTabId := nextTabId s;
     pending := pending s |}.

Definition suspend (s : State) (h : Handler) (tab : Z) (url : jsstring) : State :=
  {| tabs := tabs s; activeTabId := activeTabId s; nextTabId := nextTabId s;
     pending := pending s ++ [{| handler := h; tabRef := tab; requested := url |}] |}.

(** [optional === value] for an optional string and a string. *)
Definition strictEq (a : option jsstring) (b : jsstring) : bool :=
  match a with Some x => jsstring_eqb x b | None => false end.

(** The history update of [navigate], lines 407 to 414. *)
Definition pushHistory (history : list jsstring) (historyIndex : Z) (url : jsstring)
  : list jsstring * Z :=
  let history :=
    if historyIndex <? len history - 1 then slice0 history (historyIndex + 1)
    else history in
  let lastUrl := at_ history (len history - 1) in
  let history := if negb (strictEq lastUrl url) then history ++ [url] else history in
  (history, len history - 1).

(** [navigate], from the resolved [fetchPage] to the end of the [try]. *)
Definition commitNavigate (content : PageContent.t) (tab : Tab.t) : Tab.t :=
  let (history, historyIndex) :=
    pushHistory (Tab.history tab) (Tab.historyIndex tab) (PageContent.url content) in
  {| Tab.id := Tab.id tab;
     Tab.url := PageContent.url content;
     Tab.title := PageContent.title content;
     Tab.history := history;
     Tab.historyIndex := historyIndex;
     Tab.isLoading := false;
     Tab.content := Some content |}.

(** [goBack] and [goForward], from the resolved [fetchPage] on. *)
Definition commitHistory (content : PageContent.t) (tab : Tab.t) : Tab.t :=
  {| Tab.id := Tab.id tab;
     Tab.url := PageContent.url content;
     Tab.title := PageContent.title content;
     Tab.history := Tab.history tab;
     Tab.historyIndex := Tab.historyIndex tab;
     Tab.isLoading := false;
     Tab.content := Some content |}.

(** [reload] and [refetchForViewMode], from the resolved [fetchPage] on. *)
Definition commitReload (content : PageContent.t) (tab : Tab.t) : Tab.t :=
  {| Tab.id := Tab.id tab;
     Tab.url := Tab.url tab;
     Tab.title := PageContent.title content;
     Tab.history := Tab.history tab;
     Tab.historyIndex := Tab.historyIndex tab;
     Tab.isLoading := false;
     Tab.content := Some content |}.

Definition setLoading (b : bool) (tab : Tab.t) : Tab.t :=
  {| Tab.id := Tab.id tab;
     Tab.url := Tab.url tab;
     Tab.title := Tab.title tab;
     Tab.history := Tab.history tab;
     Tab.historyIndex := Tab.historyIndex tab;
     Tab.isLoading := b;
     Tab.content := Tab.content tab |}.

(** [tab.historyIndex = i; tab.isLoading = true; tab.url = url]. *)
Definition startLoading (i : Z) (url : jsstring) (tab : Tab.t) : Tab.t :=
  {| Tab.id := Tab.id tab;
     Tab.url := url;
     Tab.title := Tab.title tab;
     Tab.history := Tab.history tab;
     Tab.historyIndex := i;
     Tab.isLoading := true;
     Tab.content := Tab.content tab |}.

(** What an index outside the array leaves in a string field; no handler
    reads the history outside its bounds in a reachable state. *)
Definition undefined : jsstring := str "undefined".

Definition orUndefined (v : option jsstring) : jsstring :=
  match v with Some x => x | None => undefined end.

(** [navigate] up to [await fetchPage(normalizedUrl)]. *)
Definition navigate (url : jsstring) (s : State) : State :=
  match normalizeUrl url with
  | Throw _ => s
  | Ok normalizedUrl =>
      if negb (truthy normalizedUrl) then s else
      let '(s, id) :=
        match getActiveTab s with
        | Some tab => (s, Tab.id tab)
        | None =>
            ({| tabs := tabs s ++ [newTab (nextTabId s) []];
                activeTabId := nextTabId s;
                nextTabId := nextTabId s + 1;
                pending := pending s |}, nextTabId s)
        end in
      let s :=
        withTabs s
          (updateTab id (fun tab => startLoading (Tab.historyIndex tab) normalizedUrl tab)
                     (tabs s)) in
      suspend s Navigate id normalizedUrl
  end.

(** [goBack] up to [await fetchPage(url)]. *)
Definition goBack (s : State) : State :=
  match getActiveTab s with
  | None => s
  | Some tab =>
      if Tab.historyIndex tab <=? 0 then s else
      let i := Tab.historyIndex tab - 1 in
      let url := orUndefined (at_ (Tab.history tab) i) in
      suspend (withTabs s (updateTab (Tab.id tab) (startLoading i url) (tabs s)))
              History (Tab.id tab) url
  end.

(** [goForward] up to [await fetchPage(url)]. *)
Definition goForward (s : State) : State :=
  match getActiveTab s with
  | None => s
  | Some tab =>
      if len (Tab.history tab) - 1 <=? Tab.historyIndex tab then s else
      let i := Tab.historyIndex tab + 1 in
      let url := orUndefined (at_ (Tab.history tab) i) in
      suspend (withTabs s (updateTab (Tab.id tab) (startLoading i url) (tabs s)))
              History (Tab.id tab) url
  end.

(** [reload] and [refetchForViewMode] up to [await fetchPage(tab.url)]. *)
Definition reload (s : State) : State :=
  match getActiveTab s with
  | None => s
  | Some tab =>
      if negb (truthy (Tab.url tab)) then s else
      suspend (withTabs s (updateTab (Tab.id tab) (setLoading true) (tabs s)))
              Reload (Tab.id tab) (Tab.url tab)
  end.

Definition stopLoading (s : State) : State :=
  match getActiveTab s with
  | Some tab => withTabs s (updateTab (Tab.id tab) (setLoading false) (tabs s))
  | None => s
  end.

(** [createTab]: the state the handler leaves.  Given a URL that is not
    empty it goes on to evaluate [mainRPC.handlers.requests.navigate]; the
    object [defineRPC] returns has no [handlers] property, so that expression
    throws a TypeError and the request fails, with the tab created and
    active by then and no navigation started.  Without a URL the request is
    answered with the id of the tab. *)
Definition createTab (url : option jsstring) (s : State) : State :=
  {| tabs := tabs s ++ [newTab (nextTabId s) (str "New Tab")];
     activeTabId := nextTabId s;
     nextTabId := nextTabId s + 1;
     pending := pending s |}.

(** [tabs.findIndex(t => t.id === tabId)], [None] standing for [-1]. *)
Fixpoint findIndex (tabId : Z) (ts : list Tab.t) : option nat :=
  match ts with
  | [] => None
  | t :: rest =>
      if Tab.id t =? tabId then Some 0%nat else option_map S (findIndex tabId rest)
  end.

(** [tabs.splice(index, 1)]. *)
Definition splice1 {A} (index : nat) (array : list A) : list A :=
  firstn index array ++ skipn (S index) array.

Definition closeTab (tabId : Z) (s : State) : State :=
  match findIndex tabId (tabs s) with
  | None => s
  | Some index =>
      let ts := splice1 index (tabs s) in
      if activeTabId s =? tabId then
        if 0 <? len ts then
          let newIndex := Z.min (Z.of_nat index) (len ts - 1) in
          match at_ ts newIndex with
          | Some tab =>
              {| tabs := ts; activeTabId := Tab.id tab; nextTabId := nextTabId s;
                 pending := pending s |}
          | None => withTabs s ts
          end
        else
          {| tabs := ts ++ [newTab (nextTabId s) (str "New Tab")];
             activeTabId := nextTabId s;
             nextTabId := nextTabId s + 1;
             pending := pending s |}
      else withTabs s ts
  end.

Definition switchTab (tabId : Z) (s : State) : State :=
  match find (fun t => Tab.id t =? tabId) (tabs s) with
  | None => s
  | Some _ =>
      {| tabs := tabs s; activeTabId := tabId; nextTabId := nextTabId s;
         pending := pending s |}
  end.

(** [value || null] for an optional string: the empty string is falsy. *)
Definition orNull (v : option jsstring) : option jsstring :=
  match v with Some ((_ :: _) as x) => Some x | _ => None end.

Definition onWebviewNavigated (P : Platform) (url : jsstring) (s : State) : State :=
  match getActiveTab s with
  | None => s
  | Some tab =>
      let history := Tab.history tab in
      let historyIndex := Tab.historyIndex tab in
      let currentUrl := orNull (at_ history historyIndex) in
      let backUrl := if 0 <? historyIndex then at_ history (historyIndex - 1) else None in
      let forwardUrl :=
        if historyIndex <? len history - 1 then at_ history (historyIndex + 1) else None in
      let '(history, historyIndex) :=
        if strictEq currentUrl url then (history, historyIndex)
        else if strictEq backUrl url then (history, historyIndex - 1)
        else if strictEq forwardUrl url then (history, historyIndex + 1)
        else
          let history :=
            if historyIndex <? len history - 1 then slice0 history (historyIndex + 1)
            else history in
          (history ++ [url], len (history ++ [url]) - 1) in
      let title := match hostname P url with Ok h => h | Throw _ => url end in
      withTabs s
        (updateTab (Tab.id tab)
           (fun tab =>
              {| Tab.id := Tab.id tab;
                 Tab.url := url;
                 Tab.title := title;
                 Tab.history := history;
                 Tab.historyIndex := historyIndex;
                 Tab.isLoading := Tab.isLoading tab;
                 Tab.content := Tab.content tab |})
           (tabs s))
  end.

(** The [k]-th suspended handler resumes with what its [fetchPage] produced.
    Only [navigate] awaits inside a [try]; its [catch] clears [isLoading]. *)
Definition resume (k : nat) (result : outcome PageContent.t) (s : State) : State :=
  match nth_error (pending s) k with
  | None => s
  | Some p =>
      let s := {| tabs := tabs s; activeTabId := activeTabId s;
                  nextTabId := nextTabId s; pending := splice1 k (pending s) |} in
      match result, handler p with
      | Ok content, Navigate =>
          withTabs s (updateTab (tabRef p) (commitNavigate content) (tabs s))
      | Ok content, History =>
          withTabs s (updateTab (tabRef p) (commitHistory content) (tabs s))
      | Ok content, Reload =>
          withTabs s (updateTab (tabRef p) (commitReload content) (tabs s))
      | Throw _, Navigate =>
          withTabs s (updateTab (tabRef p) (setLoading false) (tabs s))
      | Throw _, _ => s
      end
  end.

(** The requests of the RPC surface that touch the tabs, and the settling of
    a fetch. *)
Inductive Event :=
| ENavigate (url : jsstring)
| EGoBack
| EGoForward
| EReload
| EStopLoading
| ECreateTab (url : option jsstring)
| ECloseTab (tabId : Z)
| ESwitchTab (tabId : Z)
| ERefetchForViewMode
| EWebviewNavigated (url : jsstring)
| ESettled (k : nat) (result : outcome PageContent.t).

Definition step (P : Platform) (s : State) (e : Event) : State :=
  match e with
  | ENavigate url => navigate url s
  | EGoBack => goBack s
  | EGoForward => goForward s
  | EReload => reload s
  | EStopLoading => stopLoading s
  | ECreateTab url => createTab url s
  | ECloseTab tabId => closeTab tabId s
  | ESwitchTab tabId => switchTab tabId s
  | ERefetchForViewMode => reload s
  | EWebviewNavigated url => onWebviewNavigated P url s
  | ESettled k result => resume k result s
  end.

Definition run (P : Platform) (events : list Event) (s : State) : State :=
  fold_left (step P) events s.

End Bun.

(* ================================================================== *)
(** * src/toolbar-svelte/lib/rpc.ts: the view shim *)
(* ================================================================== *)

Module Shim.

Local Open Scope Z_scope.

(** The converter rules, [cleanupTurndownOutput], [getCharset] and the
    decoding are, statement for statement, those of the bun process. *)
Definition rulesArray := Bun.rulesArray.
Definition cleanupTurndownOutput := Bun.cleanupTurndownOutput.
Definition getCharset := Bun.getCharset.

(** [updateSettings] in the shim: the same assignment and the same
    comparison, on [shimSettings]. *)
Definition updateSettings := Bun.updateSettings.

Definition normalizeUrl (input : jsstring) : jsstring :=
  let url := trim input in
  if negb (truthy url) then [] else
  if startsWith (str "mdbrowse://") url then url else
  if startsWith (str "http://") url || startsWith (str "https://") url then url else
  if includes (str ".") url && negb (includes (str " ") url) then str "https://" ++ url
  else str "https://" ++ url.

(** The response of the proxy: its [content-type] and [x-final-url] headers
    and its body. *)
Record ProxyResponse := {
  contentTypeHeader : option jsstring;
  finalUrlHeader : option jsstring;
  arrayBuffer : list N
}.

Definition decodeArrayBuffer (P : Platform) (buffer : list N) (contentType : jsstring)
  : outcome jsstring :=
  let charset := getCharset P contentType in
  match textDecoder P charset with
  | Some decode => Ok (decode buffer)
  | None =>
      match textDecoder P (str "utf-8") with
      | Some decode => Ok (decode buffer)
      | None => Throw (str "RangeError")
      end
  end.

(** [shimFetchPage(url)]; [fetched] is the outcome of the call of [fetch] it
    makes when [url] is not the start page.  Nothing is caught here. *)
Definition shimFetchPage (P : Platform) (shimSettings : BrowserSettings.t)
    (fetched : outcome ProxyResponse) (url : jsstring) : outcome PageContent.t :=
  if jsstring_eqb url START_PAGE_URL then
    if BrowserSettings.sendAcceptMd shimSettings then
      Ok {| PageContent.url := START_PAGE_URL;
            PageContent.markdown := START_PAGE_MARKDOWN P;
            PageContent.rawHtml := [];
            PageContent.title := START_PAGE_TITLE;
            PageContent.wasMarkdown := true |}
    else
      let rawHtml := START_PAGE_HTML P in
      bind (if BrowserSettings.autoConvert shimSettings then
              bind (turndown P rawHtml) (fun md => Ok (cleanupTurndownOutput md))
            else Ok rawHtml) (fun markdown =>
      Ok {| PageContent.url := START_PAGE_URL;
            PageContent.markdown := markdown;
            PageContent.rawHtml := rawHtml;
            PageContent.title := START_PAGE_TITLE;
            PageContent.wasMarkdown := false |})
  else
    bind fetched (fun response =>
    let contentType :=
      match contentTypeHeader response with
      | Some ((_ :: _) as v) => v
      | _ => []
      end in
    let finalUrl :=
      match finalUrlHeader response with
      | Some ((_ :: _) as v) => v
      | _ => url
      end in
    bind (decodeArrayBuffer P (arrayBuffer response) contentType) (fun text =>
    if Bun.isMarkdownResponse contentType text then
      let markdown := text in
      let headingMatch := firstMatch Html.headingAt None markdown in
      bind (match headingMatch with
            | Some h => Ok h
            | None => hostname P finalUrl
            end) (fun title =>
      Ok {| PageContent.url := finalUrl;
            PageContent.markdown := markdown;
            PageContent.rawHtml := [];
            PageContent.title := title;
            PageContent.wasMarkdown := true |})
    else
      let rawHtml := text in
      let titleMatch := firstMatch (fun _ t => Html.titleAt t) None text in
      bind (match titleMatch with
            | Some t => Ok (trim t)
            | None => hostname P finalUrl
            end) (fun title =>
      bind (if BrowserSettings.autoConvert shimSettings then
              bind (turndown P (Html.reduce text))
                   (fun md => Ok (cleanupTurndownOutput md))
            else Ok rawHtml) (fun markdown =>
      Ok {| PageContent.url := finalUrl;
            PageContent.markdown := markdown;
            PageContent.rawHtml := rawHtml;
            PageContent.title := title;
            PageContent.wasMarkdown := false |})))).

Module ShimTab.
Record t := {
  id : Z;
  url : jsstring;
  title : jsstring;
  isActive : bool;
  isLoading : bool;
  history : list jsstring;
  historyIndex : Z;
  content : option PageContent.t
}.
End ShimTab.

(** A suspended [shimNavigate]: the tab object it holds and its
    [updateHistory] argument. *)
Record Pending := {
  tabRef : Z;
  updateHistory : bool
}.

(** [shimState], and the suspended calls of [shimNavigate]. *)
Record State := {
  tabs : list ShimTab.t;
  activeTabId : Z;
  nextTabId : Z;
  pending : list Pending
}.

Definition shimState0 : State :=
  {| tabs := []; activeTabId := 1; nextTabId := 1; pending := [] |}.

Definition createShimTab (s : State) : ShimTab.t * State :=
  let id := nextTabId s in
  ({| ShimTab.id := id;
      ShimTab.url := [];
      ShimTab.title := str "New Tab";
      ShimTab.isActive := false;
      ShimTab.isLoading := false;
      ShimTab.history := [];
      ShimTab.historyIndex := -1;
      ShimTab.content := None |},
   {| tabs := tabs s; activeTabId := activeTabId s; nextTabId := nextTabId s + 1;
      pending := pending s |}).

(** [ensureShimTab()]: the active tab, and the state it leaves. *)
Definition ensureShimTab (s : State) : option ShimTab.t * State :=
  let s :=
    match tabs s with
    | [] =>
        let (tab, s) := createShimTab s in
        {| tabs := tabs s ++ [tab]; activeTabId := ShimTab.id tab;
           nextTabId := nextTabId s; pending := pending s |}
    | _ :: _ => s
    end in
  match find (fun t => ShimTab.id t =? activeTabId s) (tabs s) with
  | Some active => (Some active, s)
  | None =>
      match tabs s with
      | first :: _ =>
          (Some first,
           {| tabs := tabs s; activeTabId := ShimTab.id first;
              nextTabId := nextTabId s; pending := pending s |})
      | [] => (None, s)
      end
  end.

(** [shimSyncTabs()]: the list it hands to the store, and the state
    [ensureShimTab] leaves. *)
Definition shimSyncTabs (s : State) : list TabInfo.t * State :=
  match ensureShimTab s with
  | (Some active, s) =>
      (map (fun t =>
              {| TabInfo.id := ShimTab.id t;
                 TabInfo.url := ShimTab.url t;
                 TabInfo.title := ShimTab.title t;
                 TabInfo.isActive := ShimTab.id t =? ShimTab.id active;
                 TabInfo.isLoading := ShimTab.isLoading t |})
           (tabs s), s)
  | (None, s) => ([], s)
  end.

(** [shimSyncNavigation()]: [canGoBack] and [canGoForward] as handed to the
    store. *)
Definition shimSyncNavigation (s : State) : (bool * bool) * State :=
  match ensureShimTab s with
  | (Some tab, s) =>
      ((0 <? ShimTab.historyIndex tab,
        ShimTab.historyIndex tab <? Bun.len (ShimTab.history tab) - 1), s)
  | (None, s) => ((false, false), s)
  end.

Definition updateTab (id : Z) (f : ShimTab.t -> ShimTab.t) (ts : list ShimTab.t)
  : list ShimTab.t :=
  map (fun t => if ShimTab.id t =? id then f t else t) ts.

Definition withTabs (s : State) (ts : list ShimTab.t) : State :=
  {| tabs := ts; activeTabId := activeTabId s; nextTabId := nextTabId s;
     pending := pending s |}.

(** The history update of [shimNavigate], lines 267 to 276. *)
Definition pushHistory (history : list jsstring) (historyIndex : Z) (url : jsstring)
  : list jsstring * Z :=
  let lastUrl := Bun.at_ history (Bun.len history - 1) in
  if negb (Bun.strictEq lastUrl url) then
    let history :=
      if historyIndex <? Bun.len history - 1 then Bun.slice0 history (historyIndex + 1)
      else history in
    (history ++ [url], Bun.len (history ++ [url]) - 1)
  else (history, historyIndex).

(** [shimNavigate] up to [await shimFetchPage(url)]. *)
Definition shimNavigate (updateHistory : bool) (s : State) : State :=
  match ensureShimTab s with
  | (Some tab, s) =>
      let s :=
        withTabs s
          (updateTab (ShimTab.id tab)
             (fun t =>
                {| ShimTab.id := ShimTab.id t;
                   ShimTab.url := ShimTab.url t;
                   ShimTab.title := ShimTab.title t;
                   ShimTab.isActive := ShimTab.isActive t;
                   ShimTab.isLoading := true;
                   ShimTab.history := ShimTab.history t;
                   ShimTab.historyIndex := ShimTab.historyIndex t;
                   ShimTab.content := ShimTab.content t |})
             (tabs s)) in
      {| tabs := tabs s; activeTabId := activeTabId s; nextTabId := nextTabId s;
         pending := pending s ++ [{| tabRef := ShimTab.id tab;
                                     updateHistory := updateHistory |}] |}
  | (None, s) => s
  end.

(** [shimNavigate] from the resolved [shimFetchPage] on. *)
Definition commit (updateHistory : bool) (content : PageContent.t) (tab : ShimTab.t)
  : ShimTab.t :=
  let (history, historyIndex) :=
    if updateHistory
    then pushHistory (ShimTab.history tab) (ShimTab.historyIndex tab)
                     (PageContent.url content)
    else (ShimTab.history tab, ShimTab.historyIndex tab) in
  {| ShimTab.id := ShimTab.id tab;
     ShimTab.url := PageContent.url content;
     ShimTab.title :=
       if truthy (PageContent.title content) then PageContent.title content
       else ShimTab.title tab;
     ShimTab.isActive := ShimTab.isActive tab;
     ShimTab.isLoading := false;
     ShimTab.history := history;
     ShimTab.historyIndex := historyIndex;
     ShimTab.content := Some content |}.

Definition resume (k : nat) (result : outcome PageContent.t) (s : State) : State :=
  match nth_error (pending s) k with
  | None => s
  | Some p =>
      let s := {| tabs := tabs s; activeTabId := activeTabId s;
                  nextTabId := nextTabId s; pending := Bun.splice1 k (pending s) |} in
      match result with
      | Ok content =>
          snd (ensureShimTab
                 (withTabs s (updateTab (tabRef p) (commit (updateHistory p) content)
                                        (tabs s))))
      | Throw _ => s
      end
  end.

Definition navigateToUrl (url : jsstring) (s : State) : State :=
  let normalizedUrl := normalizeUrl url in
  if negb (truthy normalizedUrl) then s else shimNavigate true s.

Definition setHistoryIndex (i : Z) (t : ShimTab.t) : ShimTab.t :=
  {| ShimTab.id := ShimTab.id t;
     ShimTab.url := ShimTab.url t;
     ShimTab.title := ShimTab.title t;
     ShimTab.isActive := ShimTab.isActive t;
     ShimTab.isLoading := ShimTab.isLoading t;
     ShimTab.history := ShimTab.history t;
     ShimTab.historyIndex := i;
     ShimTab.content := ShimTab.content t |}.

Definition goBack (s : State) : State :=
  match ensureShimTab s with
  | (Some tab, s) =>
      if ShimTab.historyIndex tab <=? 0 then s else
      shimNavigate false
        (withTabs s (updateTab (ShimTab.id tab)
                       (setHistoryIndex (ShimTab.historyIndex tab - 1)) (tabs s)))
  | (None, s) => s
  end.

Definition goForward (s : State) : State :=
  match ensureShimTab s with
  | (Some tab, s) =>
      if Bun.len (ShimTab.history tab) - 1 <=? ShimTab.historyIndex tab then s else
      shimNavigate false
        (withTabs s (updateTab (ShimTab.id tab)
                       (setHistoryIndex (ShimTab.historyIndex tab + 1)) (tabs s)))
  | (None, s) => s
  end.

Definition createNewTab (s : State) : State :=
  let (tab, s) := createShimTab s in
  snd (ensureShimTab
         {| tabs := tabs s ++ [tab]; activeTabId := ShimTab.id tab;
            nextTabId := nextTabId s; pending := pending s |}).

Definition switchTab (tabId : Z) (s : State) : State :=
  match find (fun t => ShimTab.id t =? tabId) (tabs s) with
  | None => s
  | Some _ =>
      snd (ensureShimTab
             {| tabs := tabs s; activeTabId := tabId; nextTabId := nextTabId s;
                pending := pending s |})
  end.

Fixpoint findIndex (tabId : Z) (ts : list ShimTab.t) : option nat :=
  match ts with
  | [] => None
  | t :: rest =>
      if ShimTab.id t =? tabId then Some 0%nat else option_map S (findIndex tabId rest)
  end.

Definition closeTab (tabId : Z) (s : State) : State :=
  match findIndex tabId (tabs s) with
  | None => s
  | Some index =>
      let wasActive := activeTabId s =? tabId in
      let s := withTabs s (Bun.splice1 index (tabs s)) in
      let s :=
        if Bun.len (tabs s) =? 0 then
          let (tab, s) := createShimTab s in
          {| tabs := tabs s ++ [tab]; activeTabId := ShimTab.id tab;
             nextTabId := nextTabId s; pending := pending s |}
        else if wasActive then
          let newIndex := Z.min (Z.of_nat index) (Bun.len (tabs s) - 1) in
          match Bun.at_ (tabs s) newIndex with
          | Some next =>
              {| tabs := tabs s; activeTabId := ShimTab.id next;
                 nextTabId := nextTabId s; pending := pending s |}
          | None => s
          end
        else s in
      snd (ensureShimTab s)
  end.

Inductive Event :=
| ENavigateToUrl (url : jsstring)
| EGoBack
| EGoForward
| ECreateNewTab
| ECloseTab (tabId : Z)
| ESwitchTab (tabId : Z)
| ESettled (k : nat) (result : outcome PageContent.t).

Definition step (s : State) (e : Event) : State :=
  match e with
  | ENavigateToUrl url => navigateToUrl url s
  | EGoBack => goBack s
  | EGoForward => goForward s
  | ECreateNewTab => createNewTab s
  | ECloseTab tabId => closeTab tabId s
  | ESwitchTab tabId => switchTab tabId s
  | ESettled k result => resume k result s
  end.

Definition run (events : list Event) (s : State) : State :=
  fold_left step events s.

(** Everything the view asks of the shim that touches [shimState]: the
    requests above; [loadTabs], which syncs the tabs; and [reloadCurrentPage]
    and [fetchForViewModeSwitch], which, when the store has a current URL, go
    on as [shimNavigate(currentUrl, false)] (and do nothing otherwise). *)
Inductive Request :=
| Handle (e : Event)
| LoadTabs
| Refetch.

Definition serve (s : State) (r : Request) : State :=
  match r with
  | Handle e => step s e
  | LoadTabs => snd (shimSyncTabs s)
  | Refetch => shimNavigate false s
  end.

Definition session (requests : list Request) (s : State) : State :=
  fold_left serve requests s.

End Shim.

(* ================================================================== *)
(** * Sample data *)
(* ================================================================== *)

(** A platform, a response and documents on which the statements below are
    exercised. *)
Module Sample.

Definition platform : Platform := {|
  turndown := fun html => Ok html;
  hostname := fun _ => Ok (str "example.com");
  textDecoder := fun _ => Some (fun buffer => buffer);
  toLowerCase := fun s => s;
  START_PAGE_MARKDOWN := str "# MDBrowse";
  START_PAGE_HTML := str "<html><body><h1>MDBrowse</h1></body></html>"
|}.

Definition markdownResponse : Response := {|
  contentTypeHeader := Some (str "text/markdown; charset=utf-8");
  responseUrl := str "https://example.com/readme.md";
  arrayBuffer := str "# Readme"
|}.

Definition proxyResponse : Shim.ProxyResponse := {|
  Shim.contentTypeHeader := Some (str "text/markdown; charset=utf-8");
  Shim.finalUrlHeader := Some (str "https://example.com/readme.md");
  Shim.arrayBuffer := str "# Readme"
|}.

(** A response that carries markup, and the document [fetchPage] makes of
    it with the sample platform (whose converter returns its input). *)
Definition htmlResponse : Response := {|
  contentTypeHeader := Some (str "text/html");
  responseUrl := str "https://example.com/";
  arrayBuffer := str "<title>Example</title><body><p>Hello</p></body>"
|}.

Definition htmlDocument : PageContent.t := {|
  PageContent.url := str "https://example.com/";
  PageContent.markdown := str "<p>Hello</p>";
  PageContent.rawHtml := str "<title>Example</title><body><p>Hello</p></body>";
  PageContent.title := str "Example";
  PageContent.wasMarkdown := false
|}.

Definition urlA : jsstring := str "https://a.example/".
Definition urlB : jsstring := str "https://b.example/".

Definition page (url : jsstring) : PageContent.t := {|
  PageContent.url := url;
  PageContent.markdown := str "# Page";
  PageContent.rawHtml := [];
  PageContent.title := str "Page";
  PageContent.wasMarkdown := true
|}.

(** A rule standing for the table rule of the table extension. *)
Definition tableRule : rule := {|
  key := str "table";
  filter := fun n => jsstring_eqb (nodeName n) (str "TABLE");
  replacement := fun content _ => content
|}.

Definition gfm : list rule := [tableRule].

(** A paragraph: neither a table nor an anchor. *)
Definition paragraph : node := Element (str "P") [] [Text (str "Hello")].

(** An anchor with an address and an accessible name, and no text. *)
Definition anchorAria : node :=
  Element (str "A")
    [(str "href", str "https://example.com"); (str "aria-label", str "Example")] [].

(** An anchor whose [href] attribute is present and empty, and no text. *)
Definition anchorEmptyHref : node :=
  Element (str "A") [(str "href", [])] [].

(** A table of one data cell: no header cell, no table inside. *)
Definition plainTable : node :=
  Element (str "TABLE") []
    [Element (str "TBODY") []
       [Element (str "TR") [] [Element (str "TD") [] [Text (str "x")]]]].

(** [navigate(A)], then [navigate(B)] before the first fetch settles; the
    fetch of B settles first, the fetch of A last. *)
Definition staleTrace : list Bun.Event :=
  [Bun.ENavigate urlA; Bun.ENavigate urlB;
   Bun.ESettled 1 (Ok (page urlB)); Bun.ESettled 0 (Ok (page urlA))].

(** Two completed navigations and a [goBack] whose fetch is in flight. *)
Definition backTrace : list Bun.Event :=
  [Bun.ENavigate urlA; Bun.ESettled 0 (Ok (page urlA));
   Bun.ENavigate urlB; Bun.ESettled 0 (Ok (page urlB));
   Bun.EGoBack].

Definition backTab : Bun.Tab.t := {|
  Bun.Tab.id := 1;
  Bun.Tab.url := urlA;
  Bun.Tab.title := str "Page";
  Bun.Tab.history := [urlA; urlB];
  Bun.Tab.historyIndex := 0;
  Bun.Tab.isLoading := true;
  Bun.Tab.content := Some (page urlB)
|}.

(** A navigation whose tab is closed (a second tab is open by then) before
    its fetch settles. *)
Definition closedTrace : list Bun.Event :=
  [Bun.ENavigate urlA; Bun.ECreateTab None; Bun.ECloseTab 1].

(** The handler of that navigation, still waiting. *)
Definition closedPending : Bun.Pending :=
  {| Bun.handler := Bun.Navigate; Bun.tabRef := 1; Bun.requested := urlA |}.

(** In the view shim: A, then B, back to A, and then [navigateToUrl(A)]. *)
Definition shimRevisit : list Shim.Event :=
  [Shim.ENavigateToUrl urlA; Shim.ESettled 0 (Ok (page urlA));
   Shim.ENavigateToUrl urlB; Shim.ESettled 0 (Ok (page urlB));
   Shim.EGoBack; Shim.ESettled 0 (Ok (page urlA));
   Shim.ENavigateToUrl urlA; Shim.ESettled 0 (Ok (page urlA))].

(** In the view shim: A, then B, back to A, and then [navigateToUrl(B)]. *)
Definition shimForwardAgain : list Shim.Event :=
  [Shim.ENavigateToUrl urlA; Shim.ESettled 0 (Ok (page urlA));
   Shim.ENavigateToUrl urlB; Shim.ESettled 0 (Ok (page urlB));
   Shim.EGoBack; Shim.ESettled 0 (Ok (page urlA));
   Shim.ENavigateToUrl urlB; Shim.ESettled 0 (Ok (page urlB))].

(** The same four navigations in the bun process. *)
Definition bunRevisit : list Bun.Event :=
  [Bun.ENavigate urlA; Bun.ESettled 0 (Ok (page urlA));
   Bun.ENavigate urlB; Bun.ESettled 0 (Ok (page urlB));
   Bun.EGoBack; Bun.ESettled 0 (Ok (page urlA));
   Bun.ENavigate urlA; Bun.ESettled 0 (Ok (page urlA))].

End Sample.

(* ================================================================== *)
(** * Predicates of the statements *)
(* ================================================================== *)

Module Spec.

(** Whether a matcher matches at some position of a string. *)
Fixpoint matchesSomewhere (m : matcher) (prev : option char) (s : jsstring) : bool :=
  match m prev s with
  | Some _ => true
  | None =>
      match s with
      | c :: s' => matchesSomewhere m (Some c) s'
      | [] => false
      end
  end.


(** ** Anchors *)

(** The label sources of an anchor, each normalized as [getLinkLabel] does. *)
Definition ariaLabelOf (n : node) : jsstring :=
  Re.normalizeWhitespace (Shared.attrOrEmpty (str "aria-label") n).
Definition titleOf (n : node) : jsstring :=
  Re.normalizeWhitespace (Shared.attrOrEmpty (str "title") n).
Definition imgAltOf (n : node) : jsstring :=
  Re.normalizeWhitespace
    match querySelector (TagWithAttr (str "IMG") (str "alt")) n with
    | Some img => Shared.attrOrEmpty (str "alt") img
    | None => []
    end.

(** The label the specification asks for: the first source that is not
    empty, and the address as the last resort. *)
Definition resolvedLabel (n : node) (href : jsstring) : jsstring :=
  if truthy (ariaLabelOf n) then ariaLabelOf n
  else if truthy (titleOf n) then titleOf n
  else if truthy (imgAltOf n) then imgAltOf n
  else href.

(** ** Strings *)

Definition noWhiteSpace (s : jsstring) : bool :=
  forallb (fun c => negb (isWhiteSpace c)) s.

(** The characters of a percent-encoded component: the unreserved ones and
    the percent sign (the hexadecimal digits are unreserved). *)
Definition urlSafe (c : char) : bool := uriUnreserved c || N.eqb c 37.

(** A surrogate without its partner: a low surrogate that no high one
    precedes, or a high surrogate that no low one follows. *)
Fixpoint loneSurrogate (s : jsstring) : bool :=
  match s with
  | [] => false
  | c :: r =>
      if isLowSurrogate c then true
      else if isHighSurrogate c then
        match r with
        | d :: r2 => if isLowSurrogate d then loneSurrogate r2 else true
        | [] => true
        end
      else loneSurrogate r
  end.

(** Free text: input that, once trimmed, is not empty, carries none of the
    schemes and is not a bare host name (it has a space, or no period). *)
Definition freeText (s : jsstring) : bool :=
  let url := trim s in
  truthy url &&
  negb (startsWith (str "mdbrowse://") url) &&
  negb (Bun.looksLikeUrl url) &&
  negb (includes (str ".") url && negb (includes (str " ") url)).

(** Every white-space character is a space, and what follows it is not
    white space (or it is the last character). *)
Fixpoint spaced (s : jsstring) : bool :=
  match s with
  | c :: r =>
      (negb (isWhiteSpace c) ||
       (N.eqb c 32 &&
        match r with d :: _ => negb (isWhiteSpace d) | [] => true end)) &&
      spaced r
  | [] => true
  end.

(** The first character, if there is one, is not white space. *)
Definition headNotWhiteSpace (s : jsstring) : Prop :=
  match s with d :: _ => isWhiteSpace d = false | [] => True end.

(** Neither the first nor the last character is white space. *)
Definition trimmed (s : jsstring) : bool :=
  match s with
  | [] => true
  | c :: _ => negb (isWhiteSpace c) && negb (isWhiteSpace (last s 0%N))
  end.

Definition isNewline (c : char) : bool := N.eqb c 10.

(** White space up to the end of a line: what the end of the orphan pattern
    accepts. *)
Fixpoint wsThenEol (s : jsstring) : bool :=
  eol s ||
  match s with
  | c :: s' => isWhiteSpace c && wsThenEol s'
  | [] => false
  end.

(** Digits, a period, and white space up to the end of a line. *)
Fixpoint digitsThenRest (s : jsstring) : bool :=
  match s with
  | c :: s' =>
      if isDigit c then digitsThenRest s' else N.eqb c (chr ".") && wsThenEol s'
  | [] => false
  end.

(** The orphan pattern without its [^]: at least one digit, a period, and
    white space up to the end of a line. *)
Definition orphanHere (s : jsstring) : bool :=
  match s with
  | c :: _ => isDigit c && digitsThenRest s
  | [] => false
  end.


(** The length of the run of line feeds a string starts with. *)
Definition leadingNewlines (s : jsstring) : nat :=
  length (fst (span isNewline s)).

Definition notLBracket (c : char) : bool := negb (N.eqb c (chr "[")).

(** The string has no opening bracket. *)
Definition noBracket (s : jsstring) : bool := forallb notLBracket s.


(** The characters a match of the orphan pattern is made of. *)
Definition orphanChar (c : char) : bool :=
  isDigit c || N.eqb c (chr ".") || isWhiteSpace c.

(** The first character that is not white space begins the orphan pattern
    and stands after white space that ends no line ([prev] is the character
    before [s]): trimming brings that pattern to the start of the text. *)
Fixpoint exposedOrphan (prev : option char) (s : jsstring) : bool :=
  match s with
  | c :: s' =>
      if isWhiteSpace c then exposedOrphan (Some c) s'
      else negb (bol prev) && orphanHere s
  | [] => false
  end.

(** ** Brackets and links in a text *)

(** A link as the link pattern reads it: a label in brackets and an address
    in parentheses. *)
Definition link (t u : jsstring) : jsstring :=
  str "[" ++ t ++ str "](" ++ u ++ str ")".

(** What follows the opening bracket of a link. *)
Abbreviation linkBody t u := (t ++ 93%N :: 40%N :: u ++ [41%N]).

(** What the first pass of the shared module puts in the place of a link
    with the label [t] and the address [u], and what the first pass of the
    bun process does. *)
Abbreviation sharedLink :=
  (fun t u : jsstring =>
     let cleaned := Shared.normalizeWhitespace t in
     let normalizedUrl := if startsWith (str "//") u then str "https:" ++ u else u in
     let label := if truthy cleaned then cleaned else normalizedUrl in
     if truthy label then str "[" ++ label ++ str "](" ++ normalizedUrl ++ str ")"
     else []).
Abbreviation bunLink :=
  (fun t u : jsstring =>
     let cleaned := trim (replaceAll wsRunAt t) in
     if negb (truthy cleaned) then []
     else str "[" ++ cleaned ++ str "](" ++ u ++ str ")").

(** The matchers of the two passes of the shared module that remove
    [data:] links and images. *)
Abbreviation dataImages :=
  (fun (_ : option char) (s : jsstring) =>
     option_map (fun n => ([] : jsstring, n)) (dataImageAt s)).
Abbreviation dataLinks :=
  (fun (_ : option char) (s : jsstring) =>
     option_map (fun n => ([] : jsstring, n)) (dataLinkAt s)).

(** No link starts at an opening bracket that stands before [s]: the next
    closing bracket, if there is one, is not followed by an opening
    parenthesis. *)
Definition noLinkHere (s : jsstring) : bool :=
  match snd (span notRBracket s) with
  | _ :: c :: _ => negb (N.eqb c (chr "("))
  | _ => true
  end.






(** Texts in which every opening bracket either starts a link, with a label
    and an address that [label] and [address] accept, or starts none (its
    closing bracket is not followed by an opening parenthesis). *)
Inductive Linked (label address : jsstring -> bool) : jsstring -> Prop :=
| linked_nil : Linked label address []
| linked_char (c : char) (s : jsstring) :
    notLBracket c = true -> Linked label address s -> Linked label address (c :: s)
| linked_group (s : jsstring) :
    noLinkHere s = true -> Linked label address s ->
    Linked label address (chr "[" :: s)
| linked_link (t u s : jsstring) :
    label t = true -> address u = true -> Linked label address s ->
    Linked label address (link t u ++ s).


(** [a] is what is left of [b] after deleting some of its characters. *)
Inductive Subsequence : jsstring -> jsstring -> Prop :=
| sub_nil : Subsequence [] []
| sub_drop (c : char) (a b : jsstring) : Subsequence a b -> Subsequence a (c :: b)
| sub_keep (c : char) (a b : jsstring) : Subsequence a b -> Subsequence (c :: a) (c :: b).

(** The text has no opening angle bracket. *)
Definition noTag (s : jsstring) : bool := forallb (fun c => negb (N.eqb c 60)) s.

(** ** Tabs *)

(** The invariant of one tab: the cursor is an index of the history, or it
    is [-1] and the history is empty. *)
Definition tabInvariant (t : Bun.Tab.t) : Prop :=
  (-1 <= Bun.Tab.historyIndex t < Bun.len (Bun.Tab.history t))%Z /\
  (Bun.Tab.historyIndex t = (-1)%Z <-> Bun.Tab.history t = []).

(** Tab ids are pairwise distinct and below the next id to hand out. *)
Definition tabsInvariant (s : Bun.State) : Prop :=
  Forall tabInvariant (Bun.tabs s) /\
  NoDup (map Bun.Tab.id (Bun.tabs s)) /\
  Forall (fun t => (Bun.Tab.id t < Bun.nextTabId s)%Z) (Bun.tabs s).

(** [activeTabId] is the id of a tab of the session. *)
Definition activeInvariant (s : Bun.State) : Prop :=
  exists t, In t (Bun.tabs s) /\ Bun.Tab.id t = Bun.activeTabId s.

Definition sessionInvariant (s : Bun.State) : Prop :=
  tabsInvariant s /\ activeInvariant s.

(** The same invariants for the view shim, whose session starts without a
    tab: the cursor of every tab is an index of its history (or [-1] on an
    empty history), ids are pairwise distinct and below the next id, and
    once there is a tab [activeTabId] is the id of one. *)
Definition shimTabInvariant (t : Shim.ShimTab.t) : Prop :=
  (-1 <= Shim.ShimTab.historyIndex t < Bun.len (Shim.ShimTab.history t))%Z /\
  (Shim.ShimTab.historyIndex t = (-1)%Z <-> Shim.ShimTab.history t = []).

Definition shimTabsInvariant (s : Shim.State) : Prop :=
  Forall shimTabInvariant (Shim.tabs s) /\
  NoDup (map Shim.ShimTab.id (Shim.tabs s)) /\
  Forall (fun t => (Shim.ShimTab.id t < Shim.nextTabId s)%Z) (Shim.tabs s).

Definition shimActiveInvariant (s : Shim.State) : Prop :=
  Shim.tabs s <> [] ->
  exists t, In t (Shim.tabs s) /\ Shim.ShimTab.id t = Shim.activeTabId s.

Definition shimInvariant (s : Shim.State) : Prop :=
  shimTabsInvariant s /\ shimActiveInvariant s.

End Spec.

Import Spec.

(* ================================================================== *)
(** * Properties of the fetch pipeline *)
(* ================================================================== *)

Section FetchProperties.

Variable P : Platform.
Variable settings : BrowserSettings.t.

Lemma bind_Ok_inv {A B} (x : outcome A) (f : A -> outcome B) (b : B) :
  bind x f = Ok b -> exists a, x = Ok a /\ f a = Ok b.
Proof.
  destruct x as [a|m]; simpl; intros H; [exists a; auto | discriminate].
Qed.

Lemma jsstring_eqb_neq (a b : jsstring) : a <> b -> jsstring_eqb a b = false.
Proof.
  intros H. unfold jsstring_eqb. destruct (list_eq_dec N.eq_dec a b); congruence.
Qed.

Lemma jsstring_eqb_eq (a b : jsstring) : jsstring_eqb a b = true <-> a = b.
Proof.
  unfold jsstring_eqb. destruct (list_eq_dec N.eq_dec a b); split; congruence.
Qed.

Lemma includes_nonempty (p s : jsstring) :
  p <> [] -> includes p s = true -> s <> [].
Proof.
  intros Hp H ->. destruct p as [|a p]; [congruence|]. discriminate H.
Qed.

(** The content type of a response whose header includes a non-empty text is
    the header itself. *)
Lemma contentType_of_header (h : option jsstring) (ct pat : jsstring) :
  h = Some ct -> pat <> [] -> includes pat ct = true ->
  match h with Some ((_ :: _) as v) => v | _ => [] end = ct.
Proof.
  intros -> Hp H. pose proof (includes_nonempty Hp H) as Hne.
  destruct ct; congruence.
Qed.

Lemma processResponse_native (response : Response) (ct text h : jsstring) :
  contentTypeHeader response = Some ct ->
  includes (str "text/markdown") ct = true ->
  Bun.decodeResponseBody P response ct = Ok text ->
  hostname P (responseUrl response) = Ok h ->
  exists title,
    Bun.processResponse P settings response =
    Ok {| PageContent.url := responseUrl response;
          PageContent.markdown := text;
          PageContent.rawHtml := [];
          PageContent.title := title;
          PageContent.wasMarkdown := true |}.
Proof.
  intros Hh Hinc Hdec Hhost. unfold Bun.processResponse.
  rewrite (contentType_of_header (pat := str "text/markdown") Hh) by (auto; discriminate).
  rewrite Hdec. simpl bind. unfold Bun.isMarkdownResponse. rewrite Hinc. simpl orb.
  destruct (firstMatch Html.headingAt None text) as [t|].
  - exists t. reflexivity.
  - exists h. rewrite Hhost. reflexivity.
Qed.

(** C6.  A fetched response whose content type includes [text/markdown] is
    classified as native, and the body of the resulting document is the
    decoded response text, unchanged: in [fetchPage] of the bun process and in
    [shimFetchPage] of the view shim.  (The response is one the platform can
    decode and whose final URL it can parse.) *)
Theorem markdown_response_is_native :
  (forall (url ct text h : jsstring) (response : Response),
      url <> START_PAGE_URL ->
      contentTypeHeader response = Some ct ->
      includes (str "text/markdown") ct = true ->
      Bun.decodeResponseBody P response ct = Ok text ->
      hostname P (responseUrl response) = Ok h ->
      exists doc,
        Bun.fetchPage P settings (Ok response) url = Ok doc /\
        PageContent.wasMarkdown doc = true /\
        PageContent.markdown doc = text /\
        PageContent.rawHtml doc = []) /\
  (forall (url ct text h : jsstring) (response : Shim.ProxyResponse),
      url <> START_PAGE_URL ->
      Shim.contentTypeHeader response = Some ct ->
      includes (str "text/markdown") ct = true ->
      Shim.decodeArrayBuffer P (Shim.arrayBuffer response) ct = Ok text ->
      hostname P (match Shim.finalUrlHeader response with
                  | Some ((_ :: _) as v) => v
                  | _ => url
                  end) = Ok h ->
      exists doc,
        Shim.shimFetchPage P settings (Ok response) url = Ok doc /\
        PageContent.wasMarkdown doc = true /\
        PageContent.markdown doc = text /\
        PageContent.rawHtml doc = []).
Proof.
  split.
  - intros url ct text h response Hurl Hh Hinc Hdec Hhost.
    destruct (processResponse_native response Hh Hinc Hdec Hhost) as [title Hp].
    eexists. unfold Bun.fetchPage. rewrite (jsstring_eqb_neq Hurl).
    simpl bind. rewrite Hp. repeat split; reflexivity.
  - intros url ct text h response Hurl Hh Hinc Hdec Hhost.
    unfold Shim.shimFetchPage. rewrite (jsstring_eqb_neq Hurl). simpl bind.
    rewrite (contentType_of_header (pat := str "text/markdown") Hh) by (auto; discriminate).
    rewrite Hdec. simpl bind. unfold Bun.isMarkdownResponse. rewrite Hinc. simpl orb.
    destruct (firstMatch Html.headingAt None text) as [t|].
    + eexists. repeat split; reflexivity.
    + rewrite Hhost. eexists. repeat split; reflexivity.
Qed.

Lemma processResponse_native_raw (response : Response) (doc : PageContent.t) :
  Bun.processResponse P settings response = Ok doc ->
  PageContent.wasMarkdown doc = true -> PageContent.rawHtml doc = [].
Proof.
  unfold Bun.processResponse. intros H Hw.
  apply bind_Ok_inv in H as (text & _ & H).
  destruct (Bun.isMarkdownResponse _ text).
  - apply bind_Ok_inv in H as (title & _ & H). injection H as <-. reflexivity.
  - apply bind_Ok_inv in H as (title & _ & H).
    apply bind_Ok_inv in H as (md & _ & H). injection H as <-. discriminate Hw.
Qed.

(** C9.  Every document a completed fetch produces -- the start page, a
    native document, a document derived from markup, or the error document --
    has an empty [rawHtml] whenever [wasMarkdown] is true: in [fetchPage] of
    the bun process and in [shimFetchPage] of the view shim. *)
Theorem native_document_has_no_raw_html (url : jsstring) (doc : PageContent.t) :
  (exists fetched, Bun.fetchPage P settings fetched url = Ok doc) \/
  (exists fetched, Shim.shimFetchPage P settings fetched url = Ok doc) ->
  PageContent.wasMarkdown doc = true ->
  PageContent.rawHtml doc = [].
Proof.
  intros [[fetched H] | [fetched H]] Hw.
  - unfold Bun.fetchPage in H. destruct (jsstring_eqb url START_PAGE_URL).
    + destruct (BrowserSettings.sendAcceptMd settings).
      * injection H as <-. reflexivity.
      * apply bind_Ok_inv in H as (md & _ & H). injection H as <-. discriminate Hw.
    + destruct (bind fetched (Bun.processResponse P settings)) as [content|m] eqn:E.
      * injection H as <-. apply bind_Ok_inv in E as (response & _ & E).
        exact (processResponse_native_raw response E Hw).
      * injection H as <-. discriminate Hw.
  - unfold Shim.shimFetchPage in H. destruct (jsstring_eqb url START_PAGE_URL).
    + destruct (BrowserSettings.sendAcceptMd settings).
      * injection H as <-. reflexivity.
      * apply bind_Ok_inv in H as (md & _ & H). injection H as <-. discriminate Hw.
    + apply bind_Ok_inv in H as (response & _ & H).
      apply bind_Ok_inv in H as (text & _ & H).
      destruct (Bun.isMarkdownResponse _ text).
      * apply bind_Ok_inv in H as (title & _ & H). injection H as <-. reflexivity.
      * apply bind_Ok_inv in H as (title & _ & H).
        apply bind_Ok_inv in H as (md & _ & H). injection H as <-. discriminate Hw.
Qed.

End FetchProperties.

Lemma markdown_response_is_native_witness :
  exists doc,
    Bun.fetchPage Sample.platform Bun.settings0 (Ok Sample.markdownResponse)
                  (str "https://example.com/readme.md") = Ok doc /\
    PageContent.wasMarkdown doc = true /\
    PageContent.markdown doc = str "# Readme" /\
    PageContent.rawHtml doc = [].
Proof.
  apply (proj1 (markdown_response_is_native Sample.platform Bun.settings0))
    with (ct := str "text/markdown; charset=utf-8") (h := str "example.com");
    try reflexivity.
  discriminate.
Defined.

Lemma native_document_has_no_raw_html_witness :
  PageContent.rawHtml
    {| PageContent.url := str "https://example.com/readme.md";
       PageContent.markdown := str "# Readme";
       PageContent.rawHtml := [];
       PageContent.title := str "Readme";
       PageContent.wasMarkdown := true |} = [].
Proof.
  apply (native_document_has_no_raw_html Sample.platform Bun.settings0
           (str "https://example.com/readme.md")).
  - left. exists (Ok Sample.markdownResponse). vm_compute. reflexivity.
  - reflexivity.
Defined.

(* ================================================================== *)
(** * Facts about strings and scans *)
(* ================================================================== *)

Unset Implicit Arguments.

Section StringFacts.

Lemma span_app (p : char -> bool) (s : jsstring) :
  fst (span p s) ++ snd (span p s) = s.
Proof.
  induction s as [|c s IH]; simpl; [reflexivity|].
  destruct (p c); [|reflexivity].
  destruct (span p s) as [a b]. simpl in *. now rewrite IH.
Qed.

Lemma span_fst_all (p : char -> bool) (s : jsstring) :
  forallb p (fst (span p s)) = true.
Proof.
  induction s as [|c s IH]; simpl; [reflexivity|].
  destruct (p c) eqn:E; [|reflexivity].
  destruct (span p s) as [a b]. simpl in *. now rewrite E.
Qed.

Lemma span_snd_head (p : char -> bool) (s : jsstring) (c : char) (r : jsstring) :
  snd (span p s) = c :: r -> p c = false.
Proof.
  induction s as [|d s IH]; simpl; [discriminate|].
  destruct (p d) eqn:E.
  - destruct (span p s) as [a b]. simpl in *. exact IH.
  - simpl. intros H. injection H as -> ->. exact E.
Qed.

Lemma span_snd_dropWhile (p : char -> bool) (s : jsstring) :
  snd (span p s) = dropWhile p s.
Proof.
  induction s as [|c s IH]; simpl; [reflexivity|].
  destruct (p c); [|reflexivity].
  destruct (span p s) as [a b]. exact IH.
Qed.

Lemma span_all (p : char -> bool) (a b : jsstring) :
  forallb p a = true ->
  match b with c :: _ => p c = false | [] => True end ->
  span p (a ++ b) = (a, b).
Proof.
  intros Ha Hb. induction a as [|c a IH]; simpl in *.
  - destruct b as [|c b]; [reflexivity|]. simpl. now rewrite Hb.
  - apply andb_true_iff in Ha as [Hc Ha]. rewrite Hc, (IH Ha). reflexivity.
Qed.

Lemma dropWhile_all (p : char -> bool) (s : jsstring) :
  forallb p s = true -> dropWhile p s = [].
Proof.
  induction s as [|c s IH]; simpl; [reflexivity|].
  intros H. apply andb_true_iff in H as [Hc Hs]. now rewrite Hc, IH.
Qed.

Lemma dropWhile_nil (p : char -> bool) (s : jsstring) :
  dropWhile p s = [] -> forallb p s = true.
Proof.
  induction s as [|c s IH]; simpl; [reflexivity|].
  destruct (p c); [exact IH | discriminate].
Qed.

Lemma dropWhile_head (p : char -> bool) (s : jsstring) (c : char) (r : jsstring) :
  dropWhile p s = c :: r -> p c = false.
Proof.
  rewrite <- span_snd_dropWhile. apply span_snd_head.
Qed.

Lemma dropWhile_split (p : char -> bool) (s : jsstring) :
  exists pre, s = pre ++ dropWhile p s /\ forallb p pre = true.
Proof.
  exists (fst (span p s)). rewrite <- span_snd_dropWhile, span_app.
  split; [reflexivity | apply span_fst_all].
Qed.

Lemma dropWhile_id (p : char -> bool) (c : char) (s : jsstring) :
  p c = false -> dropWhile p (c :: s) = c :: s.
Proof. intros H. simpl. now rewrite H. Qed.

Lemma forallb_rev (p : char -> bool) (s : jsstring) :
  forallb p (rev s) = forallb p s.
Proof.
  induction s as [|c s IH]; simpl; [reflexivity|].
  rewrite forallb_app, IH. simpl. rewrite andb_true_r. apply andb_comm.
Qed.

(** [trimEnd] cuts a run of white space off the end. *)
Lemma trimEnd_split (s : jsstring) :
  exists post, s = trimEnd s ++ post /\ forallb isWhiteSpace post = true.
Proof.
  unfold trimEnd.
  destruct (dropWhile_split isWhiteSpace (rev s)) as (pre & E & Hpre).
  exists (rev pre). split.
  - rewrite <- rev_app_distr, <- E. symmetry. apply rev_involutive.
  - now rewrite forallb_rev.
Qed.

Lemma trimEnd_last (s u : jsstring) (c : char) :
  trimEnd s = u ++ [c] -> isWhiteSpace c = false.
Proof.
  unfold trimEnd. intros H.
  assert (E : dropWhile isWhiteSpace (rev s) = c :: rev u).
  { rewrite <- (rev_involutive (dropWhile _ _)), H, rev_app_distr. reflexivity. }
  exact (dropWhile_head _ _ _ _ E).
Qed.

Lemma trimEnd_id (s : jsstring) (c : char) :
  isWhiteSpace c = false -> trimEnd (s ++ [c]) = s ++ [c].
Proof.
  intros H. unfold trimEnd. rewrite rev_app_distr. simpl. rewrite H.
  simpl. now rewrite rev_involutive.
Qed.

Lemma trimEnd_nil : trimEnd [] = [].
Proof. reflexivity. Qed.

Lemma trimEnd_head (s : jsstring) (c : char) :
  isWhiteSpace c = false -> exists r, trimEnd (c :: s) = c :: r.
Proof.
  intros Hc. destruct (trimEnd_split (c :: s)) as (post & E & Hpost).
  destruct (trimEnd (c :: s)) as [|d r] eqn:T.
  - simpl in E. subst post. simpl in Hpost. rewrite Hc in Hpost. discriminate.
  - injection E as <- _. now exists r.
Qed.

Lemma trim_nil_iff (s : jsstring) :
  trim s = [] <-> forallb isWhiteSpace s = true.
Proof.
  unfold trim, trimStart. split.
  - intros H. destruct (dropWhile isWhiteSpace s) as [|c r] eqn:E.
    + now apply dropWhile_nil.
    + pose proof (dropWhile_head _ _ _ _ E) as Hc.
      destruct (trimEnd_head r c Hc) as [r' Hr]. congruence.
  - intros H. now rewrite (dropWhile_all _ _ H).
Qed.

(** [trim] leaves alone a string that neither starts nor ends with white
    space. *)
Lemma trim_id (c d : char) (s : jsstring) :
  isWhiteSpace c = false -> isWhiteSpace d = false ->
  trim (c :: s ++ [d]) = c :: s ++ [d].
Proof.
  intros Hc Hd. unfold trim, trimStart. rewrite (dropWhile_id _ _ _ Hc).
  exact (trimEnd_id (c :: s) d Hd).
Qed.

Lemma trim_split (s : jsstring) :
  exists pre post,
    s = pre ++ trim s ++ post /\
    forallb isWhiteSpace pre = true /\ forallb isWhiteSpace post = true.
Proof.
  unfold trim, trimStart.
  destruct (dropWhile_split isWhiteSpace s) as (pre & E & Hpre).
  destruct (trimEnd_split (dropWhile isWhiteSpace s)) as (post & E' & Hpost).
  exists pre, post. split; [|split]; auto. now rewrite <- E'.
Qed.

Lemma trim_idempotent (s : jsstring) : trim (trim s) = trim s.
Proof.
  destruct (trim s) as [|c r] eqn:E; [reflexivity|].
  assert (Hc : isWhiteSpace c = false).
  { unfold trim, trimStart in E.
    destruct (dropWhile isWhiteSpace s) as [|c' r'] eqn:D; [discriminate|].
    pose proof (dropWhile_head _ _ _ _ D) as Hc'.
    destruct (trimEnd_head r' c' Hc') as [r'' Hr]. congruence. }
  destruct (@exists_last _ (c :: r)) as (u & d & Eu); [discriminate|].
  assert (Hd : isWhiteSpace d = false).
  { unfold trim in E. apply (trimEnd_last (trimStart s) u d). congruence. }
  rewrite Eu. destruct u as [|c' u].
  - simpl in Eu. injection Eu as <- ->. unfold trim, trimStart. simpl.
    rewrite Hc. unfold trimEnd. simpl. now rewrite Hc.
  - injection Eu as <- ->. now apply trim_id.
Qed.

End StringFacts.

Section ScanFacts.

Lemma replaceFrom_no_match (m : matcher) (s : jsstring) :
  forall prev, matchesSomewhere m prev s = false -> replaceFrom m prev 0 s = s.
Proof.
  induction s as [|c s IH]; intros prev H; simpl in *.
  - destruct (m prev []); [discriminate | reflexivity].
  - destruct (m prev (c :: s)); [discriminate|]. now rewrite IH.
Qed.

Lemma replaceFrom_forallb (m : matcher) (p : char -> bool) :
  (forall prev t r n, m prev t = Some (r, n) -> forallb p r = true) ->
  forall s prev k, forallb p s = true -> forallb p (replaceFrom m prev k s) = true.
Proof.
  intros Hm. induction s as [|c s IH]; intros prev k Hs.
  - destruct k; simpl; [|reflexivity].
    destruct (m prev []) as [[r [|n]]|] eqn:E; [| |reflexivity];
      rewrite app_nil_r; exact (Hm _ _ _ _ E).
  - simpl in Hs. apply andb_true_iff in Hs as [Hc Hs].
    destruct k; simpl; [|now apply IH].
    destruct (m prev (c :: s)) as [[r [|n]]|] eqn:E.
    + rewrite forallb_app, (Hm _ _ _ _ E). simpl. now rewrite Hc, IH.
    + rewrite forallb_app, (Hm _ _ _ _ E). simpl. now apply IH.
    + simpl. now rewrite Hc, IH.
Qed.

Lemma wsRunAt_Some (prev : option char) (s r : jsstring) (n : nat) :
  wsRunAt prev s = Some (r, n) ->
  r = [chr " "] /\ n = length (fst (span isWhiteSpace s)) /\ (1 <= n)%nat.
Proof.
  unfold wsRunAt. destruct (span isWhiteSpace s) as [[|c w] b]; [discriminate|].
  intros H. injection H as <- <-. simpl. repeat split. lia.
Qed.

Lemma wsRunAt_None (prev : option char) (c : char) (s : jsstring) :
  wsRunAt prev (c :: s) = None -> isWhiteSpace c = false.
Proof.
  unfold wsRunAt. simpl. destruct (isWhiteSpace c); [|reflexivity].
  destruct (span isWhiteSpace s). discriminate.
Qed.

Lemma span_fst_length_le (p : char -> bool) (s : jsstring) :
  (length (fst (span p s)) <= length s)%nat.
Proof.
  rewrite <- (span_app p s) at 2. rewrite length_app. lia.
Qed.

Lemma span_fst_firstn (p : char -> bool) (s : jsstring) :
  firstn (length (fst (span p s))) s = fst (span p s).
Proof.
  rewrite <- (span_app p s) at 2. rewrite firstn_app, Nat.sub_diag. simpl.
  now rewrite firstn_all, app_nil_r.
Qed.

(** What is left of a string that [/\s+/g] turned into white space only was
    white space only. *)
Lemma collapse_ws_all (s : jsstring) :
  forall prev k,
    (k <= length s)%nat ->
    forallb isWhiteSpace (firstn k s) = true ->
    forallb isWhiteSpace (replaceFrom wsRunAt prev k s) = true ->
    forallb isWhiteSpace s = true.
Proof.
  induction s as [|c s IH]; intros prev k Hk Hf Ho; [reflexivity|].
  destruct k as [|k].
  - simpl in Ho. destruct (wsRunAt prev (c :: s)) as [[r n]|] eqn:E.
    + destruct (wsRunAt_Some _ _ _ _ E) as (-> & Hn & Hpos).
      pose proof (span_fst_length_le isWhiteSpace (c :: s)) as Hle.
      pose proof (span_fst_all isWhiteSpace (c :: s)) as Hall.
      rewrite <- span_fst_firstn, <- Hn in Hall. rewrite <- Hn in Hle.
      destruct n as [|n]; [lia|]. simpl in Ho, Hall, Hle.
      apply andb_true_iff in Hall as [Hc Hall]. simpl. rewrite Hc.
      apply (IH (Some c) n); [lia | exact Hall | exact Ho].
    + pose proof (wsRunAt_None _ _ _ E) as Hc. simpl in Ho. now rewrite Hc in Ho.
  - simpl in *. apply andb_true_iff in Hf as [Hc Hf]. rewrite Hc.
    apply (IH (Some c) k); [lia | exact Hf | exact Ho].
Qed.

Lemma replaceFrom_ws_all (s : jsstring) :
  forall prev k,
    forallb isWhiteSpace s = true ->
    forallb isWhiteSpace (replaceFrom wsRunAt prev k s) = true.
Proof.
  intros prev k. apply replaceFrom_forallb.
  intros prev' t r n E. now destruct (wsRunAt_Some _ _ _ _ E) as (-> & _).
Qed.

(** A text normalizes to the empty string exactly when it has nothing but
    white space, which is when [trim] makes it empty. *)
Lemma normalizeWhitespace_nil_iff (s : jsstring) :
  Re.normalizeWhitespace s = [] <-> trim s = [].
Proof.
  unfold Re.normalizeWhitespace, replaceAll. rewrite !trim_nil_iff. split.
  - apply (collapse_ws_all s None 0); [lia | reflexivity].
  - apply replaceFrom_ws_all.
Qed.

End ScanFacts.

(* ================================================================== *)
(** * Properties of the converter rules *)
(* ================================================================== *)

Section ConverterProperties.

Lemma jsstring_eqb_refl (a : jsstring) : jsstring_eqb a a = true.
Proof. now apply jsstring_eqb_eq. Qed.

Lemma moveToFront_head (r : rule) (array : list rule) :
  moveToFront (key r) (r :: array) = r :: array.
Proof.
  unfold moveToFront. simpl. now rewrite jsstring_eqb_refl.
Qed.

Lemma shared_rules (gfm : list rule) :
  Shared.createTurndownService gfm =
  Shared.preserveBlankLinks :: Shared.ignoreLayoutTables :: gfm.
Proof.
  unfold Shared.createTurndownService, addRule.
  pose proof (moveToFront_head Shared.ignoreLayoutTables gfm) as H.
  change (key Shared.ignoreLayoutTables) with (str "ignoreLayoutTables") in H.
  now rewrite H.
Qed.

Lemma bun_rules (gfm : list rule) :
  Bun.rulesArray gfm = Bun.removeBlankLinks :: Bun.ignoreLayoutTables :: gfm.
Proof.
  unfold Bun.rulesArray, addRule.
  pose proof (moveToFront_head Bun.ignoreLayoutTables gfm) as H.
  change (key Bun.ignoreLayoutTables) with (str "ignoreLayoutTables") in H.
  now rewrite H.
Qed.

Lemma truthy_false (s : jsstring) : truthy s = false <-> s = [].
Proof. destruct s; simpl; split; congruence. Qed.

Lemma truthy_true (s : jsstring) : truthy s = true <-> s <> [].
Proof. destruct s; simpl; split; congruence. Qed.

Lemma attrOrEmpty_Some (n : node) (name v : jsstring) :
  getAttribute name n = Some v -> Shared.attrOrEmpty name n = v.
Proof. unfold Shared.attrOrEmpty. now intros ->. Qed.

Lemma getLinkLabel_blank (n : node) (href : jsstring) :
  Re.normalizeWhitespace (textContent n) = [] ->
  (if truthy (Shared.getLinkLabel n) then Shared.getLinkLabel n else href) =
  resolvedLabel n href.
Proof.
  intros Ht. unfold Shared.getLinkLabel, Shared.normalizeWhitespace, resolvedLabel,
    ariaLabelOf, titleOf, imgAltOf.
  rewrite Ht. simpl truthy. cbv iota.
  destruct (truthy (Re.normalizeWhitespace (Shared.attrOrEmpty (str "aria-label") n))) eqn:Ea;
    [now rewrite Ea|].
  destruct (truthy (Re.normalizeWhitespace (Shared.attrOrEmpty (str "title") n))) eqn:Eb;
    [now rewrite Eb|].
  match goal with
  | |- context [truthy (Re.normalizeWhitespace ?x)] =>
      destruct (truthy (Re.normalizeWhitespace x)) eqn:Ec
  end; [now rewrite Ec | reflexivity].
Qed.

(** C2, as the code has it.  For an anchor with an [href] attribute whose
    text is empty after white-space normalization:
    - the shared converter ([createTurndownService]) hands it to
      [preserveBlankLinks]; when the trimmed [href] is not empty the rule
      emits the link [[label](href)], the label being the first non-empty one
      of the normalized [aria-label], the normalized [title], the normalized
      [alt] of the first contained image that has one, and else the trimmed
      [href]; when the trimmed [href] is empty the rule emits the label
      alone;
    - the converter of the bun process (and of the view shim) hands it to
      [removeBlankLinks], which emits nothing. *)
Theorem blank_link_label (gfm : list rule) (n : node) (content href : jsstring) :
  nodeName n = str "A" ->
  getAttribute (str "href") n = Some href ->
  Re.normalizeWhitespace (textContent n) = [] ->
  (forNode (Shared.createTurndownService gfm) n = Some Shared.preserveBlankLinks /\
   (trim href <> [] ->
    replacement Shared.preserveBlankLinks content n =
    str "[" ++ resolvedLabel n (trim href) ++ str "](" ++ trim href ++ str ")") /\
   (trim href = [] ->
    replacement Shared.preserveBlankLinks content n = resolvedLabel n [])) /\
  (forNode (Bun.rulesArray gfm) n = Some Bun.removeBlankLinks /\
   replacement Bun.removeBlankLinks content n = []).
Proof.
  intros Hname Hhref Htext. split; [split; [|split] | split].
  - rewrite shared_rules. unfold forNode.
    cbn [find filter Shared.preserveBlankLinks].
    unfold Shared.normalizeWhitespace.
    now rewrite Hname, Hhref, Htext, !jsstring_eqb_refl.
  - intros Hne. cbn [replacement Shared.preserveBlankLinks].
    rewrite !(attrOrEmpty_Some n (str "href") href Hhref).
    rewrite (getLinkLabel_blank n (trim href) Htext).
    apply truthy_true in Hne. now rewrite Hne.
  - intros He. cbn [replacement Shared.preserveBlankLinks].
    rewrite !(attrOrEmpty_Some n (str "href") href Hhref).
    rewrite (getLinkLabel_blank n (trim href) Htext). now rewrite He.
  - rewrite bun_rules. unfold forNode.
    cbn [find filter Bun.removeBlankLinks].
    apply (proj1 (normalizeWhitespace_nil_iff (textContent n))) in Htext.
    now rewrite Hname, Hhref, Htext, !jsstring_eqb_refl.
  - reflexivity.
Qed.

(** C7, as the code has it.  For a table without header cells:
    - in the shared converter the first rule that accepts it is
      [ignoreLayoutTables], whatever rules the table extension registered, and
      the rule emits the converted content between two blank lines;
    - in the converter of the bun process (and of the view shim) this holds
      only if the table contains another table; if it does not, the custom
      rules pass and the lookup is that of the extension's rules. *)
Theorem layout_table_rule (gfm : list rule) (n : node) (content : jsstring) :
  nodeName n = str "TABLE" ->
  querySelectorAll (Tag (str "TH")) n = [] ->
  (forNode (Shared.createTurndownService gfm) n = Some Shared.ignoreLayoutTables /\
   replacement Shared.ignoreLayoutTables content n =
   [10; 10]%N ++ content ++ [10; 10]%N) /\
  (querySelector (Tag (str "TABLE")) n <> None ->
   forNode (Bun.rulesArray gfm) n = Some Bun.ignoreLayoutTables /\
   replacement Bun.ignoreLayoutTables content n =
   [10; 10]%N ++ content ++ [10; 10]%N) /\
  (querySelector (Tag (str "TABLE")) n = None ->
   forNode (Bun.rulesArray gfm) n = forNode gfm n).
Proof.
  intros Hname Hth. split; [split | split].
  - rewrite shared_rules. unfold forNode.
    cbn [find filter Shared.preserveBlankLinks Shared.ignoreLayoutTables].
    rewrite Hname, Hth, jsstring_eqb_refl.
    rewrite (jsstring_eqb_neq (a := str "TABLE") (b := str "A")) by discriminate.
    reflexivity.
  - reflexivity.
  - intros Hnested. split; [|reflexivity].
    rewrite bun_rules. unfold forNode.
    cbn [find filter Bun.removeBlankLinks Bun.ignoreLayoutTables].
    rewrite Hname, Hth, jsstring_eqb_refl.
    rewrite (jsstring_eqb_neq (a := str "TABLE") (b := str "A")) by discriminate.
    destruct (querySelector (Tag (str "TABLE")) n); [reflexivity | congruence].
  - intros Hnested. rewrite bun_rules. unfold forNode.
    cbn [find filter Bun.removeBlankLinks Bun.ignoreLayoutTables].
    rewrite Hname, Hth, Hnested, jsstring_eqb_refl.
    rewrite (jsstring_eqb_neq (a := str "TABLE") (b := str "A")) by discriminate.
    reflexivity.
Qed.

End ConverterProperties.

Lemma blank_link_label_witness :
  forNode (Shared.createTurndownService Sample.gfm) Sample.anchorAria =
    Some Shared.preserveBlankLinks /\
  replacement Shared.preserveBlankLinks [] Sample.anchorAria =
    str "[Example](https://example.com)".
Proof.
  destruct (blank_link_label Sample.gfm Sample.anchorAria []
              (str "https://example.com") eq_refl eq_refl eq_refl)
    as [[H1 [H2 _]] _].
  split; [exact H1|]. rewrite H2; [reflexivity | discriminate].
Defined.

(** C2 as stated fails: an anchor that carries an [href] attribute with an
    empty value and has no text is matched by [preserveBlankLinks] of the
    shared converter, which emits nothing for it; and the converter of the bun
    process emits nothing for an anchor that has an address and an accessible
    name. *)
Lemma blank_link_counterexample :
  (nodeName Sample.anchorEmptyHref = str "A" /\
   getAttribute (str "href") Sample.anchorEmptyHref = Some [] /\
   Re.normalizeWhitespace (textContent Sample.anchorEmptyHref) = [] /\
   option_map key (forNode (Shared.createTurndownService Sample.gfm)
                           Sample.anchorEmptyHref) =
     Some (str "preserveBlankLinks") /\
   replacement Shared.preserveBlankLinks [] Sample.anchorEmptyHref = []) /\
  (getAttribute (str "href") Sample.anchorAria = Some (str "https://example.com") /\
   getAttribute (str "aria-label") Sample.anchorAria = Some (str "Example") /\
   option_map key (forNode (Bun.rulesArray Sample.gfm) Sample.anchorAria) =
     Some (str "removeBlankLinks") /\
   replacement Bun.removeBlankLinks [] Sample.anchorAria = []).
Proof. vm_compute. repeat split. Qed.

Lemma layout_table_rule_witness :
  forNode (Shared.createTurndownService Sample.gfm) Sample.plainTable =
    Some Shared.ignoreLayoutTables /\
  replacement Shared.ignoreLayoutTables (str "x") Sample.plainTable =
    [10; 10; 120; 10; 10]%N /\
  forNode (Bun.rulesArray Sample.gfm) Sample.plainTable = Some Sample.tableRule.
Proof.
  destruct (layout_table_rule Sample.gfm Sample.plainTable (str "x") eq_refl eq_refl)
    as [[H1 H2] [_ H3]].
  split; [exact H1 | split; [exact H2 | ]].
  rewrite (H3 eq_refl). reflexivity.
Defined.

(** C7 as stated fails in the bun process: a table without header cells
    that contains no other table is not accepted by its [ignoreLayoutTables],
    and is converted by the table rule of the extension. *)
Lemma layout_table_counterexample :
  nodeName Sample.plainTable = str "TABLE" /\
  querySelectorAll (Tag (str "TH")) Sample.plainTable = [] /\
  filter Bun.ignoreLayoutTables Sample.plainTable = false /\
  option_map key (forNode (Bun.rulesArray Sample.gfm) Sample.plainTable) =
    Some (str "table").
Proof. vm_compute. repeat split. Qed.

(* ================================================================== *)
(** * Properties of URL normalization *)
(* ================================================================== *)

Section UrlProperties.

Local Open Scope N_scope.

Lemma isWhiteSpace_spec (c : N) :
  isWhiteSpace c = true <->
  c = 9 \/ c = 10 \/ c = 11 \/ c = 12 \/ c = 13 \/ c = 32 \/ c = 160 \/
  c = 5760 \/ (8192 <= c <= 8202) \/ c = 8232 \/ c = 8233 \/ c = 8239 \/
  c = 8287 \/ c = 12288 \/ c = 65279.
Proof.
  unfold isWhiteSpace, isLineTerminator.
  rewrite !orb_true_iff, !andb_true_iff, !N.eqb_eq, !N.leb_le. lia.
Qed.

Lemma isLineTerminator_spec (c : N) :
  isLineTerminator c = true <-> c = 10 \/ c = 13 \/ c = 8232 \/ c = 8233.
Proof.
  unfold isLineTerminator. rewrite !orb_true_iff, !N.eqb_eq. lia.
Qed.

Lemma isDigit_spec (c : N) : isDigit c = true <-> 48 <= c <= 57.
Proof.
  unfold isDigit. rewrite andb_true_iff, !N.leb_le. lia.
Qed.

Lemma lineTerminator_isWhiteSpace (c : N) :
  isLineTerminator c = true -> isWhiteSpace c = true.
Proof.
  rewrite isLineTerminator_spec, isWhiteSpace_spec. lia.
Qed.


Lemma uriUnreserved_not_whiteSpace (c : N) :
  uriUnreserved c = true -> isWhiteSpace c = false.
Proof.
  unfold uriUnreserved.
  rewrite !orb_true_iff, !andb_true_iff, isDigit_spec, !N.eqb_eq, !N.leb_le.
  intros H. destruct (isWhiteSpace c) eqn:E; [|reflexivity].
  apply isWhiteSpace_spec in E. exfalso. lia.
Qed.

Lemma hexDigit_not_whiteSpace (n : N) : isWhiteSpace (hexDigit n) = false.
Proof.
  unfold hexDigit. cbv zeta. pose proof (N.mod_lt n 16 ltac:(lia)) as H.
  destruct (n mod 16 <? 10) eqn:D;
    [apply N.ltb_lt in D | apply N.ltb_ge in D];
    (destruct (isWhiteSpace _) eqn:E; [|reflexivity]);
    apply isWhiteSpace_spec in E; exfalso;
    generalize dependent (n mod 16); intros; lia.
Qed.

Lemma percentEncode_noWhiteSpace (octet : N) :
  noWhiteSpace (percentEncode octet) = true.
Proof.
  unfold noWhiteSpace, percentEncode. simpl.
  now rewrite !hexDigit_not_whiteSpace.
Qed.

Lemma percentEncode_utf8_noWhiteSpace (cp : N) :
  noWhiteSpace (concat (map percentEncode (utf8 cp))) = true.
Proof.
  unfold noWhiteSpace. apply forallb_forall. intros c Hc.
  apply in_concat in Hc as (l & Hl & Hc). apply in_map_iff in Hl as (o & <- & _).
  pose proof (percentEncode_noWhiteSpace o) as H. unfold noWhiteSpace in H.
  rewrite forallb_forall in H. now apply H.
Qed.

Lemma encodeURIComponent_noWhiteSpace (n : nat) :
  forall s q, (length s <= n)%nat ->
    encodeURIComponent s = Ok q -> noWhiteSpace q = true.
Proof.
  induction n as [|n IH]; intros s q Hlen H.
  - destruct s; [|simpl in Hlen; lia]. injection H as <-. reflexivity.
  - destruct s as [|c r]; [injection H as <-; reflexivity|].
    simpl in Hlen. simpl in H.
    destruct (uriUnreserved c) eqn:U.
    + apply bind_Ok_inv in H as (e & He & H). injection H as <-.
      unfold noWhiteSpace. simpl. rewrite (uriUnreserved_not_whiteSpace c U). simpl.
      apply (IH r e); [lia | exact He].
    + destruct (isLowSurrogate c); [discriminate|].
      destruct (isHighSurrogate c).
      * destruct r as [|d r2]; [discriminate|].
        destruct (isLowSurrogate d); [|discriminate].
        apply bind_Ok_inv in H as (e & He & H). injection H as <-.
        unfold noWhiteSpace. rewrite forallb_app.
        fold (noWhiteSpace (concat (map percentEncode
               (utf8 ((c - 55296) * 1024 + (d - 56320) + 65536))))).
        rewrite percentEncode_utf8_noWhiteSpace. simpl.
        apply (IH r2 e); [simpl in Hlen; lia | exact He].
      * apply bind_Ok_inv in H as (e & He & H). injection H as <-.
        unfold noWhiteSpace. rewrite forallb_app.
        fold (noWhiteSpace (concat (map percentEncode (utf8 c)))).
        rewrite percentEncode_utf8_noWhiteSpace. simpl.
        apply (IH r e); [lia | exact He].
Qed.

(** What [trim] produces, when it is not empty, starts and ends with a
    character that is not white space. *)
Lemma trim_ends (s : jsstring) :
  trim s <> [] ->
  isWhiteSpace (hd 0 (trim s)) = false /\ isWhiteSpace (last (trim s) 0) = false.
Proof.
  intros Hne. unfold trim, trimStart in *.
  destruct (dropWhile isWhiteSpace s) as [|c r] eqn:D; [now elim Hne|].
  pose proof (dropWhile_head _ _ _ _ D) as Hc.
  destruct (trimEnd_head r c Hc) as [r' Hr]. rewrite Hr. split; [exact Hc|].
  destruct (@exists_last _ (c :: r')) as (u & d & Eu); [discriminate|].
  rewrite Eu, last_last. apply (trimEnd_last (c :: r) u d). congruence.
Qed.

Lemma trim_fixed (r : jsstring) :
  r <> [] -> isWhiteSpace (hd 0 r) = false -> isWhiteSpace (last r 0) = false ->
  trim r = r.
Proof.
  intros Hne Hh Hl.
  destruct (@exists_last _ r Hne) as (u & d & ->). rewrite last_last in Hl.
  destruct u as [|c u]; simpl in Hh.
  - unfold trim, trimStart. simpl. rewrite Hl. unfold trimEnd. simpl. now rewrite Hl.
  - now apply trim_id.
Qed.

Lemma last_app_nonempty (a b : jsstring) (d : char) :
  b <> [] -> last (a ++ b) d = last b d.
Proof.
  intros Hb. destruct (@exists_last _ b Hb) as (u & e & ->).
  now rewrite app_assoc, !last_last.
Qed.

Lemma noWhiteSpace_last (c : char) (s : jsstring) :
  isWhiteSpace c = false -> noWhiteSpace s = true ->
  isWhiteSpace (last (c :: s) 0) = false.
Proof.
  revert c. induction s as [|d s IH]; intros c Hc Hs; [exact Hc|].
  unfold noWhiteSpace in Hs. simpl in Hs. apply andb_true_iff in Hs as [Hd Hs].
  apply negb_true_iff in Hd.
  change (last (c :: d :: s) 0) with (last (d :: s) 0). now apply IH.
Qed.

Lemma bun_normalizeUrl_trim (s : jsstring) :
  Bun.normalizeUrl (trim s) = Bun.normalizeUrl s.
Proof. unfold Bun.normalizeUrl. now rewrite trim_idempotent. Qed.

Lemma shim_normalizeUrl_trim (s : jsstring) :
  Shim.normalizeUrl (trim s) = Shim.normalizeUrl s.
Proof. unfold Shim.normalizeUrl. now rewrite trim_idempotent. Qed.

(** A string that begins with the [https] scheme and neither starts nor ends
    with white space is returned as it is. *)
Lemma bun_normalizeUrl_https (u : jsstring) :
  isWhiteSpace (last (str "https://" ++ u) 0) = false ->
  Bun.normalizeUrl (str "https://" ++ u) = Ok (str "https://" ++ u).
Proof.
  intros Hl. unfold Bun.normalizeUrl.
  rewrite (trim_fixed (str "https://" ++ u)); [reflexivity | discriminate | reflexivity | exact Hl].
Qed.

Lemma shim_normalizeUrl_https (u : jsstring) :
  isWhiteSpace (last (str "https://" ++ u) 0) = false ->
  Shim.normalizeUrl (str "https://" ++ u) = str "https://" ++ u.
Proof.
  intros Hl. unfold Shim.normalizeUrl.
  rewrite (trim_fixed (str "https://" ++ u)); [reflexivity | discriminate | reflexivity | exact Hl].
Qed.

Lemma bun_normalizeUrl_search (q : jsstring) :
  noWhiteSpace q = true ->
  Bun.normalizeUrl (str "https://duckduckgo.com/?q=" ++ q) =
  Ok (str "https://duckduckgo.com/?q=" ++ q).
Proof.
  intros Hq.
  apply (bun_normalizeUrl_https (str "duckduckgo.com/?q=" ++ q)).
  apply (noWhiteSpace_last 104 (str "ttps://duckduckgo.com/?q=" ++ q)); [reflexivity|].
  unfold noWhiteSpace. rewrite forallb_app. fold (noWhiteSpace q). rewrite Hq.
  reflexivity.
Qed.

Lemma unreserved_not_surrogate (c : N) :
  uriUnreserved c = true -> isLowSurrogate c = false /\ isHighSurrogate c = false.
Proof.
  unfold uriUnreserved, isLowSurrogate, isHighSurrogate.
  rewrite !orb_true_iff, !andb_true_iff, isDigit_spec, !N.eqb_eq, !N.leb_le.
  intros H. split; apply andb_false_iff; rewrite !N.leb_gt; lia.
Qed.

(** [encodeURIComponent] throws, and then a URIError, exactly on a string
    with a lone surrogate. *)
Lemma encodeURIComponent_loneSurrogate (n : nat) :
  forall s, (length s <= n)%nat ->
    if loneSurrogate s then encodeURIComponent s = Throw URIError
    else exists q, encodeURIComponent s = Ok q.
Proof.
  induction n as [|n IH]; intros s Hlen.
  - destruct s; [|simpl in Hlen; lia]. simpl. now exists [].
  - destruct s as [|c r]; [simpl; now exists []|].
    simpl in Hlen. cbn [loneSurrogate encodeURIComponent].
    destruct (uriUnreserved c) eqn:U.
    + destruct (unreserved_not_surrogate c U) as [-> ->].
      specialize (IH r ltac:(lia)). destruct (loneSurrogate r).
      * now rewrite IH.
      * destruct IH as [q ->]. now exists (c :: q).
    + destruct (isLowSurrogate c); [reflexivity|].
      destruct (isHighSurrogate c).
      * destruct r as [|d r2]; [reflexivity|].
        destruct (isLowSurrogate d); [|reflexivity].
        specialize (IH r2 ltac:(simpl in Hlen; lia)). destruct (loneSurrogate r2).
        -- now rewrite IH.
        -- destruct IH as [q ->]. eexists. reflexivity.
      * specialize (IH r ltac:(lia)). destruct (loneSurrogate r).
        -- now rewrite IH.
        -- destruct IH as [q ->]. eexists. reflexivity.
Qed.

(** A literal whose characters case folding leaves alone is found without
    regard to case wherever it is found as it stands. *)
Lemma stripPrefix_CI (p : jsstring) :
  forallb (fun a => foldCase a =? a) p = true ->
  forall s r, stripPrefix p s = Some r -> stripPrefixCI p s = Some r.
Proof.
  induction p as [|a p IH]; intros Hp s r H; [exact H|].
  cbn [forallb] in Hp. apply andb_true_iff in Hp as [Ha Hp]. apply N.eqb_eq in Ha.
  destruct s as [|b s]; [discriminate H|]. cbn [stripPrefix stripPrefixCI] in *.
  destruct (N.eqb_spec a b) as [<-|]; [|discriminate H].
  rewrite Ha, N.eqb_refl. now apply IH.
Qed.

Lemma looksLikeUrl_starts (u : jsstring) :
  startsWith (str "http://") u || startsWith (str "https://") u = true ->
  Bun.looksLikeUrl u = true.
Proof.
  unfold Bun.looksLikeUrl, startsWith. intros H.
  apply orb_true_iff in H as [H|H].
  - destruct (stripPrefix (str "http://") u) as [r|] eqn:E; [|discriminate H].
    now rewrite (stripPrefix_CI (str "http://") eq_refl u r E).
  - destruct (stripPrefix (str "https://") u) as [r|] eqn:E; [|discriminate H].
    rewrite (stripPrefix_CI (str "https://") eq_refl u r E).
    now destruct (stripPrefixCI (str "http://") u).
Qed.

(** C10.  [normalizeUrl] returns a fixed point of itself whenever it returns:
    in the view shim on every input, in the bun process on every input but
    free text with a lone surrogate, on which [encodeURIComponent], and so
    [normalizeUrl], throws a URIError.  Free text becomes, in the bun
    process, the search address followed by the percent-encoded text, and in
    the view shim the text behind [https://]. *)
Theorem normalizeUrl_idempotent (s : jsstring) :
  (if freeText s && loneSurrogate (trim s)
   then Bun.normalizeUrl s = Throw URIError
   else exists r,
          Bun.normalizeUrl s = Ok r /\ Bun.normalizeUrl r = Ok r /\
          (freeText s = true ->
           exists q, encodeURIComponent (trim s) = Ok q /\
                     r = str "https://duckduckgo.com/?q=" ++ q)) /\
  Shim.normalizeUrl (Shim.normalizeUrl s) = Shim.normalizeUrl s /\
  (freeText s = true -> Shim.normalizeUrl s = str "https://" ++ trim s).
Proof.
  split; [|split].
  - unfold freeText. cbv zeta.
    pose proof (bun_normalizeUrl_trim s) as Ht.
    remember (Bun.normalizeUrl s) as res eqn:Hs. unfold Bun.normalizeUrl in Hs.
    destruct (truthy (trim s)) eqn:T; cbn [negb andb] in *.
    2:{ exists []. split; [exact Hs|]. split; [reflexivity | discriminate]. }
    assert (Hne : trim s <> []) by now apply truthy_true.
    destruct (trim_ends s Hne) as [Hh Hl].
    destruct (startsWith (str "mdbrowse://") (trim s)) eqn:M; cbn [negb andb] in *.
    { exists (trim s). split; [exact Hs|]. split; [congruence | discriminate]. }
    destruct (Bun.looksLikeUrl (trim s)) eqn:L; cbn [negb andb] in *.
    { exists (trim s). split; [exact Hs|]. split; [congruence | discriminate]. }
    destruct (includes (str ".") (trim s) && negb (includes (str " ") (trim s)));
      cbn [negb andb] in *.
    { exists (str "https://" ++ trim s). split; [exact Hs|].
      split; [|discriminate]. apply bun_normalizeUrl_https.
      now rewrite (last_app_nonempty (str "https://") (trim s) 0 Hne). }
    pose proof (encodeURIComponent_loneSurrogate (length (trim s)) (trim s) (le_n _))
      as He.
    destruct (loneSurrogate (trim s)).
    + now rewrite He in Hs.
    + destruct He as [q He]. rewrite He in Hs. cbn [bind] in Hs.
      exists (str "https://duckduckgo.com/?q=" ++ q). split; [exact Hs|]. split.
      * apply bun_normalizeUrl_search.
        exact (encodeURIComponent_noWhiteSpace (length (trim s)) (trim s) q (le_n _) He).
      * intros _. exists q. split; [exact He | reflexivity].
  - rewrite <- (shim_normalizeUrl_trim s) at 1.
    unfold Shim.normalizeUrl at 2 3. rewrite trim_idempotent.
    destruct (truthy (trim s)) eqn:T; [|reflexivity]. simpl negb. cbv iota.
    assert (Hne : trim s <> []) by now apply truthy_true.
    destruct (trim_ends s Hne) as [Hh Hl].
    destruct (startsWith (str "mdbrowse://") (trim s)) eqn:M.
    { unfold Shim.normalizeUrl. rewrite trim_idempotent, T, M. reflexivity. }
    destruct (startsWith (str "http://") (trim s) || startsWith (str "https://") (trim s)) eqn:L.
    { unfold Shim.normalizeUrl. rewrite trim_idempotent, T, M, L. reflexivity. }
    assert (H : Shim.normalizeUrl (str "https://" ++ trim s) = str "https://" ++ trim s).
    { apply shim_normalizeUrl_https.
      now rewrite (last_app_nonempty (str "https://") (trim s) 0 Hne). }
    destruct (includes (str ".") (trim s) && negb (includes (str " ") (trim s))); exact H.
  - unfold freeText, Shim.normalizeUrl. cbv zeta. intros H.
    apply andb_true_iff in H as [H _]. apply andb_true_iff in H as [H L].
    apply andb_true_iff in H as [T M].
    apply negb_true_iff in M. apply negb_true_iff in L. rewrite T, M. cbn [negb].
    destruct (startsWith (str "http://") (trim s) || startsWith (str "https://") (trim s))
      eqn:S.
    { apply looksLikeUrl_starts in S. congruence. }
    now destruct (includes (str ".") (trim s) && negb (includes (str " ") (trim s))).
Qed.

End UrlProperties.

Lemma normalizeUrl_lone_surrogate_counterexample :
  freeText (str "a" ++ [55296%N]) = true /\
  Bun.normalizeUrl (str "a" ++ [55296%N]) = Throw URIError /\
  Shim.normalizeUrl (str "a" ++ [55296%N]) = str "https://a" ++ [55296%N].
Proof. vm_compute. repeat split. Qed.

(* ================================================================== *)
(** * Properties of the tab and navigation state of the bun process *)
(* ================================================================== *)

Section SessionProperties.

Local Open Scope Z_scope.

Lemma len_nil_iff {A} (l : list A) : Bun.len l = 0 <-> l = [].
Proof.
  unfold Bun.len. destruct l; simpl; split; try congruence; lia.
Qed.

Lemma len_nonneg {A} (l : list A) : 0 <= Bun.len l.
Proof. unfold Bun.len. lia. Qed.

Lemma len_app1 {A} (l : list A) (x : A) : Bun.len (l ++ [x]) = Bun.len l + 1.
Proof. unfold Bun.len. rewrite length_app. simpl. lia. Qed.

Lemma tabInvariant_intro (history : list jsstring) (i : Z) (t : Bun.Tab.t) :
  Bun.Tab.history t = history -> Bun.Tab.historyIndex t = i ->
  (history = [] /\ i = -1) \/ (0 <= i < Bun.len history) ->
  tabInvariant t.
Proof.
  intros Hh Hi H. unfold tabInvariant. rewrite Hh, Hi.
  destruct H as [[-> ->] | H].
  - cbn. split; [lia | tauto].
  - split; [lia|]. split; [lia|]. intros ->. cbn in H. lia.
Qed.

Lemma tabInvariant_cases (t : Bun.Tab.t) :
  tabInvariant t ->
  (Bun.Tab.history t = [] /\ Bun.Tab.historyIndex t = -1) \/
  (0 <= Bun.Tab.historyIndex t < Bun.len (Bun.Tab.history t)).
Proof.
  intros [Hr Hi].
  destruct (Z.eq_dec (Bun.Tab.historyIndex t) (-1)) as [E|E].
  - left. split; [now apply Hi | exact E].
  - right. lia.
Qed.

(** After the history update of [navigate] the history is not empty and the
    cursor is on its last entry, whatever they were before. *)
Lemma pushHistory_last (history : list jsstring) (i : Z) (url : jsstring) :
  fst (Bun.pushHistory history i url) <> [] /\
  snd (Bun.pushHistory history i url) = Bun.len (fst (Bun.pushHistory history i url)) - 1.
Proof.
  unfold Bun.pushHistory.
  set (h1 := if i <? Bun.len history - 1 then Bun.slice0 history (i + 1) else history).
  destruct (Bun.strictEq (Bun.at_ h1 (Bun.len h1 - 1)) url) eqn:E; simpl.
  - split; [|reflexivity]. intros Hn. rewrite Hn in E. discriminate E.
  - split; [|reflexivity]. now destruct h1.
Qed.

Lemma commitNavigate_invariant (content : PageContent.t) (t : Bun.Tab.t) :
  tabInvariant (Bun.commitNavigate content t).
Proof.
  unfold Bun.commitNavigate.
  pose proof (pushHistory_last (Bun.Tab.history t) (Bun.Tab.historyIndex t)
                (PageContent.url content)) as [Hne Hi].
  destruct (Bun.pushHistory _ _ _) as [h i]. simpl in *.
  apply (tabInvariant_intro h i); [reflexivity | reflexivity |].
  right. subst i. pose proof (len_nonneg h).
  assert (Bun.len h <> 0) by (intros E; apply len_nil_iff in E; contradiction).
  lia.
Qed.

Lemma NoDup_map_eq (ts : list Bun.Tab.t) (a b : Bun.Tab.t) :
  NoDup (map Bun.Tab.id ts) -> In a ts -> In b ts ->
  Bun.Tab.id a = Bun.Tab.id b -> a = b.
Proof.
  induction ts as [|t ts IH]; simpl; intros Hnd Ha Hb E; [contradiction|].
  inversion Hnd as [|? ? Hnot Hnd']; subst.
  destruct Ha as [<-|Ha], Hb as [<-|Hb]; auto.
  - elim Hnot. rewrite E. now apply in_map.
  - elim Hnot. rewrite <- E. now apply in_map.
Qed.

Lemma updateTab_ids (id : Z) (f : Bun.Tab.t -> Bun.Tab.t) (ts : list Bun.Tab.t) :
  (forall t, Bun.Tab.id (f t) = Bun.Tab.id t) ->
  map Bun.Tab.id (Bun.updateTab id f ts) = map Bun.Tab.id ts.
Proof.
  intros Hf. unfold Bun.updateTab. rewrite map_map. apply map_ext.
  intros t. destruct (Bun.Tab.id t =? id); [apply Hf | reflexivity].
Qed.

Lemma updateTab_In (id : Z) (f : Bun.Tab.t -> Bun.Tab.t) (ts : list Bun.Tab.t)
    (x : Bun.Tab.t) :
  In x (Bun.updateTab id f ts) ->
  exists y, In y ts /\ x = (if Bun.Tab.id y =? id then f y else y).
Proof.
  unfold Bun.updateTab. intros H. apply in_map_iff in H as (y & <- & Hy).
  now exists y.
Qed.

(** A mutation that maintains the invariant of any tab maintains the
    invariant of the session. *)
Lemma tabsInvariant_update (s : Bun.State) (id : Z) (f : Bun.Tab.t -> Bun.Tab.t) :
  (forall t, Bun.Tab.id (f t) = Bun.Tab.id t) ->
  (forall t, tabInvariant t -> tabInvariant (f t)) ->
  tabsInvariant s -> tabsInvariant (Bun.withTabs s (Bun.updateTab id f (Bun.tabs s))).
Proof.
  intros Hid Hf (Ht & Hnd & Hfr). unfold tabsInvariant. simpl.
  rewrite (updateTab_ids id f _ Hid). split; [|split; [exact Hnd|]].
  - apply Forall_forall. intros x Hx. apply updateTab_In in Hx as (y & Hy & ->).
    rewrite Forall_forall in Ht. destruct (Bun.Tab.id y =? id); auto.
  - apply Forall_forall. intros x Hx. apply updateTab_In in Hx as (y & Hy & ->).
    rewrite Forall_forall in Hfr. destruct (Bun.Tab.id y =? id); [rewrite Hid|]; auto.
Qed.

(** A mutation of one tab of the session that leaves this tab with its
    invariant maintains the invariant of the session. *)
Lemma tabsInvariant_update_one (s : Bun.State) (t : Bun.Tab.t)
    (f : Bun.Tab.t -> Bun.Tab.t) :
  (forall t, Bun.Tab.id (f t) = Bun.Tab.id t) ->
  In t (Bun.tabs s) -> tabInvariant (f t) ->
  tabsInvariant s ->
  tabsInvariant (Bun.withTabs s (Bun.updateTab (Bun.Tab.id t) f (Bun.tabs s))).
Proof.
  intros Hid Hin Hf (Ht & Hnd & Hfr). unfold tabsInvariant. simpl.
  rewrite (updateTab_ids (Bun.Tab.id t) f _ Hid). split; [|split; [exact Hnd|]].
  - apply Forall_forall. intros x Hx. apply updateTab_In in Hx as (y & Hy & ->).
    rewrite Forall_forall in Ht. destruct (Bun.Tab.id y =? Bun.Tab.id t) eqn:E; auto.
    apply Z.eqb_eq in E. now rewrite (NoDup_map_eq _ y t Hnd Hy Hin E).
  - apply Forall_forall. intros x Hx. apply updateTab_In in Hx as (y & Hy & ->).
    rewrite Forall_forall in Hfr.
    destruct (Bun.Tab.id y =? Bun.Tab.id t); [rewrite Hid|]; auto.
Qed.

Lemma activeInvariant_update (s : Bun.State) (id : Z) (f : Bun.Tab.t -> Bun.Tab.t) :
  (forall t, Bun.Tab.id (f t) = Bun.Tab.id t) ->
  activeInvariant s -> activeInvariant (Bun.withTabs s (Bun.updateTab id f (Bun.tabs s))).
Proof.
  intros Hid (t & Hin & Ht). unfold activeInvariant. simpl.
  exists (if Bun.Tab.id t =? id then f t else t). split.
  - unfold Bun.updateTab.
    exact (in_map (fun t => if Bun.Tab.id t =? id then f t else t) _ _ Hin).
  - destruct (Bun.Tab.id t =? id); [rewrite Hid|]; exact Ht.
Qed.

Lemma getActiveTab_Some (s : Bun.State) (t : Bun.Tab.t) :
  Bun.getActiveTab s = Some t -> In t (Bun.tabs s) /\ Bun.Tab.id t = Bun.activeTabId s.
Proof.
  unfold Bun.getActiveTab. intros H. apply find_some in H as [Hin E].
  split; [exact Hin | now apply Z.eqb_eq].
Qed.

Lemma getActiveTab_None (s : Bun.State) :
  Bun.getActiveTab s = None -> ~ activeInvariant s.
Proof.
  unfold Bun.getActiveTab. intros H (t & Hin & E).
  pose proof (find_none _ _ H t Hin) as Hf. simpl in Hf.
  apply Z.eqb_neq in Hf. contradiction.
Qed.

(** A new tab with the next id, made the active one. *)
Lemma sessionInvariant_addTab (s : Bun.State) (title : jsstring) :
  tabsInvariant s ->
  sessionInvariant
    {| Bun.tabs := Bun.tabs s ++ [Bun.newTab (Bun.nextTabId s) title];
       Bun.activeTabId := Bun.nextTabId s;
       Bun.nextTabId := Bun.nextTabId s + 1;
       Bun.pending := Bun.pending s |}.
Proof.
  intros (Ht & Hnd & Hfr). split; [split; [|split]|]; simpl.
  - apply Forall_app. split; [exact Ht|]. constructor; [|constructor].
    apply (tabInvariant_intro [] (-1)); auto.
  - rewrite map_app. simpl.
    apply NoDup_app; [exact Hnd | constructor; [intros []|constructor] |].
    intros x Hx [<-|[]]. apply in_map_iff in Hx as (y & E & Hy).
    rewrite Forall_forall in Hfr. specialize (Hfr y Hy). lia.
  - apply Forall_app. split.
    + eapply Forall_impl; [|exact Hfr]. simpl. intros; lia.
    + constructor; [simpl; lia | constructor].
  - exists (Bun.newTab (Bun.nextTabId s) title). split; [|reflexivity].
    apply in_or_app. right. now left.
Qed.

Lemma startLoading_invariant (i : Z) (url : jsstring) (t : Bun.Tab.t) :
  0 <= i < Bun.len (Bun.Tab.history t) -> tabInvariant (Bun.startLoading i url t).
Proof.
  intros H. apply (tabInvariant_intro (Bun.Tab.history t) i); auto.
Qed.

Lemma sameHistory_invariant (t t' : Bun.Tab.t) :
  Bun.Tab.history t' = Bun.Tab.history t ->
  Bun.Tab.historyIndex t' = Bun.Tab.historyIndex t ->
  tabInvariant t -> tabInvariant t'.
Proof.
  unfold tabInvariant. now intros -> ->.
Qed.

Lemma sessionInvariant_ext (s s' : Bun.State) :
  Bun.tabs s' = Bun.tabs s -> Bun.activeTabId s' = Bun.activeTabId s ->
  Bun.nextTabId s' = Bun.nextTabId s ->
  sessionInvariant s -> sessionInvariant s'.
Proof.
  unfold sessionInvariant, tabsInvariant, activeInvariant.
  now intros -> -> ->.
Qed.

Lemma sessionInvariant_update (s : Bun.State) (id : Z) (f : Bun.Tab.t -> Bun.Tab.t) :
  (forall t, Bun.Tab.id (f t) = Bun.Tab.id t) ->
  (forall t, tabInvariant t -> tabInvariant (f t)) ->
  sessionInvariant s ->
  sessionInvariant (Bun.withTabs s (Bun.updateTab id f (Bun.tabs s))).
Proof.
  intros Hid Hf [Ht Ha]. split.
  - now apply tabsInvariant_update.
  - now apply activeInvariant_update.
Qed.

Lemma sessionInvariant_update_one (s : Bun.State) (t : Bun.Tab.t)
    (f : Bun.Tab.t -> Bun.Tab.t) :
  (forall t, Bun.Tab.id (f t) = Bun.Tab.id t) ->
  In t (Bun.tabs s) -> tabInvariant (f t) ->
  sessionInvariant s ->
  sessionInvariant (Bun.withTabs s (Bun.updateTab (Bun.Tab.id t) f (Bun.tabs s))).
Proof.
  intros Hid Hin Hf [Ht Ha]. split.
  - now apply tabsInvariant_update_one.
  - now apply activeInvariant_update.
Qed.

Lemma sessionInvariant_tab (s : Bun.State) (t : Bun.Tab.t) :
  sessionInvariant s -> In t (Bun.tabs s) -> tabInvariant t.
Proof.
  intros [(Ht & _) _] Hin. rewrite Forall_forall in Ht. now apply Ht.
Qed.

Lemma navigate_invariant (url : jsstring) (s : Bun.State) :
  sessionInvariant s -> sessionInvariant (Bun.navigate url s).
Proof.
  intros Hs. unfold Bun.navigate.
  destruct (Bun.normalizeUrl url) as [normalizedUrl|]; [|exact Hs].
  destruct (negb (truthy normalizedUrl)); [exact Hs|].
  destruct (Bun.getActiveTab s) as [tab|].
  - eapply sessionInvariant_ext; [reflexivity | reflexivity | reflexivity |].
    apply sessionInvariant_update; [reflexivity | | exact Hs].
    intros t. now apply sameHistory_invariant.
  - eapply sessionInvariant_ext; [reflexivity | reflexivity | reflexivity |].
    apply (sessionInvariant_update
             {| Bun.tabs := Bun.tabs s ++ [Bun.newTab (Bun.nextTabId s) []];
                Bun.activeTabId := Bun.nextTabId s;
                Bun.nextTabId := Bun.nextTabId s + 1;
                Bun.pending := Bun.pending s |}); [reflexivity | |].
    + intros t. now apply sameHistory_invariant.
    + apply sessionInvariant_addTab. apply Hs.
Qed.

Lemma goBack_invariant (s : Bun.State) :
  sessionInvariant s -> sessionInvariant (Bun.goBack s).
Proof.
  intros Hs. unfold Bun.goBack.
  destruct (Bun.getActiveTab s) as [tab|] eqn:Ha; [|exact Hs].
  destruct (Bun.Tab.historyIndex tab <=? 0) eqn:E; [exact Hs|].
  apply Z.leb_gt in E. apply getActiveTab_Some in Ha as [Hin _].
  pose proof (sessionInvariant_tab s tab Hs Hin) as [Hr _].
  eapply sessionInvariant_ext; [reflexivity | reflexivity | reflexivity |].
  apply sessionInvariant_update_one; [reflexivity | exact Hin | | exact Hs].
  apply startLoading_invariant. lia.
Qed.

Lemma goForward_invariant (s : Bun.State) :
  sessionInvariant s -> sessionInvariant (Bun.goForward s).
Proof.
  intros Hs. unfold Bun.goForward.
  destruct (Bun.getActiveTab s) as [tab|] eqn:Ha; [|exact Hs].
  destruct (Bun.len (Bun.Tab.history tab) - 1 <=? Bun.Tab.historyIndex tab) eqn:E;
    [exact Hs|].
  apply Z.leb_gt in E. apply getActiveTab_Some in Ha as [Hin _].
  pose proof (sessionInvariant_tab s tab Hs Hin) as [Hr _].
  eapply sessionInvariant_ext; [reflexivity | reflexivity | reflexivity |].
  apply sessionInvariant_update_one; [reflexivity | exact Hin | | exact Hs].
  apply startLoading_invariant. lia.
Qed.

Lemma setLoading_invariant (b : bool) (s : Bun.State) (id : Z) :
  sessionInvariant s ->
  sessionInvariant (Bun.withTabs s (Bun.updateTab id (Bun.setLoading b) (Bun.tabs s))).
Proof.
  intros Hs. apply sessionInvariant_update; [reflexivity | | exact Hs].
  intros t. now apply sameHistory_invariant.
Qed.

Lemma reload_invariant (s : Bun.State) :
  sessionInvariant s -> sessionInvariant (Bun.reload s).
Proof.
  intros Hs. unfold Bun.reload.
  destruct (Bun.getActiveTab s) as [tab|]; [|exact Hs].
  destruct (negb (truthy (Bun.Tab.url tab))); [exact Hs|].
  eapply sessionInvariant_ext; [reflexivity | reflexivity | reflexivity |].
  now apply setLoading_invariant.
Qed.

Lemma stopLoading_invariant (s : Bun.State) :
  sessionInvariant s -> sessionInvariant (Bun.stopLoading s).
Proof.
  intros Hs. unfold Bun.stopLoading.
  destruct (Bun.getActiveTab s) as [tab|]; [|exact Hs].
  now apply setLoading_invariant.
Qed.

Lemma createTab_invariant (url : option jsstring) (s : Bun.State) :
  sessionInvariant s -> sessionInvariant (Bun.createTab url s).
Proof.
  intros Hs. unfold Bun.createTab.
  exact (sessionInvariant_addTab s (str "New Tab") (proj1 Hs)).
Qed.

Lemma switchTab_invariant (tabId : Z) (s : Bun.State) :
  sessionInvariant s -> sessionInvariant (Bun.switchTab tabId s).
Proof.
  intros Hs. unfold Bun.switchTab.
  destruct (find (fun t => Bun.Tab.id t =? tabId) (Bun.tabs s)) as [t|] eqn:F;
    [|exact Hs].
  apply find_some in F as [Hin E]. apply Z.eqb_eq in E.
  split; [exact (proj1 Hs)|]. now exists t.
Qed.

Lemma splice1_cons {A} (i : nat) (x : A) (l : list A) :
  Bun.splice1 (S i) (x :: l) = x :: Bun.splice1 i l.
Proof. reflexivity. Qed.

Lemma splice1_In {A} (i : nat) (l : list A) (x : A) :
  In x (Bun.splice1 i l) -> In x l.
Proof.
  unfold Bun.splice1. intros H. apply in_app_or in H as [H|H].
  - rewrite <- (firstn_skipn i l). apply in_or_app. now left.
  - rewrite <- (firstn_skipn (S i) l). apply in_or_app. now right.
Qed.

Lemma splice1_map {A B} (f : A -> B) (i : nat) (l : list A) :
  map f (Bun.splice1 i l) = Bun.splice1 i (map f l).
Proof.
  unfold Bun.splice1. now rewrite map_app, firstn_map, skipn_map.
Qed.

Lemma splice1_NoDup {A} (l : list A) :
  forall i, NoDup l -> NoDup (Bun.splice1 i l).
Proof.
  induction l as [|x l IH]; intros i Hnd.
  - unfold Bun.splice1. rewrite firstn_nil, skipn_nil. constructor.
  - inversion Hnd as [|? ? Hnot Hnd']; subst. destruct i as [|i].
    + exact Hnd'.
    + rewrite splice1_cons. constructor; [|now apply IH].
      intros Hin. apply Hnot. now apply (splice1_In i l).
Qed.

Lemma splice1_Forall {A} (P : A -> Prop) (i : nat) (l : list A) :
  Forall P l -> Forall P (Bun.splice1 i l).
Proof.
  rewrite !Forall_forall. intros H x Hx. apply H. now apply (splice1_In i l).
Qed.

Lemma findIndex_keeps (tabId : Z) (t : Bun.Tab.t) (ts : list Bun.Tab.t) :
  forall index, Bun.findIndex tabId ts = Some index ->
    In t ts -> Bun.Tab.id t <> tabId -> In t (Bun.splice1 index ts).
Proof.
  induction ts as [|x ts IH]; intros index Hf Hin Hne; [contradiction|].
  simpl in Hf. destruct (Bun.Tab.id x =? tabId) eqn:E.
  - injection Hf as <-. apply Z.eqb_eq in E. destruct Hin as [<-|Hin]; [contradiction|].
    exact Hin.
  - destruct (Bun.findIndex tabId ts) as [j|] eqn:F; [|discriminate].
    injection Hf as <-. rewrite splice1_cons. destruct Hin as [<-|Hin].
    + now left.
    + right. now apply IH.
Qed.

Lemma findIndex_bound (tabId : Z) (ts : list Bun.Tab.t) :
  forall index, Bun.findIndex tabId ts = Some index -> (index < length ts)%nat.
Proof.
  induction ts as [|x ts IH]; intros index Hf; [discriminate|].
  simpl in Hf. destruct (Bun.Tab.id x =? tabId).
  - injection Hf as <-. simpl. lia.
  - destruct (Bun.findIndex tabId ts) as [j|]; [|discriminate].
    injection Hf as <-. simpl. specialize (IH j eq_refl). lia.
Qed.

Lemma at_Some {A} (l : list A) (i : Z) :
  0 <= i < Bun.len l -> exists x, Bun.at_ l i = Some x /\ In x l.
Proof.
  unfold Bun.at_, Bun.len. intros H.
  destruct (i <? 0) eqn:E; [apply Z.ltb_lt in E; lia|].
  destruct (nth_error l (Z.to_nat i)) as [x|] eqn:N.
  - exists x. split; [reflexivity|]. now apply nth_error_In in N.
  - apply nth_error_None in N. lia.
Qed.

Lemma tabsInvariant_splice (s : Bun.State) (index : nat) :
  tabsInvariant s -> tabsInvariant (Bun.withTabs s (Bun.splice1 index (Bun.tabs s))).
Proof.
  intros (Ht & Hnd & Hfr). unfold tabsInvariant. simpl. split; [|split].
  - now apply splice1_Forall.
  - rewrite splice1_map. now apply splice1_NoDup.
  - now apply splice1_Forall.
Qed.

Lemma closeTab_invariant (tabId : Z) (s : Bun.State) :
  sessionInvariant s -> sessionInvariant (Bun.closeTab tabId s).
Proof.
  intros Hs. unfold Bun.closeTab.
  destruct (Bun.findIndex tabId (Bun.tabs s)) as [index|] eqn:F; [|exact Hs].
  pose proof (tabsInvariant_splice s index (proj1 Hs)) as Hc.
  set (ts := Bun.splice1 index (Bun.tabs s)) in *.
  destruct (Bun.activeTabId s =? tabId) eqn:E.
  - destruct (0 <? Bun.len ts) eqn:L.
    + apply Z.ltb_lt in L.
      destruct (at_Some ts (Z.min (Z.of_nat index) (Bun.len ts - 1)) ltac:(lia))
        as (tab & -> & Hin).
      split; [exact Hc|]. now exists tab.
    + exact (sessionInvariant_addTab (Bun.withTabs s ts) (str "New Tab") Hc).
  - split; [exact Hc|]. destruct Hs as [_ (t & Hin & Ht)].
    exists t. split; [|exact Ht]. apply Z.eqb_neq in E.
    apply (findIndex_keeps tabId t _ index F Hin). congruence.
Qed.

Lemma strictEq_Some (v : option jsstring) (url : jsstring) :
  Bun.strictEq v url = true -> v = Some url.
Proof.
  destruct v as [x|]; simpl; [|discriminate]. intros H.
  apply jsstring_eqb_eq in H. now subst.
Qed.

Lemma onWebviewNavigated_invariant (P : Platform) (url : jsstring) (s : Bun.State) :
  sessionInvariant s -> sessionInvariant (Bun.onWebviewNavigated P url s).
Proof.
  intros Hs. unfold Bun.onWebviewNavigated.
  destruct (Bun.getActiveTab s) as [tab|] eqn:Ha; [|exact Hs].
  apply getActiveTab_Some in Ha as [Hin _].
  pose proof (sessionInvariant_tab s tab Hs Hin) as Htab.
  pose proof (tabInvariant_cases tab Htab) as Hcases.
  cbv zeta.
  set (h0 := Bun.Tab.history tab) in *.
  set (i0 := Bun.Tab.historyIndex tab) in *.
  pose proof (len_nonneg h0) as Hlen.
  match goal with
  | |- sessionInvariant (let (_, _) := ?pair in _) =>
      assert (Hpair : (fst pair = [] /\ snd pair = -1) \/
                      0 <= snd pair < Bun.len (fst pair));
      [|destruct pair as [h j]]
  end.
  { destruct (Bun.strictEq (Bun.orNull (Bun.at_ h0 i0)) url); [exact Hcases|].
    destruct (Bun.strictEq (if 0 <? i0 then Bun.at_ h0 (i0 - 1) else None) url) eqn:B.
    { right. simpl. destruct (0 <? i0) eqn:Z0; [|discriminate B].
      apply Z.ltb_lt in Z0. destruct Hcases as [[_ ?]|?]; lia. }
    destruct (Bun.strictEq
                (if i0 <? Bun.len h0 - 1 then Bun.at_ h0 (i0 + 1) else None) url) eqn:F.
    { right. simpl. destruct (i0 <? Bun.len h0 - 1) eqn:Z0; [|discriminate F].
      apply Z.ltb_lt in Z0. destruct Hcases as [[_ ?]|?]; lia. }
    right. simpl. rewrite len_app1.
    match goal with |- context [Bun.len ?l + 1] => pose proof (len_nonneg l) end.
    lia. }
  apply sessionInvariant_update_one; [reflexivity | exact Hin | | exact Hs].
  apply (tabInvariant_intro h j); [reflexivity | reflexivity | exact Hpair].
Qed.

Lemma resume_invariant (k : nat) (result : outcome PageContent.t) (s : Bun.State) :
  sessionInvariant s -> sessionInvariant (Bun.resume k result s).
Proof.
  intros Hs. unfold Bun.resume.
  destruct (nth_error (Bun.pending s) k) as [p|]; [|exact Hs].
  set (s1 := {| Bun.tabs := Bun.tabs s; Bun.activeTabId := Bun.activeTabId s;
                Bun.nextTabId := Bun.nextTabId s;
                Bun.pending := Bun.splice1 k (Bun.pending s) |}).
  assert (H1 : sessionInvariant s1)
    by (apply (sessionInvariant_ext s s1); auto).
  destruct result as [content|m], (Bun.handler p); try exact H1.
  - apply sessionInvariant_update; [reflexivity | | exact H1].
    intros t _. apply commitNavigate_invariant.
  - apply sessionInvariant_update; [reflexivity | | exact H1].
    intros t. now apply sameHistory_invariant.
  - apply sessionInvariant_update; [reflexivity | | exact H1].
    intros t. now apply sameHistory_invariant.
  - now apply setLoading_invariant.
Qed.

Lemma step_invariant (P : Platform) (s : Bun.State) (e : Bun.Event) :
  sessionInvariant s -> sessionInvariant (Bun.step P s e).
Proof.
  intros Hs. destruct e; simpl.
  - now apply navigate_invariant.
  - now apply goBack_invariant.
  - now apply goForward_invariant.
  - now apply reload_invariant.
  - now apply stopLoading_invariant.
  - now apply createTab_invariant.
  - now apply closeTab_invariant.
  - now apply switchTab_invariant.
  - now apply reload_invariant.
  - now apply onWebviewNavigated_invariant.
  - now apply resume_invariant.
Qed.

Lemma initialState_invariant : sessionInvariant Bun.initialState.
Proof.
  split; [split; [|split]|].
  - constructor; [|constructor]. apply (tabInvariant_intro [] (-1)); auto.
  - simpl. constructor; [intros []|constructor].
  - constructor; [simpl; lia | constructor].
  - exists (Bun.newTab 1 (str "New Tab")). split; [now left | reflexivity].
Qed.

(** Every state the handlers can reach from the initial one satisfies the
    invariant, whatever the interleaving of requests and settled fetches. *)
Lemma run_invariant (P : Platform) (events : list Bun.Event) :
  forall s, sessionInvariant s -> sessionInvariant (Bun.run P events s).
Proof.
  unfold Bun.run. induction events as [|e events IH]; intros s Hs; [exact Hs|].
  simpl. apply IH. now apply step_invariant.
Qed.

(** C4.  After any sequence of requests ([navigate], [goBack], [goForward]
    and the others) and settled fetches, for every tab:
    [-1 <= historyIndex < history.length], and [historyIndex == -1] exactly
    when the history is empty; and [getNavigationState] reports [canGoBack]
    exactly when the cursor of the active tab is positive and [canGoForward]
    exactly when it is below the last index. *)
Theorem history_cursor_invariant (P : Platform) (events : list Bun.Event) :
  let s := Bun.run P events Bun.initialState in
  (forall t, In t (Bun.tabs s) ->
     -1 <= Bun.Tab.historyIndex t < Bun.len (Bun.Tab.history t) /\
     (Bun.Tab.historyIndex t = -1 <-> Bun.Tab.history t = [])) /\
  (forall t, Bun.getActiveTab s = Some t ->
     (Bun.canGoBack (Bun.getNavigationState s) = true <-> Bun.Tab.historyIndex t > 0) /\
     (Bun.canGoForward (Bun.getNavigationState s) = true <->
      Bun.Tab.historyIndex t < Bun.len (Bun.Tab.history t) - 1)).
Proof.
  intros s. pose proof (run_invariant P events _ initialState_invariant) as Hs.
  fold s in Hs. split.
  - intros t Hin. exact (sessionInvariant_tab s t Hs Hin).
  - intros t Ha. unfold Bun.getNavigationState. rewrite Ha. simpl.
    rewrite Z.ltb_lt, Z.ltb_lt. split; split; lia.
Qed.


(** ** Navigations in flight *)

Lemma find_updateTab (k id : Z) (f : Bun.Tab.t -> Bun.Tab.t) (ts : list Bun.Tab.t) :
  (forall t, Bun.Tab.id (f t) = Bun.Tab.id t) ->
  find (fun t => Bun.Tab.id t =? k) (Bun.updateTab id f ts) =
  option_map (fun t => if Bun.Tab.id t =? id then f t else t)
             (find (fun t => Bun.Tab.id t =? k) ts).
Proof.
  intros Hf. induction ts as [|x ts IH]; [reflexivity|]. simpl.
  assert (E : Bun.Tab.id (if Bun.Tab.id x =? id then f x else x) = Bun.Tab.id x)
    by (destruct (Bun.Tab.id x =? id); [apply Hf | reflexivity]).
  rewrite E. destruct (Bun.Tab.id x =? k); [reflexivity | exact IH].
Qed.

Lemma getActiveTab_update (s : Bun.State) (t : Bun.Tab.t) (f : Bun.Tab.t -> Bun.Tab.t) :
  (forall x, Bun.Tab.id (f x) = Bun.Tab.id x) ->
  Bun.getActiveTab s = Some t ->
  Bun.getActiveTab (Bun.withTabs s (Bun.updateTab (Bun.Tab.id t) f (Bun.tabs s))) =
  Some (f t).
Proof.
  intros Hf Ha. unfold Bun.getActiveTab in *. simpl.
  rewrite (find_updateTab _ _ f _ Hf), Ha. simpl. now rewrite Z.eqb_refl.
Qed.

(** [navigate] on a session with an active tab: the tab stays the active one
    and the handler is suspended behind those already waiting. *)
Lemma navigate_suspends (s : Bun.State) (t : Bun.Tab.t) (url normalizedUrl : jsstring) :
  Bun.getActiveTab s = Some t ->
  Bun.normalizeUrl url = Ok normalizedUrl -> normalizedUrl <> [] ->
  exists t',
    Bun.getActiveTab (Bun.navigate url s) = Some t' /\
    Bun.Tab.id t' = Bun.Tab.id t /\
    Bun.pending (Bun.navigate url s) =
    Bun.pending s ++ [{| Bun.handler := Bun.Navigate; Bun.tabRef := Bun.Tab.id t;
                         Bun.requested := normalizedUrl |}].
Proof.
  intros Ha Hn Hne. unfold Bun.navigate. rewrite Hn.
  apply truthy_true in Hne. rewrite Hne, Ha. simpl negb. cbv iota.
  exists (Bun.startLoading (Bun.Tab.historyIndex t) normalizedUrl t).
  split; [|split; reflexivity].
  exact (getActiveTab_update s t
           (fun tab => Bun.startLoading (Bun.Tab.historyIndex tab) normalizedUrl tab)
           (fun _ => eq_refl) Ha).
Qed.

(** A settled [navigate] commits what its fetch produced, with no regard to
    the URL the tab is loading by then. *)
Lemma resume_navigate (s : Bun.State) (t : Bun.Tab.t) (k : nat) (p : Bun.Pending)
    (content : PageContent.t) :
  Bun.getActiveTab s = Some t ->
  nth_error (Bun.pending s) k = Some p ->
  Bun.handler p = Bun.Navigate -> Bun.tabRef p = Bun.Tab.id t ->
  Bun.getActiveTab (Bun.resume k (Ok content) s) = Some (Bun.commitNavigate content t) /\
  Bun.pending (Bun.resume k (Ok content) s) = Bun.splice1 k (Bun.pending s).
Proof.
  intros Ha Hk Hh Hr. unfold Bun.resume. rewrite Hk, Hh, Hr. split; [|reflexivity].
  set (s1 := {| Bun.tabs := Bun.tabs s; Bun.activeTabId := Bun.activeTabId s;
                Bun.nextTabId := Bun.nextTabId s;
                Bun.pending := Bun.splice1 k (Bun.pending s) |}).
  exact (getActiveTab_update s1 t (Bun.commitNavigate content) (fun _ => eq_refl) Ha).
Qed.

Lemma nth_error_snoc {A} (l : list A) (x : A) (rest : list A) :
  nth_error (l ++ x :: rest) (length l) = Some x.
Proof.
  rewrite nth_error_app2 by lia. now rewrite Nat.sub_diag.
Qed.

Lemma splice1_snoc {A} (l : list A) (x : A) (rest : list A) :
  Bun.splice1 (length l) (l ++ x :: rest) = l ++ rest.
Proof.
  unfold Bun.splice1. rewrite firstn_app, Nat.sub_diag, firstn_all. simpl firstn.
  rewrite app_nil_r. f_equal.
  rewrite skipn_app, (skipn_all2 l) by lia.
  replace (S (length l) - length l)%nat with 1%nat by lia. reflexivity.
Qed.

(** C3, as the code has it.  When [navigate(A)] is followed on the same tab
    by [navigate(B)] before the first fetch settles, each fetch is committed
    when it settles and nothing is discarded: the tab ends with the URL and
    the document of the fetch that settled last, B's if A's settled first and
    A's if B's settled first. *)
Theorem navigate_last_settled_wins (P : Platform) (s : Bun.State) (t : Bun.Tab.t)
    (A B a b : jsstring) (docA docB : PageContent.t) :
  Bun.getActiveTab s = Some t ->
  Bun.normalizeUrl A = Ok a -> a <> [] ->
  Bun.normalizeUrl B = Ok b -> b <> [] ->
  let n := length (Bun.pending s) in
  (exists t',
     Bun.getActiveTab
       (Bun.run P [Bun.ENavigate A; Bun.ENavigate B;
                   Bun.ESettled n (Ok docA); Bun.ESettled n (Ok docB)] s) = Some t' /\
     Bun.Tab.url t' = PageContent.url docB /\ Bun.Tab.content t' = Some docB) /\
  (exists t',
     Bun.getActiveTab
       (Bun.run P [Bun.ENavigate A; Bun.ENavigate B;
                   Bun.ESettled (S n) (Ok docB); Bun.ESettled n (Ok docA)] s) = Some t' /\
     Bun.Tab.url t' = PageContent.url docA /\ Bun.Tab.content t' = Some docA).
Proof.
  intros Ha HA Hane HB Hbne n.
  destruct (navigate_suspends s t A a Ha HA Hane) as (t1 & Ha1 & Hid1 & Hp1).
  destruct (navigate_suspends _ t1 B b Ha1 HB Hbne) as (t2 & Ha2 & Hid2 & Hp2).
  rewrite Hp1, Hid1, <- app_assoc in Hp2. simpl in Hp2.
  set (s2 := Bun.navigate B (Bun.navigate A s)) in *.
  set (pA := {| Bun.handler := Bun.Navigate; Bun.tabRef := Bun.Tab.id t;
                Bun.requested := a |}) in *.
  set (pB := {| Bun.handler := Bun.Navigate; Bun.tabRef := Bun.Tab.id t;
                Bun.requested := b |}) in *.
  assert (Href : Bun.Tab.id t = Bun.Tab.id t2) by congruence.
  split.
  - assert (Hk : nth_error (Bun.pending s2) n = Some pA)
      by (rewrite Hp2; apply nth_error_snoc).
    destruct (resume_navigate s2 t2 n pA docA Ha2 Hk eq_refl Href) as [Ha3 Hp3].
    rewrite Hp2 in Hp3. unfold n in Hp3. rewrite splice1_snoc in Hp3. fold n in Hp3.
    assert (Hk' : nth_error (Bun.pending (Bun.resume n (Ok docA) s2)) n = Some pB)
      by (rewrite Hp3; apply nth_error_snoc).
    destruct (resume_navigate _ _ n pB docB Ha3 Hk' eq_refl Href) as [Ha4 _].
    eexists. split; [exact Ha4|]. unfold Bun.commitNavigate at 1.
    destruct (Bun.pushHistory _ _ _). split; reflexivity.
  - assert (Hk : nth_error (Bun.pending s2) (S n) = Some pB).
    { rewrite Hp2. change (Bun.pending s ++ [pA; pB])
        with (Bun.pending s ++ [pA] ++ [pB]).
      rewrite app_assoc.
      replace (S n) with (length (Bun.pending s ++ [pA]))
        by (rewrite length_app; simpl; unfold n; lia).
      apply nth_error_snoc. }
    destruct (resume_navigate s2 t2 (S n) pB docB Ha2 Hk eq_refl Href) as [Ha3 Hp3].
    assert (Hp3' : Bun.pending (Bun.resume (S n) (Ok docB) s2) = Bun.pending s ++ [pA]).
    { rewrite Hp3, Hp2. change (Bun.pending s ++ [pA; pB])
        with (Bun.pending s ++ [pA] ++ [pB]).
      rewrite app_assoc.
      replace (S n) with (length (Bun.pending s ++ [pA]))
        by (rewrite length_app; simpl; unfold n; lia).
      rewrite splice1_snoc. now rewrite app_nil_r. }
    assert (Hk' : nth_error (Bun.pending (Bun.resume (S n) (Ok docB) s2)) n = Some pA)
      by (rewrite Hp3'; apply nth_error_snoc).
    destruct (resume_navigate _ _ n pA docA Ha3 Hk' eq_refl Href) as [Ha4 _].
    eexists. split; [exact Ha4|]. unfold Bun.commitNavigate at 1.
    destruct (Bun.pushHistory _ _ _). split; reflexivity.
Qed.

(** ** The history update of [navigate] *)

Lemma at_firstn {A} (l : list A) (i : Z) :
  0 <= i < Bun.len l ->
  Bun.at_ (firstn (Z.to_nat (i + 1)) l) i = Bun.at_ l i.
Proof.
  intros H. unfold Bun.at_. destruct (i <? 0); [reflexivity|].
  rewrite nth_error_firstn.
  destruct (Nat.ltb_spec (Z.to_nat i) (Z.to_nat (i + 1))); [reflexivity | lia].
Qed.

Lemma len_firstn {A} (l : list A) (i : Z) :
  -1 <= i < Bun.len l -> Bun.len (firstn (Z.to_nat (i + 1)) l) = i + 1.
Proof.
  unfold Bun.len. intros H. rewrite length_firstn. lia.
Qed.

(** In a tab that satisfies its invariant, [navigate] keeps the history up
    to the cursor, appends the URL of the document unless it is the entry at
    the cursor, and puts the cursor on the last entry. *)
Lemma bun_pushHistory_spec (history : list jsstring) (i : Z) (url : jsstring) :
  (history = [] /\ i = -1) \/ 0 <= i < Bun.len history ->
  Bun.pushHistory history i url =
  let kept := firstn (Z.to_nat (i + 1)) history in
  if Bun.strictEq (Bun.at_ history i) url then (kept, i) else (kept ++ [url], i + 1).
Proof.
  intros H. unfold Bun.pushHistory. cbv zeta.
  assert (Hkept : (if i <? Bun.len history - 1 then Bun.slice0 history (i + 1)
                   else history) = firstn (Z.to_nat (i + 1)) history).
  { destruct (i <? Bun.len history - 1) eqn:E.
    - unfold Bun.slice0. destruct (i + 1 <? 0) eqn:E'; [|reflexivity].
      apply Z.ltb_lt in E'. destruct H as [[_ ->]|H]; lia.
    - apply Z.ltb_ge in E. symmetry. apply firstn_all2.
      unfold Bun.len in *. destruct H as [[-> ->]|H]; simpl; lia. }
  rewrite Hkept.
  assert (Hlen : Bun.len (firstn (Z.to_nat (i + 1)) history) = i + 1).
  { apply len_firstn. destruct H as [[-> ->]|H]; [cbn|]; lia. }
  assert (Hlast : Bun.at_ (firstn (Z.to_nat (i + 1)) history)
                    (Bun.len (firstn (Z.to_nat (i + 1)) history) - 1) =
                  Bun.at_ history i).
  { rewrite Hlen. replace (i + 1 - 1) with i by lia.
    destruct H as [[-> ->]|H]; [reflexivity | now apply at_firstn]. }
  rewrite Hlast. destruct (Bun.strictEq (Bun.at_ history i) url); simpl.
  - f_equal. lia.
  - f_equal. rewrite len_app1. lia.
Qed.

End SessionProperties.

Lemma navigate_last_settled_wins_witness :
  exists t',
    Bun.getActiveTab (Bun.run Sample.platform Sample.staleTrace Bun.initialState) =
      Some t' /\
    Bun.Tab.url t' = Sample.urlA /\
    Bun.Tab.content t' = Some (Sample.page Sample.urlA).
Proof.
  exact (proj2 (navigate_last_settled_wins Sample.platform Bun.initialState
                  (Bun.newTab 1 (str "New Tab")) Sample.urlA Sample.urlB
                  Sample.urlA Sample.urlB (Sample.page Sample.urlA)
                  (Sample.page Sample.urlB) eq_refl eq_refl
                  ltac:(discriminate) eq_refl ltac:(discriminate))).
Defined.

(** C3 as stated fails: A is navigated to first and B second, the fetch of B
    settles before the fetch of A, and the tab ends on the URL and document of
    A, with A after B in its history. *)
Lemma navigate_supersede_counterexample :
  Sample.urlA <> Sample.urlB /\
  option_map Bun.Tab.url
    (Bun.getActiveTab (Bun.run Sample.platform Sample.staleTrace Bun.initialState)) =
    Some Sample.urlA /\
  option_map Bun.Tab.content
    (Bun.getActiveTab (Bun.run Sample.platform Sample.staleTrace Bun.initialState)) =
    Some (Some (Sample.page Sample.urlA)) /\
  option_map Bun.Tab.history
    (Bun.getActiveTab (Bun.run Sample.platform Sample.staleTrace Bun.initialState)) =
    Some [Sample.urlB; Sample.urlA].
Proof.
  split; [discriminate|]. vm_compute. repeat split.
Qed.

Lemma history_cursor_invariant_witness :
  ((-1 <= Bun.Tab.historyIndex Sample.backTab
       < Bun.len (Bun.Tab.history Sample.backTab))%Z /\
   (Bun.Tab.historyIndex Sample.backTab = (-1)%Z <->
    Bun.Tab.history Sample.backTab = [])) /\
  (Bun.canGoBack
     (Bun.getNavigationState
        (Bun.run Sample.platform Sample.backTrace Bun.initialState)) = true <->
   (Bun.Tab.historyIndex Sample.backTab > 0)%Z).
Proof.
  pose proof (history_cursor_invariant Sample.platform Sample.backTrace) as [H1 H2].
  split.
  - apply H1. left. reflexivity.
  - apply (H2 Sample.backTab). reflexivity.
Defined.

(** C5 in the view shim.  [shimNavigate] compares the URL of the document
    with the last entry of the whole history, before any truncation, and
    updates nothing when they are equal.  After A, B and a step back to A,
    navigating to A leaves the history [A; A] (a duplicate next to the entry
    at the cursor), and navigating to B leaves the cursor on A while the tab
    shows B; the bun process ends with [A] and cursor 0 on the first trace. *)
Theorem shim_navigate_history_divergence :
  map (fun t => (Shim.ShimTab.history t, Shim.ShimTab.historyIndex t))
      (Shim.tabs (Shim.run Sample.shimRevisit Shim.shimState0)) =
    [([Sample.urlA; Sample.urlA], 1%Z)] /\
  map (fun t => (Shim.ShimTab.url t, Shim.ShimTab.history t, Shim.ShimTab.historyIndex t))
      (Shim.tabs (Shim.run Sample.shimForwardAgain Shim.shimState0)) =
    [(Sample.urlB, [Sample.urlA; Sample.urlB], 0%Z)] /\
  map (fun t => (Bun.Tab.history t, Bun.Tab.historyIndex t))
      (Bun.tabs (Bun.run Sample.platform Sample.bunRevisit Bun.initialState)) =
    [([Sample.urlA], 0%Z)].
Proof. vm_compute. repeat split. Qed.

(* ================================================================== *)
(** * Properties of the output cleanup *)
(* ================================================================== *)

Section CleanupProperties.










Lemma orphanMatcher_not_bol (prev : option char) (s : jsstring) :
  bol prev = false -> orphanMatcher prev s = None.
Proof.
  intros H. unfold orphanMatcher, orphanAt. now rewrite H.
Qed.

Lemma orphan_copy (p c : char) (s : jsstring) :
  isLineTerminator p = false ->
  replaceFrom orphanMatcher (Some p) 0 (c :: s) =
  c :: replaceFrom orphanMatcher (Some c) 0 s.
Proof.
  intros H. simpl. now rewrite (orphanMatcher_not_bol (Some p) (c :: s) H).
Qed.

Lemma orphan_nil (prev : option char) :
  replaceFrom orphanMatcher prev 0 [] = [].
Proof.
  simpl. unfold orphanMatcher, orphanAt. now destruct (bol prev).
Qed.





(** ** Collapsing blank lines *)

Lemma newlinesAt_leading (s : jsstring) :
  newlinesAt s =
  if (3 <=? leadingNewlines s)%nat then Some (leadingNewlines s) else None.
Proof.
  unfold newlinesAt, leadingNewlines.
  change (fun c : char => N.eqb c 10) with isNewline.
  now destruct (span isNewline s).
Qed.

Lemma leadingNewlines_cons (c : char) (s : jsstring) :
  leadingNewlines (c :: s) = if isNewline c then S (leadingNewlines s) else 0%nat.
Proof.
  unfold leadingNewlines. simpl. destruct (isNewline c); [|reflexivity].
  now destruct (span isNewline s).
Qed.

Lemma leadingNewlines_le (s : jsstring) : (leadingNewlines s <= length s)%nat.
Proof. apply span_fst_length_le. Qed.


Lemma leadingNewlines_skipn (s : jsstring) :
  leadingNewlines (skipn (leadingNewlines s) s) = 0%nat.
Proof.
  induction s as [|c s IH]; [reflexivity|].
  rewrite leadingNewlines_cons. destruct (isNewline c) eqn:E.
  - exact IH.
  - simpl. rewrite leadingNewlines_cons. now rewrite E.
Qed.

Lemma newline_nil (x : option char) : replaceFrom newlineMatcher x 0 [] = [].
Proof. reflexivity. Qed.

Lemma newline_copy (x : option char) (c : char) (s : jsstring) :
  (leadingNewlines (c :: s) < 3)%nat ->
  replaceFrom newlineMatcher x 0 (c :: s) =
  c :: replaceFrom newlineMatcher (Some c) 0 s.
Proof.
  intros H. cbn [replaceFrom]. unfold newlineMatcher at 1.
  rewrite newlinesAt_leading.
  destruct (Nat.leb_spec 3 (leadingNewlines (c :: s))); [lia | reflexivity].
Qed.

Lemma newline_collapse (x : option char) (c : char) (s : jsstring) :
  (3 <= leadingNewlines (c :: s))%nat ->
  replaceFrom newlineMatcher x 0 (c :: s) =
  10%N :: 10%N ::
    replaceFrom newlineMatcher (Some c) (leadingNewlines (c :: s) - 1) s.
Proof.
  intros H. cbn [replaceFrom]. unfold newlineMatcher at 1.
  rewrite newlinesAt_leading.
  destruct (Nat.leb_spec 3 (leadingNewlines (c :: s))); [|lia].
  cbn [option_map]. destruct (leadingNewlines (c :: s)) as [|n]; [lia|].
  cbn [app]. now rewrite Nat.sub_succ, Nat.sub_0_r.
Qed.

Lemma newline_is_lineTerminator (c : char) :
  isNewline c = true -> c = 10%N.
Proof. unfold isNewline. apply N.eqb_eq. Qed.

Lemma not_lineTerminator_not_newline (c : char) :
  isLineTerminator c = false -> isNewline c = false.
Proof.
  intros H. destruct (isNewline c) eqn:E; [|reflexivity].
  apply newline_is_lineTerminator in E. now subst c.
Qed.

Lemma newline_copy_other (x : option char) (c : char) (s : jsstring) :
  isNewline c = false ->
  replaceFrom newlineMatcher x 0 (c :: s) =
  c :: replaceFrom newlineMatcher (Some c) 0 s.
Proof.
  intros H. apply newline_copy. rewrite leadingNewlines_cons, H. lia.
Qed.







Lemma newline_somewhere_nil (y : option char) :
  matchesSomewhere newlineMatcher y [] = false.
Proof. reflexivity. Qed.

Lemma newline_somewhere_cons (y : option char) (c : char) (t : jsstring) :
  (leadingNewlines (c :: t) < 3)%nat ->
  matchesSomewhere newlineMatcher y (c :: t) =
  matchesSomewhere newlineMatcher (Some c) t.
Proof.
  intros H. cbn [matchesSomewhere]. unfold newlineMatcher at 1.
  rewrite newlinesAt_leading.
  destruct (Nat.leb_spec 3 (leadingNewlines (c :: t))); [lia | reflexivity].
Qed.

Lemma newline_somewhere_false (y : option char) (c : char) (t : jsstring) :
  matchesSomewhere newlineMatcher y (c :: t) = false ->
  (leadingNewlines (c :: t) < 3)%nat /\
  matchesSomewhere newlineMatcher (Some c) t = false.
Proof.
  cbn [matchesSomewhere]. unfold newlineMatcher at 1. rewrite newlinesAt_leading.
  destruct (Nat.leb_spec 3 (leadingNewlines (c :: t))) as [L|L]; [discriminate|].
  intros H. now split.
Qed.

Lemma newline_somewhere_prev (y y' : option char) (t : jsstring) :
  matchesSomewhere newlineMatcher y t = matchesSomewhere newlineMatcher y' t.
Proof. destruct t; reflexivity. Qed.

(** What [collapseBlankLines] returns has no run of three line feeds. *)
Lemma collapse_clean (s : jsstring) :
  forall x y k,
    (k <= length s)%nat ->
    ((0 < k)%nat -> leadingNewlines (skipn k s) = 0%nat) ->
    matchesSomewhere newlineMatcher y (replaceFrom newlineMatcher x k s) = false /\
    ((0 < k)%nat -> leadingNewlines (replaceFrom newlineMatcher x k s) = 0%nat) /\
    (k = 0%nat -> (leadingNewlines s < 3)%nat ->
     leadingNewlines (replaceFrom newlineMatcher x k s) = leadingNewlines s).
Proof.
  induction s as [|c s IH]; intros x y k Hk Hpos.
  - assert (k = 0%nat) by (simpl in Hk; lia). subst k.
    split; [reflexivity | split; [intros; lia | reflexivity]].
  - destruct k as [|k].
    + destruct (Nat.leb_spec 3 (leadingNewlines (c :: s))) as [L|L].
      * rewrite (newline_collapse x c s L).
        pose proof (leadingNewlines_le (c :: s)) as Hle.
        pose proof (leadingNewlines_skipn (c :: s)) as Hsk.
        destruct (leadingNewlines (c :: s)) as [|n] eqn:En; [lia|].
        rewrite Nat.sub_succ, Nat.sub_0_r. simpl skipn in Hsk.
        destruct (IH (Some c) (Some 10%N) n ltac:(simpl in Hle; lia) (fun _ => Hsk))
          as (Hm & Hl & _).
        specialize (Hl ltac:(lia)).
        set (o := replaceFrom newlineMatcher (Some c) n s) in *.
        assert (L1 : leadingNewlines (10%N :: o) = 1%nat)
          by (rewrite leadingNewlines_cons, Hl; reflexivity).
        assert (L2 : leadingNewlines (10%N :: 10%N :: o) = 2%nat)
          by (rewrite leadingNewlines_cons, L1; reflexivity).
        split; [|split; [intros; lia | intros _ ?; lia]].
        rewrite newline_somewhere_cons by lia.
        rewrite newline_somewhere_cons by lia. exact Hm.
      * rewrite (newline_copy x c s L).
        destruct (IH (Some c) (Some c) 0%nat ltac:(lia) ltac:(intros; lia))
          as (Hm & _ & Hl).
        specialize (Hl eq_refl).
        set (o := replaceFrom newlineMatcher (Some c) 0 s) in *.
        assert (Lo : leadingNewlines (c :: o) = leadingNewlines (c :: s)).
        { rewrite !leadingNewlines_cons. rewrite leadingNewlines_cons in L.
          destruct (isNewline c); [|reflexivity]. rewrite Hl; [reflexivity | lia]. }
        split; [|split; [intros; lia | intros _ _; exact Lo]].
        rewrite newline_somewhere_cons by lia. exact Hm.
    + simpl replaceFrom. simpl skipn in Hpos. specialize (Hpos ltac:(lia)).
      destruct k as [|k].
      * destruct (IH (Some c) y 0%nat ltac:(lia) ltac:(intros; lia)) as (Hm & _ & Hl).
        simpl skipn in Hpos. specialize (Hl eq_refl ltac:(lia)).
        split; [exact Hm | split; [intros _; lia | intros; lia]].
      * destruct (IH (Some c) y (S k) ltac:(simpl in Hk; lia) (fun _ => Hpos))
          as (Hm & Hl & _).
        split; [exact Hm | split; [intros _; apply Hl; lia | intros; lia]].
Qed.

Lemma leadingNewlines_app (a b : jsstring) :
  (leadingNewlines a <= leadingNewlines (a ++ b))%nat.
Proof.
  induction a as [|c a IH]; [simpl; unfold leadingNewlines at 1; simpl; lia|].
  change ((c :: a) ++ b) with (c :: (a ++ b)). rewrite !leadingNewlines_cons.
  destruct (isNewline c); lia.
Qed.

Lemma newline_somewhere_prefix (a b : jsstring) :
  forall y, matchesSomewhere newlineMatcher y (a ++ b) = false ->
    matchesSomewhere newlineMatcher y a = false.
Proof.
  induction a as [|c a IH]; intros y H; [reflexivity|].
  change ((c :: a) ++ b) with (c :: (a ++ b)) in H.
  apply newline_somewhere_false in H as [L H].
  pose proof (leadingNewlines_app (c :: a) b) as Hle.
  change ((c :: a) ++ b) with (c :: (a ++ b)) in Hle.
  rewrite newline_somewhere_cons by lia. now apply IH.
Qed.

Lemma newline_somewhere_suffix (a b : jsstring) :
  forall y, matchesSomewhere newlineMatcher y (a ++ b) = false ->
    matchesSomewhere newlineMatcher None b = false.
Proof.
  induction a as [|c a IH]; intros y H.
  - now rewrite (newline_somewhere_prev None y).
  - change ((c :: a) ++ b) with (c :: (a ++ b)) in H.
    apply newline_somewhere_false in H as [_ H]. now apply (IH (Some c)).
Qed.

(** ** Trimming *)







Lemma newline_somewhere_trim (s : jsstring) (y : option char) :
  matchesSomewhere newlineMatcher y s = false ->
  matchesSomewhere newlineMatcher None (trim s) = false.
Proof.
  intros H. destruct (trim_split s) as (pre & post & E & _ & _).
  rewrite E in H. apply newline_somewhere_suffix in H.
  now apply newline_somewhere_prefix in H.
Qed.

Lemma forallb_trim (p : char -> bool) (s : jsstring) :
  forallb p s = true -> forallb p (trim s) = true.
Proof.
  intros H. destruct (trim_split s) as (pre & post & E & _ & _).
  rewrite E, !forallb_app in H.
  apply andb_true_iff in H as [_ H]. now apply andb_true_iff in H as [H _].
Qed.

(** ** Characters that start no match *)

Lemma orphanMatcher_not_digit (prev : option char) (c : char) (s : jsstring) :
  isDigit c = false -> orphanMatcher prev (c :: s) = None.
Proof.
  intros H. unfold orphanMatcher, orphanAt. destruct (bol prev); [|reflexivity].
  simpl. now rewrite H.
Qed.


(** ** Inputs without an opening bracket *)

Lemma linkAt_noBracket (s : jsstring) : noBracket s = true -> linkAt s = None.
Proof.
  destruct s as [|c s]; [reflexivity|]. unfold noBracket, notLBracket. simpl.
  intros H. apply andb_true_iff in H as [H _]. apply negb_true_iff in H.
  now rewrite H.
Qed.

Lemma dataLinkAt_noBracket (s : jsstring) : noBracket s = true -> dataLinkAt s = None.
Proof.
  destruct s as [|c s]; [reflexivity|]. unfold noBracket, notLBracket. simpl.
  intros H. apply andb_true_iff in H as [H _]. apply negb_true_iff in H.
  now rewrite H.
Qed.

Lemma dataImageAt_noBracket (s : jsstring) : noBracket s = true -> dataImageAt s = None.
Proof.
  destruct s as [|c s]; [reflexivity|]. intros H. unfold dataImageAt.
  destruct (N.eqb c (chr "!")); [|reflexivity].
  unfold noBracket in H. simpl in H. apply andb_true_iff in H as [_ H].
  now rewrite (dataLinkAt_noBracket s H).
Qed.

Lemma no_match_noBracket (m : matcher) :
  (forall prev t, noBracket t = true -> m prev t = None) ->
  forall s prev, noBracket s = true -> replaceFrom m prev 0 s = s.
Proof.
  intros Hm s prev Hs. apply replaceFrom_no_match. revert prev.
  induction s as [|c s IH]; intros prev; simpl; rewrite (Hm prev _ Hs); [reflexivity|].
  apply IH. unfold noBracket in Hs. simpl in Hs. now apply andb_true_iff in Hs as [_ Hs].
Qed.


End CleanupProperties.


(* ================================================================== *)
(** * Further properties of the fetch pipeline *)
(* ================================================================== *)

Section FetchOutcomes.

Variable P : Platform.
Variable settings : BrowserSettings.t.

(** The heading pattern at the start of a text that begins with a hash, a
    space and a line [t]. *)
Lemma headingAt_first_line (t rest : jsstring) :
  t <> [] -> forallb Html.notLineTerminator t = true ->
  isWhiteSpace (hd 0%N t) = false -> eol rest = true ->
  firstMatch Html.headingAt None (str "# " ++ t ++ rest) = Some t.
Proof.
  intros Hne Hall Hhd Hrest. destruct t as [|c t]; [congruence|].
  change (str "# ") with [35; 32]%N. cbn [app firstMatch Html.headingAt bol].
  change (N.eqb 35 (chr "#") && isWhiteSpace 32) with true. cbn iota.
  simpl hd in Hhd.
  assert (Hspan : span isWhiteSpace (c :: t ++ rest) = ([], c :: t ++ rest)).
  { simpl. rewrite Hhd. reflexivity. }
  change ((c :: t) ++ rest) with (c :: t ++ rest). rewrite Hspan.
  assert (Hc : isLineTerminator c = false).
  { simpl in Hall. apply andb_prop in Hall as [Hc _].
    unfold Html.notLineTerminator in Hc. now apply negb_true_iff in Hc. }
  cbn [longestPrefix eol]. rewrite Hc. cbn [negb skipn app].
  change (c :: t ++ rest) with ((c :: t) ++ rest).
  rewrite (span_all Html.notLineTerminator (c :: t) rest Hall).
  - reflexivity.
  - destruct rest as [|d rest]; [exact I|]. simpl in Hrest.
    unfold Html.notLineTerminator. now rewrite Hrest.
Qed.

(** X3.  A native markdown document whose text begins with a hash, a space
    and a first line [t] gets [t] as its title; the URL parser is not
    consulted. *)
Theorem markdown_title_is_first_heading
    (response : Response) (ct t rest : jsstring) :
  contentTypeHeader response = Some ct ->
  includes (str "text/markdown") ct = true ->
  Bun.decodeResponseBody P response ct = Ok (str "# " ++ t ++ rest) ->
  t <> [] -> forallb Html.notLineTerminator t = true ->
  isWhiteSpace (hd 0%N t) = false -> eol rest = true ->
  exists doc,
    Bun.processResponse P settings response = Ok doc /\
    PageContent.title doc = t /\
    PageContent.markdown doc = str "# " ++ t ++ rest.
Proof.
  intros Hh Hinc Hdec Hne Hall Hhd Hrest. unfold Bun.processResponse.
  rewrite (contentType_of_header (pat := str "text/markdown") Hh) by (auto; discriminate).
  rewrite Hdec. cbn [bind]. unfold Bun.isMarkdownResponse. rewrite Hinc. cbn [orb].
  rewrite (headingAt_first_line t rest Hne Hall Hhd Hrest).
  eexists. split; [reflexivity|]. split; reflexivity.
Qed.

(** What a literal matched without regard to case consumed. *)
Lemma stripPrefixCI_Some (p : jsstring) :
  forall s r, stripPrefixCI p s = Some r ->
    exists pre, s = pre ++ r /\ map foldCase pre = p.
Proof.
  induction p as [|a p IH]; intros s r H.
  - injection H as <-. exists []. split; reflexivity.
  - destruct s as [|b s]; [discriminate H|]. cbn [stripPrefixCI] in H.
    destruct (N.eqb a (foldCase b)) eqn:E; [|discriminate H].
    apply N.eqb_eq in E. destruct (IH s r H) as (pre & -> & Hp).
    exists (b :: pre). split; [reflexivity|]. cbn [map]. now rewrite Hp, E.
Qed.

(** A character that case folding leaves alone and that the text lacks
    cannot be part of a literal found in the text. *)
Lemma stripPrefixCI_lacks (x : char) (p s : jsstring) :
  In x p -> (forall b, foldCase b = x -> b = x) ->
  forallb (fun c => negb (N.eqb c x)) s = true ->
  stripPrefixCI p s = None.
Proof.
  intros Hin Hfold Hall. destruct (stripPrefixCI p s) as [r|] eqn:E; [|reflexivity].
  exfalso. destruct (stripPrefixCI_Some p s r E) as (pre & -> & Hp). subst p.
  apply in_map_iff in Hin as (b & Hb & Hin). apply Hfold in Hb. subst b.
  rewrite forallb_app in Hall. apply andb_prop in Hall as [Hall _].
  rewrite forallb_forall in Hall. specialize (Hall x Hin).
  now rewrite N.eqb_refl in Hall.
Qed.

Lemma foldCase_fixed (x b : char) :
  (x < 97 \/ 122 < x)%N -> foldCase b = x -> b = x.
Proof.
  unfold foldCase. intros Hx.
  destruct ((65 <=? b) && (b <=? 90))%N eqn:Hr; [|congruence].
  apply andb_prop in Hr as [H1 H2]. apply N.leb_le in H1, H2. lia.
Qed.

(** A content type without an equals sign has no charset parameter. *)
Lemma charsetAt_needs_equals (s : jsstring) :
  forallb (fun c => negb (N.eqb c 61)) s = true ->
  forall prev, firstMatch (fun _ t => Html.charsetAt t) prev s = None.
Proof.
  induction s as [|c s IH]; intros Hall prev.
  - reflexivity.
  - cbn [firstMatch]. unfold Html.charsetAt at 1.
    rewrite (stripPrefixCI_lacks 61%N (str "charset=") (c :: s)).
    + cbn [forallb] in Hall. apply andb_prop in Hall as [_ Hs]. exact (IH Hs _).
    + vm_compute. tauto.
    + intros b. apply foldCase_fixed. lia.
    + exact Hall.
Qed.

(** X4.  On a platform that has a UTF-8 decoder, [decodeResponseBody] always
    yields a text: a charset label the platform does not know, and a content
    type without any parameter, are decoded as UTF-8. *)
Theorem decodeResponseBody_falls_back
    (response : Response) (contentType : jsstring) (decode : list N -> jsstring) :
  textDecoder P (str "utf-8") = Some decode ->
  (exists text, Bun.decodeResponseBody P response contentType = Ok text) /\
  (textDecoder P (Bun.getCharset P contentType) = None ->
   Bun.decodeResponseBody P response contentType = Ok (decode (arrayBuffer response))) /\
  (forallb (fun c => negb (N.eqb c 61)) contentType = true ->
   Bun.getCharset P contentType = str "utf-8" /\
   Bun.decodeResponseBody P response contentType = Ok (decode (arrayBuffer response))).
Proof.
  intros Hutf. unfold Bun.decodeResponseBody. split; [|split].
  - destruct (textDecoder P (Bun.getCharset P contentType)) as [d|].
    + eexists; reflexivity.
    + rewrite Hutf. eexists; reflexivity.
  - intros ->. now rewrite Hutf.
  - intros Hall. assert (E : Bun.getCharset P contentType = str "utf-8").
    { unfold Bun.getCharset. now rewrite (charsetAt_needs_equals contentType Hall). }
    split; [exact E|]. rewrite E, Hutf. reflexivity.
Qed.

End FetchOutcomes.

Lemma markdown_title_is_first_heading_witness :
  exists doc,
    Bun.processResponse Sample.platform Bun.settings0 Sample.markdownResponse = Ok doc /\
    PageContent.title doc = str "Readme" /\
    PageContent.markdown doc = str "# " ++ str "Readme" ++ [].
Proof.
  apply (markdown_title_is_first_heading Sample.platform Bun.settings0
           Sample.markdownResponse (str "text/markdown; charset=utf-8")
           (str "Readme") []);
    solve [reflexivity | vm_compute; reflexivity | vm_compute; discriminate].
Defined.

Lemma decodeResponseBody_falls_back_witness :
  Bun.decodeResponseBody Sample.platform Sample.htmlResponse (str "text/html") =
  Ok (arrayBuffer Sample.htmlResponse).
Proof.
  apply (proj2 (proj2 (proj2 (decodeResponseBody_falls_back Sample.platform
                         Sample.htmlResponse (str "text/html") (fun b => b) eq_refl))
                      eq_refl)).
Defined.

(* ================================================================== *)
(** * Further properties of [normalizeUrl] *)
(* ================================================================== *)

Section UrlShape.

Local Open Scope N_scope.

Lemma hexDigit_unreserved (n : N) : uriUnreserved (hexDigit n) = true.
Proof.
  unfold hexDigit. cbv zeta. pose proof (N.mod_lt n 16 ltac:(lia)) as H.
  generalize dependent (n mod 16). intros d H.
  assert (E : d = 0 \/ d = 1 \/ d = 2 \/ d = 3 \/ d = 4 \/ d = 5 \/ d = 6 \/ d = 7 \/
              d = 8 \/ d = 9 \/ d = 10 \/ d = 11 \/ d = 12 \/ d = 13 \/ d = 14 \/
              d = 15) by lia.
  repeat (destruct E as [->|E]; [reflexivity|]). subst d. reflexivity.
Qed.

Lemma percentEncode_utf8_urlSafe (cp : N) :
  forallb urlSafe (concat (map percentEncode (utf8 cp))) = true.
Proof.
  apply forallb_forall. intros c Hc.
  apply in_concat in Hc as (l & Hl & Hc). apply in_map_iff in Hl as (o & <- & _).
  unfold percentEncode in Hc. unfold urlSafe.
  destruct Hc as [<-|[<-|[<-|[]]]];
    [reflexivity | now rewrite hexDigit_unreserved | now rewrite hexDigit_unreserved].
Qed.

Lemma encodeURIComponent_urlSafe (n : nat) :
  forall s q, (length s <= n)%nat ->
    encodeURIComponent s = Ok q -> forallb urlSafe q = true.
Proof.
  induction n as [|n IH]; intros s q Hlen H.
  - destruct s; [|simpl in Hlen; lia]. injection H as <-. reflexivity.
  - destruct s as [|c r]; [injection H as <-; reflexivity|].
    simpl in Hlen. simpl in H.
    destruct (uriUnreserved c) eqn:U.
    + apply bind_Ok_inv in H as (e & He & H). injection H as <-.
      cbn [forallb]. unfold urlSafe at 1. rewrite U. cbn [orb andb].
      apply (IH r e); [lia | exact He].
    + destruct (isLowSurrogate c); [discriminate|].
      destruct (isHighSurrogate c).
      * destruct r as [|d r2]; [discriminate|].
        destruct (isLowSurrogate d); [|discriminate].
        apply bind_Ok_inv in H as (e & He & H). injection H as <-.
        rewrite forallb_app, percentEncode_utf8_urlSafe. cbn [andb].
        apply (IH r2 e); [simpl in Hlen; lia | exact He].
      * apply bind_Ok_inv in H as (e & He & H). injection H as <-.
        rewrite forallb_app, percentEncode_utf8_urlSafe. cbn [andb].
        apply (IH r e); [lia | exact He].
Qed.

Lemma bind_Throw_inv {A B} (x : outcome A) (f : A -> outcome B) (m : jsstring) :
  bind x f = Throw m -> x = Throw m \/ exists a, x = Ok a /\ f a = Throw m.
Proof.
  destruct x as [a|m']; simpl; intros H.
  - right. exists a. split; [reflexivity | exact H].
  - left. now injection H as ->.
Qed.

Lemma encodeURIComponent_Throw (n : nat) :
  forall s m, (length s <= n)%nat ->
    encodeURIComponent s = Throw m -> m = URIError.
Proof.
  induction n as [|n IH]; intros s m Hlen H.
  - destruct s; [discriminate H | simpl in Hlen; lia].
  - destruct s as [|c r]; [discriminate H|].
    simpl in Hlen. simpl in H.
    destruct (uriUnreserved c).
    + apply bind_Throw_inv in H as [H | (e & _ & H)]; [|discriminate H].
      apply (IH r m); [lia | exact H].
    + destruct (isLowSurrogate c); [now injection H|].
      destruct (isHighSurrogate c).
      * destruct r as [|d r2]; [now injection H|].
        destruct (isLowSurrogate d); [|now injection H].
        apply bind_Throw_inv in H as [H | (e & _ & H)]; [|discriminate H].
        apply (IH r2 m); [simpl in Hlen; lia | exact H].
      * apply bind_Throw_inv in H as [H | (e & _ & H)]; [|discriminate H].
        apply (IH r m); [lia | exact H].
Qed.

(** X5.  [normalizeUrl] answers with the empty string exactly on input that
    is empty or all white space; every other result carries a scheme: it
    starts with [mdbrowse://] or, in the bun process without regard to case,
    with [http://] or [https://]. *)
Theorem normalizeUrl_result_has_scheme (s : jsstring) :
  (forall r, Bun.normalizeUrl s = Ok r ->
     (r = [] <-> trim s = []) /\
     (r <> [] ->
      startsWith (str "mdbrowse://") r = true \/ Bun.looksLikeUrl r = true)) /\
  (Shim.normalizeUrl s = [] <-> trim s = []) /\
  (Shim.normalizeUrl s <> [] ->
   startsWith (str "mdbrowse://") (Shim.normalizeUrl s) = true \/
   startsWith (str "http://") (Shim.normalizeUrl s) = true \/
   startsWith (str "https://") (Shim.normalizeUrl s) = true).
Proof.
  split; [|split].
  - intros r. unfold Bun.normalizeUrl.
    destruct (trim s) as [|c u] eqn:T; cbn [truthy negb].
    { intros H. injection H as <-. split; [tauto | congruence]. }
    destruct (startsWith (str "mdbrowse://") (c :: u)) eqn:M.
    { intros H. injection H as <-. split; [split; discriminate | now left]. }
    destruct (Bun.looksLikeUrl (c :: u)) eqn:L.
    { intros H. injection H as <-. split; [split; discriminate | now right]. }
    destruct (includes (str ".") (c :: u) && negb (includes (str " ") (c :: u))).
    { intros H. injection H as <-. split; [split; discriminate | now right]. }
    intros H. apply bind_Ok_inv in H as (q & _ & H). injection H as <-.
    split; [split; discriminate | now right].
  - unfold Shim.normalizeUrl.
    destruct (trim s) as [|c u] eqn:T; cbn [truthy negb]; [tauto|].
    destruct (startsWith (str "mdbrowse://") (c :: u)); [split; discriminate|].
    destruct (startsWith (str "http://") (c :: u) || startsWith (str "https://") (c :: u));
      [split; discriminate|].
    destruct (includes (str ".") (c :: u) && negb (includes (str " ") (c :: u)));
      split; discriminate.
  - unfold Shim.normalizeUrl.
    destruct (trim s) as [|c u] eqn:T; cbn [truthy negb]; [congruence|].
    destruct (startsWith (str "mdbrowse://") (c :: u)) eqn:M; [now left|].
    destruct (startsWith (str "http://") (c :: u)) eqn:H1; [right; now left|].
    destruct (startsWith (str "https://") (c :: u)) eqn:H2; [right; now right|].
    cbn [orb].
    destruct (includes (str ".") (c :: u) && negb (includes (str " ") (c :: u)));
      intros _; right; right; reflexivity.
Qed.

(** X6.  In the bun process, input that carries no scheme and is not a bare
    host name (it has a space, or no period) becomes a search: the result is
    the search address followed by the percent-encoded input, which holds only
    unreserved characters and percent signs; the only failure is the URIError
    of [encodeURIComponent] on a lone surrogate. *)
Theorem unschemed_input_becomes_search (s : jsstring) :
  trim s <> [] ->
  startsWith (str "mdbrowse://") (trim s) = false ->
  Bun.looksLikeUrl (trim s) = false ->
  includes (str ".") (trim s) && negb (includes (str " ") (trim s)) = false ->
  match Bun.normalizeUrl s with
  | Ok r =>
      exists q, encodeURIComponent (trim s) = Ok q /\
                r = str "https://duckduckgo.com/?q=" ++ q /\
                forallb urlSafe q = true
  | Throw message => message = URIError
  end.
Proof.
  intros Hne M L D. unfold Bun.normalizeUrl.
  destruct (trim s) as [|c u] eqn:T; [congruence|]. cbn [truthy negb].
  rewrite M, L, D.
  destruct (encodeURIComponent (c :: u)) as [q|m] eqn:E; cbn [bind].
  - exists q. split; [reflexivity|]. split; [reflexivity|].
    exact (encodeURIComponent_urlSafe (length (c :: u)) (c :: u) q (le_n _) E).
  - exact (encodeURIComponent_Throw (length (c :: u)) (c :: u) m (le_n _) E).
Qed.

End UrlShape.

Lemma normalizeUrl_result_has_scheme_witness :
  Bun.looksLikeUrl (str "https://example.com") = true.
Proof.
  destruct (proj2 (proj1 (normalizeUrl_result_has_scheme (str " example.com "))
                     (str "https://example.com") eq_refl)
                  ltac:(discriminate)) as [H|H].
  - discriminate H.
  - exact H.
Defined.

Lemma unschemed_input_becomes_search_witness :
  exists q, encodeURIComponent (str "rocq prover") = Ok q /\
            str "https://duckduckgo.com/?q=rocq%20prover" =
              str "https://duckduckgo.com/?q=" ++ q /\
            forallb urlSafe q = true.
Proof.
  exact (unschemed_input_becomes_search (str " rocq prover ")
           ltac:(vm_compute; discriminate) eq_refl eq_refl eq_refl).
Defined.

(* ================================================================== *)
(** * Further properties of the converter and of the cleanup *)
(* ================================================================== *)

Section WhiteSpaceNormalForm.

Local Open Scope N_scope.

Lemma span_snd_skipn (p : char -> bool) (s : jsstring) :
  skipn (length (fst (span p s))) s = snd (span p s).
Proof.
  pose proof (span_app p s) as E. rewrite <- E at 2.
  rewrite skipn_app, Nat.sub_diag, skipn_all. reflexivity.
Qed.

Lemma collapse_head (s : jsstring) (prev : option char) :
  headNotWhiteSpace s -> headNotWhiteSpace (replaceFrom wsRunAt prev 0 s).
Proof.
  destruct s as [|d s]; intros H; [exact I|].
  simpl in H. cbn [replaceFrom]. unfold wsRunAt at 1. cbn [span]. rewrite H. exact H.
Qed.

(** What [/\s+/g] replaced by a space leaves is single-spaced. *)
Lemma collapse_spaced (s : jsstring) :
  forall prev k,
    (k <= length s)%nat ->
    forallb isWhiteSpace (firstn k s) = true ->
    ((0 < k)%nat -> headNotWhiteSpace (skipn k s)) ->
    spaced (replaceFrom wsRunAt prev k s) = true /\
    ((0 < k)%nat -> headNotWhiteSpace (replaceFrom wsRunAt prev k s)).
Proof.
  induction s as [|c s IH]; intros prev k Hk Hf Hs.
  - destruct k; [|simpl in Hk; lia]. cbn. split; [reflexivity | intros; exact I].
  - destruct k as [|k].
    + split; [|lia]. cbn [replaceFrom].
      destruct (wsRunAt prev (c :: s)) as [[r n]|] eqn:E.
      * destruct (wsRunAt_Some _ _ _ _ E) as (-> & Hn & Hpos).
        pose proof (span_fst_length_le isWhiteSpace (c :: s)) as Hle.
        pose proof (span_fst_all isWhiteSpace (c :: s)) as Hall.
        pose proof (span_snd_skipn isWhiteSpace (c :: s)) as Hsk.
        rewrite <- span_fst_firstn, <- Hn in Hall. rewrite <- Hn in Hle, Hsk.
        destruct n as [|n]; [lia|]. cbn [firstn forallb] in Hall.
        apply andb_true_iff in Hall as [Hc Hall]. cbn [skipn] in Hsk. cbn [length] in Hle.
        assert (Hhead : headNotWhiteSpace (skipn n s)).
        { rewrite Hsk. destruct (snd (span isWhiteSpace (c :: s))) as [|d t] eqn:D; [exact I|].
          exact (span_snd_head _ _ _ _ D). }
        destruct (IH (Some c) n ltac:(lia) Hall (fun _ => Hhead)) as [IH1 IH2].
        change ([chr " "] ++ replaceFrom wsRunAt (Some c) n s)
          with (32 :: replaceFrom wsRunAt (Some c) n s).
        cbn [spaced]. rewrite IH1, andb_true_r.
        change (isWhiteSpace 32) with true. cbn [negb orb]. rewrite N.eqb_refl. cbn [andb].
        assert (H : headNotWhiteSpace (replaceFrom wsRunAt (Some c) n s)).
        { destruct n as [|n]; [|apply IH2; lia]. apply collapse_head. exact Hhead. }
        destruct (replaceFrom wsRunAt (Some c) n s); [reflexivity|].
        simpl in H. now rewrite H.
      * pose proof (wsRunAt_None _ _ _ E) as Hc.
        destruct (IH (Some c) 0%nat ltac:(lia) eq_refl ltac:(lia)) as [IH1 _].
        cbn [spaced]. now rewrite Hc, IH1.
    + cbn [replaceFrom]. cbn [firstn forallb] in Hf. apply andb_true_iff in Hf as [Hc Hf].
      cbn [length] in Hk. cbn [skipn] in Hs.
      destruct (IH (Some c) k ltac:(lia) Hf (fun _ => Hs ltac:(lia))) as [IH1 IH2].
      split; [exact IH1|]. intros _.
      destruct k as [|k]; [|apply IH2; lia]. apply collapse_head. apply Hs. lia.
Qed.

(** On single-spaced text [/\s+/g] replaced by a space changes nothing. *)
Lemma spaced_fixed (s : jsstring) :
  spaced s = true -> forall prev, replaceFrom wsRunAt prev 0 s = s.
Proof.
  induction s as [|c s IH]; intros H prev; [reflexivity|].
  cbn [spaced] in H. apply andb_true_iff in H as [Hc Hs].
  cbn [replaceFrom]. unfold wsRunAt at 1. cbn [span].
  destruct (isWhiteSpace c) eqn:W.
  - cbn [negb orb] in Hc. apply andb_true_iff in Hc as [Hc Hd]. apply N.eqb_eq in Hc.
    assert (E : span isWhiteSpace s = ([], s)).
    { destruct s as [|d s]; [reflexivity|]. cbn [span].
      apply negb_true_iff in Hd. now rewrite Hd. }
    rewrite E. cbn [length app]. rewrite (IH Hs). now subst c.
  - now rewrite (IH Hs).
Qed.

Lemma spaced_app (a b : jsstring) :
  spaced (a ++ b) = true -> spaced a = true /\ spaced b = true.
Proof.
  induction a as [|c a IH]; intros H; [split; [reflexivity | exact H]|].
  change ((c :: a) ++ b) with (c :: a ++ b) in H. cbn [spaced] in H.
  apply andb_true_iff in H as [Hc H]. destruct (IH H) as [Ha Hb].
  split; [|exact Hb]. cbn [spaced]. rewrite Ha, andb_true_r.
  destruct a as [|d a]; [|exact Hc].
  destruct (isWhiteSpace c); [|reflexivity]. cbn [negb orb] in *.
  apply andb_true_iff in Hc as [Hc _]. now rewrite Hc.
Qed.

Lemma spaced_trim (s : jsstring) : spaced s = true -> spaced (trim s) = true.
Proof.
  intros H. destruct (trim_split s) as (pre & post & E & _ & _).
  rewrite E in H. apply spaced_app in H as [_ H]. now apply spaced_app in H as [H _].
Qed.

Lemma trimmed_trim (s : jsstring) : trimmed (trim s) = true.
Proof.
  unfold trimmed. destruct (trim s) as [|c r] eqn:E; [reflexivity|].
  assert (Hne : trim s <> []) by congruence.
  destruct (trim_ends s Hne) as [H1 H2]. rewrite E in H1, H2. simpl hd in H1.
  now rewrite H1, H2.
Qed.

Lemma trimmed_fixed (s : jsstring) : trimmed s = true -> trim s = s.
Proof.
  unfold trimmed. destruct s as [|c r]; [reflexivity|]. intros H.
  apply andb_true_iff in H as [H1 H2]. apply negb_true_iff in H1, H2.
  apply trim_fixed; [discriminate | exact H1 | exact H2].
Qed.

Lemma normalizeWhitespace_spaced (v : jsstring) :
  spaced (Re.normalizeWhitespace v) = true.
Proof.
  unfold Re.normalizeWhitespace, replaceAll. apply spaced_trim.
  apply (collapse_spaced v None 0%nat); [lia | reflexivity | lia].
Qed.

Lemma normalizeWhitespace_fixed (r : jsstring) :
  trimmed r = true -> spaced r = true -> Re.normalizeWhitespace r = r.
Proof.
  intros Ht Hs. unfold Re.normalizeWhitespace, replaceAll.
  rewrite (spaced_fixed r Hs). now apply trimmed_fixed.
Qed.

(** X7.  What [normalizeWhitespace] returns neither starts nor ends with
    white space, holds no white space other than single spaces between two
    other characters, and is left unchanged by a second application. *)
Theorem normalizeWhitespace_normal_form (v : jsstring) :
  trimmed (Shared.normalizeWhitespace v) = true /\
  spaced (Shared.normalizeWhitespace v) = true /\
  Shared.normalizeWhitespace (Shared.normalizeWhitespace v) =
    Shared.normalizeWhitespace v.
Proof.
  unfold Shared.normalizeWhitespace.
  assert (Ht : trimmed (Re.normalizeWhitespace v) = true) by apply trimmed_trim.
  pose proof (normalizeWhitespace_spaced v) as Hs.
  split; [exact Ht|]. split; [exact Hs|]. now apply normalizeWhitespace_fixed.
Qed.

(** X8.  The label [getLinkLabel] resolves is in that same normal form,
    whichever of its four sources it comes from. *)
Theorem getLinkLabel_is_normalized (n : node) :
  trimmed (Shared.getLinkLabel n) = true /\
  spaced (Shared.getLinkLabel n) = true /\
  Shared.normalizeWhitespace (Shared.getLinkLabel n) = Shared.getLinkLabel n.
Proof.
  assert (H : forall v, trimmed (Shared.normalizeWhitespace v) = true /\
                        spaced (Shared.normalizeWhitespace v) = true).
  { intros v. split; [apply trimmed_trim | apply normalizeWhitespace_spaced]. }
  assert (G : trimmed (Shared.getLinkLabel n) = true /\
              spaced (Shared.getLinkLabel n) = true).
  { unfold Shared.getLinkLabel. cbv zeta.
    repeat match goal with
    | |- context [if truthy ?x then _ else _] => destruct (truthy x); [apply H|]
    end. split; reflexivity. }
  destruct G as [G1 G2]. split; [exact G1|]. split; [exact G2|].
  now apply normalizeWhitespace_fixed.
Qed.

End WhiteSpaceNormalForm.

Section ConverterScope.

(** X9.  The two rules the converters add touch only tables and anchors
    that have an address and no visible text: for every other node the rule
    chosen is the one the engine would choose without them. *)
Theorem custom_rules_leave_other_nodes (gfm : list rule) (n : node) :
  nodeName n <> str "TABLE" ->
  nodeName n <> str "A" \/ getAttribute (str "href") n = None \/
    trim (textContent n) <> [] ->
  forNode (Shared.createTurndownService gfm) n = forNode gfm n /\
  forNode (Bun.rulesArray gfm) n = forNode gfm n.
Proof.
  intros Ht Ha. rewrite shared_rules, bun_rules. unfold forNode. cbn [find].
  assert (T1 : filter Shared.ignoreLayoutTables n = false).
  { cbn [filter Shared.ignoreLayoutTables]. now rewrite (jsstring_eqb_neq Ht). }
  assert (T2 : filter Bun.ignoreLayoutTables n = false).
  { cbn [filter Bun.ignoreLayoutTables]. now rewrite (jsstring_eqb_neq Ht). }
  assert (A1 : filter Shared.preserveBlankLinks n = false).
  { cbn [filter Shared.preserveBlankLinks]. destruct Ha as [Ha|[Ha|Ha]].
    - now rewrite (jsstring_eqb_neq Ha).
    - rewrite Ha. apply andb_false_iff. left. apply andb_false_r.
    - apply andb_false_iff. right. apply jsstring_eqb_neq.
      unfold Shared.normalizeWhitespace. now rewrite normalizeWhitespace_nil_iff. }
  assert (A2 : filter Bun.removeBlankLinks n = false).
  { cbn [filter Bun.removeBlankLinks]. destruct Ha as [Ha|[Ha|Ha]].
    - now rewrite (jsstring_eqb_neq Ha).
    - rewrite Ha. apply andb_false_iff. left. apply andb_false_r.
    - apply andb_false_iff. right. now apply jsstring_eqb_neq. }
  rewrite T1, T2, A1, A2. split; reflexivity.
Qed.

Lemma jsstring_eqb_iff (a b c d : jsstring) :
  (a = b <-> c = d) -> jsstring_eqb a b = jsstring_eqb c d.
Proof.
  intros H. destruct (jsstring_eqb c d) eqn:E.
  - apply jsstring_eqb_eq. apply H. now apply jsstring_eqb_eq.
  - apply jsstring_eqb_neq. intros F. apply H in F.
    apply jsstring_eqb_eq in F. congruence.
Qed.

(** X10.  The shared converter and the converter of the bun process select
    the same anchors as blank links (they differ in what they emit for them),
    and every table the bun process treats as a layout table is one for the
    shared converter. *)
Theorem converters_select_same_nodes (n : node) :
  filter Shared.preserveBlankLinks n = filter Bun.removeBlankLinks n /\
  (filter Bun.ignoreLayoutTables n = true ->
   filter Shared.ignoreLayoutTables n = true).
Proof.
  split.
  - cbn [filter Shared.preserveBlankLinks Bun.removeBlankLinks]. f_equal.
    apply jsstring_eqb_iff. unfold Shared.normalizeWhitespace.
    apply normalizeWhitespace_nil_iff.
  - cbn [filter Shared.ignoreLayoutTables Bun.ignoreLayoutTables].
    destruct (negb (jsstring_eqb (nodeName n) (str "TABLE"))); [discriminate|].
    cbv zeta. intros H. now apply andb_true_iff in H as [H _].
Qed.

End ConverterScope.

Lemma custom_rules_leave_other_nodes_witness :
  forNode (Shared.createTurndownService Sample.gfm) Sample.paragraph =
    forNode Sample.gfm Sample.paragraph /\
  forNode (Bun.rulesArray Sample.gfm) Sample.paragraph =
    forNode Sample.gfm Sample.paragraph.
Proof.
  apply (custom_rules_leave_other_nodes Sample.gfm Sample.paragraph).
  - vm_compute. discriminate.
  - left. vm_compute. discriminate.
Defined.

Section CleanupShape.

Lemma newline_free_of_triple (s : jsstring) :
  forall y, matchesSomewhere newlineMatcher y s = false ->
    includes [10; 10; 10]%N s = false.
Proof.
  induction s as [|c t IH]; intros y H; [reflexivity|].
  destruct (newline_somewhere_false y c t H) as [Hlt Ht].
  cbn [includes]. rewrite (IH _ Ht), orb_false_r.
  destruct (startsWith [10; 10; 10]%N (c :: t)) eqn:E; [|reflexivity]. exfalso.
  unfold startsWith in E. cbn [stripPrefix] in E.
  destruct (N.eqb 10 c) eqn:C1; [|discriminate E]. apply N.eqb_eq in C1. subst c.
  destruct t as [|c t]; [discriminate E|].
  destruct (N.eqb 10 c) eqn:C2; [|discriminate E]. apply N.eqb_eq in C2. subst c.
  destruct t as [|c t]; [discriminate E|].
  destruct (N.eqb 10 c) eqn:C3; [|discriminate E]. apply N.eqb_eq in C3. subst c.
  rewrite !leadingNewlines_cons in Hlt. cbn in Hlt. lia.
Qed.

Lemma tidy_end (md : jsstring) :
  trimmed (trim (collapseBlankLines md)) = true /\
  includes [10; 10; 10]%N (trim (collapseBlankLines md)) = false.
Proof.
  split; [apply trimmed_trim|].
  apply (newline_free_of_triple _ None).
  apply (newline_somewhere_trim _ None). unfold collapseBlankLines, replaceAll.
  apply (collapse_clean md None None 0%nat); lia.
Qed.

(** X11.  Whatever its input, the output of [cleanupTurndownOutput] neither
    starts nor ends with white space and never holds three line feeds in a
    row: in the shared module and in the bun process. *)
Theorem cleanup_output_is_tidy (md : jsstring) :
  (trimmed (Shared.cleanupTurndownOutput md) = true /\
   includes [10; 10; 10]%N (Shared.cleanupTurndownOutput md) = false) /\
  (trimmed (Bun.cleanupTurndownOutput md) = true /\
   includes [10; 10; 10]%N (Bun.cleanupTurndownOutput md) = false).
Proof.
  unfold Shared.cleanupTurndownOutput, Bun.cleanupTurndownOutput. cbv zeta.
  split; apply tidy_end.
Qed.

End CleanupShape.

Section ConvertedDocuments.

Variable P : Platform.
Variable settings : BrowserSettings.t.

(** X2.  A document [fetchPage] derives from a response that is not native
    markdown carries the URL of the response (after redirects) and, as
    [rawHtml], the body decoded under the [content-type] header of that
    response (under no charset when the header is missing or empty), which
    the markdown test has turned down; its [markdown] is that same body when
    [autoConvert] is off, and otherwise the cleaned-up conversion of the
    reduced markup, which then neither starts nor ends with white space and
    holds no three newlines in a row. *)
Theorem html_response_is_converted (response : Response) (doc : PageContent.t) :
  Bun.processResponse P settings response = Ok doc ->
  PageContent.wasMarkdown doc = false ->
  let contentType :=
    match contentTypeHeader response with
    | Some ((_ :: _) as v) => v
    | _ => []
    end in
  PageContent.url doc = responseUrl response /\
  Bun.decodeResponseBody P response contentType = Ok (PageContent.rawHtml doc) /\
  Bun.isMarkdownResponse contentType (PageContent.rawHtml doc) = false /\
  (BrowserSettings.autoConvert settings = false ->
   PageContent.markdown doc = PageContent.rawHtml doc) /\
  (BrowserSettings.autoConvert settings = true ->
   (exists md,
      turndown P (Html.reduce (PageContent.rawHtml doc)) = Ok md /\
      PageContent.markdown doc = Bun.cleanupTurndownOutput md) /\
   trimmed (PageContent.markdown doc) = true /\
   includes [10; 10; 10]%N (PageContent.markdown doc) = false).
Proof.
  intros H Hw contentType. unfold Bun.processResponse in H. cbv zeta in H.
  fold contentType in H.
  apply bind_Ok_inv in H as (text & Hdec & H).
  destruct (Bun.isMarkdownResponse contentType text) eqn:M.
  - apply bind_Ok_inv in H as (title & _ & H). injection H as <-. discriminate Hw.
  - apply bind_Ok_inv in H as (title & _ & H).
    apply bind_Ok_inv in H as (markdown & Hmd & H). injection H as <-. simpl.
    split; [reflexivity|]. split; [exact Hdec|]. split; [exact M|].
    destruct (BrowserSettings.autoConvert settings); split; intros E; try discriminate E.
    + apply bind_Ok_inv in Hmd as (md & Ht & Hmd). injection Hmd as <-.
      split; [exists md; split; [exact Ht | reflexivity]|].
      unfold Bun.cleanupTurndownOutput.
      exact (tidy_end (removeOrphanNumbers (replaceAll Bun.linkReplacement md))).
    + injection Hmd as <-. reflexivity.
Qed.

End ConvertedDocuments.

Lemma html_response_is_converted_witness :
  Bun.decodeResponseBody Sample.platform Sample.htmlResponse (str "text/html") =
    Ok (PageContent.rawHtml Sample.htmlDocument) /\
  trimmed (PageContent.markdown Sample.htmlDocument) = true.
Proof.
  pose proof (html_response_is_converted Sample.platform Bun.settings0
                Sample.htmlResponse Sample.htmlDocument eq_refl eq_refl) as H.
  cbv zeta in H. destruct H as (_ & Hraw & _ & _ & Hmd).
  split; [exact Hraw|]. exact (proj1 (proj2 (Hmd eq_refl))).
Defined.


(* ================================================================== *)
(** * Further properties of the tab and navigation state *)
(* ================================================================== *)

Section SessionBehaviour.

Local Open Scope Z_scope.

Variable P : Platform.

Lemma reachable_invariant (events : list Bun.Event) :
  sessionInvariant (Bun.run P events Bun.initialState).
Proof. exact (run_invariant P events _ initialState_invariant). Qed.

(** X12.  In every state the bun process reaches, the ids of the tabs are
    pairwise distinct and smaller than the next id to hand out: an id is
    never given to a second tab. *)
Theorem tab_ids_are_unique (events : list Bun.Event) :
  let s := Bun.run P events Bun.initialState in
  NoDup (map Bun.Tab.id (Bun.tabs s)) /\
  Forall (fun t => Bun.Tab.id t < Bun.nextTabId s) (Bun.tabs s).
Proof.
  intros s. destruct (reachable_invariant events) as [(_ & Hn & Hb) _].
  split; assumption.
Qed.

Lemma filter_none {A} (p : A -> bool) (l : list A) :
  (forall y, In y l -> p y = false) -> List.filter p l = [].
Proof.
  induction l as [|x l IH]; intros H; [reflexivity|]. cbn [List.filter].
  rewrite (H x (or_introl eq_refl)). apply IH. intros y Hy. apply H. now right.
Qed.

Lemma count_by_id (ts : list Bun.Tab.t) (t : Bun.Tab.t) :
  NoDup (map Bun.Tab.id ts) -> In t ts ->
  length (List.filter (fun x => Bun.Tab.id x =? Bun.Tab.id t) ts) = 1%nat.
Proof.
  induction ts as [|x ts IH]; intros Hn Hin; [destruct Hin|].
  cbn [map] in Hn. inversion Hn as [|? ? Hx Hn']; subst. cbn [List.filter].
  destruct Hin as [->|Hin].
  - rewrite Z.eqb_refl. cbn [length]. f_equal.
    assert (E : List.filter (fun x => Bun.Tab.id x =? Bun.Tab.id t) ts = []).
    { apply filter_none. intros y Hy.
      apply Z.eqb_neq. intros E. apply Hx. rewrite <- E. now apply in_map. }
    now rewrite E.
  - destruct (Bun.Tab.id x =? Bun.Tab.id t) eqn:E; [|now apply IH].
    apply Z.eqb_eq in E. exfalso. apply Hx. rewrite E. now apply in_map.
Qed.

Lemma filter_map_comm {A B} (f : A -> B) (p : B -> bool) (l : list A) :
  List.filter p (map f l) = map f (List.filter (fun x => p (f x)) l).
Proof.
  induction l as [|x l IH]; [reflexivity|]. cbn [map List.filter].
  destruct (p (f x)); cbn [map]; now rewrite IH.
Qed.

(** X13.  In every state the bun process reaches, [getTabInfos] lists the
    tabs in their order, marks exactly one of them as active, and gives every
    one a title that is not empty. *)
Theorem getTabInfos_marks_one_active (events : list Bun.Event) :
  let s := Bun.run P events Bun.initialState in
  map TabInfo.id (Bun.getTabInfos s) = map Bun.Tab.id (Bun.tabs s) /\
  length (List.filter TabInfo.isActive (Bun.getTabInfos s)) = 1%nat /\
  Forall (fun i => truthy (TabInfo.title i) = true) (Bun.getTabInfos s).
Proof.
  intros s. destruct (reachable_invariant events) as [(_ & Hn & _) (t & Hin & Hid)].
  fold s in Hn, Hin, Hid. unfold Bun.getTabInfos. split; [|split].
  - rewrite map_map. reflexivity.
  - rewrite filter_map_comm, length_map. cbn [TabInfo.isActive].
    rewrite <- Hid. now apply count_by_id.
  - apply Forall_map. apply Forall_forall. intros x _. cbn [TabInfo.title].
    unfold Bun.displayTitle.
    destruct (truthy (Bun.Tab.title x)) eqn:E1; [exact E1|].
    destruct (truthy (Bun.Tab.url x)) eqn:E2; [exact E2 | reflexivity].
Qed.

(** X14.  In every state the bun process reaches, [goBack] and [goForward]
    read the history inside its bounds: when the cursor can move, the URL
    requested is the history entry next to it, the cursor moves there at once,
    and the handler waits for that fetch behind those already waiting. *)
Theorem history_step_requests_entry (events : list Bun.Event) (t : Bun.Tab.t) :
  let s := Bun.run P events Bun.initialState in
  Bun.getActiveTab s = Some t ->
  (0 < Bun.Tab.historyIndex t ->
   exists u,
     Bun.at_ (Bun.Tab.history t) (Bun.Tab.historyIndex t - 1) = Some u /\
     Bun.getActiveTab (Bun.goBack s) =
       Some (Bun.startLoading (Bun.Tab.historyIndex t - 1) u t) /\
     Bun.pending (Bun.goBack s) =
       Bun.pending s ++ [{| Bun.handler := Bun.History; Bun.tabRef := Bun.Tab.id t;
                            Bun.requested := u |}]) /\
  (Bun.Tab.historyIndex t < Bun.len (Bun.Tab.history t) - 1 ->
   exists u,
     Bun.at_ (Bun.Tab.history t) (Bun.Tab.historyIndex t + 1) = Some u /\
     Bun.getActiveTab (Bun.goForward s) =
       Some (Bun.startLoading (Bun.Tab.historyIndex t + 1) u t) /\
     Bun.pending (Bun.goForward s) =
       Bun.pending s ++ [{| Bun.handler := Bun.History; Bun.tabRef := Bun.Tab.id t;
                            Bun.requested := u |}]).
Proof.
  intros s Ha. pose proof (reachable_invariant events) as Hs. fold s in Hs.
  destruct (getActiveTab_Some s t Ha) as [Hin _].
  destruct (sessionInvariant_tab s t Hs Hin) as [Hr _].
  split; intros Hi.
  - destruct (at_Some (Bun.Tab.history t) (Bun.Tab.historyIndex t - 1)) as (u & Hu & _);
      [lia|].
    exists u. split; [exact Hu|]. unfold Bun.goBack. rewrite Ha.
    rewrite (proj2 (Z.leb_gt _ _)) by lia. cbv zeta. rewrite Hu. cbn [Bun.orUndefined].
    split; [|reflexivity].
    exact (getActiveTab_update s t (Bun.startLoading (Bun.Tab.historyIndex t - 1) u)
             (fun _ => eq_refl) Ha).
  - destruct (at_Some (Bun.Tab.history t) (Bun.Tab.historyIndex t + 1)) as (u & Hu & _);
      [lia|].
    exists u. split; [exact Hu|]. unfold Bun.goForward. rewrite Ha.
    rewrite (proj2 (Z.leb_gt _ _)) by lia. cbv zeta. rewrite Hu. cbn [Bun.orUndefined].
    split; [|reflexivity].
    exact (getActiveTab_update s t (Bun.startLoading (Bun.Tab.historyIndex t + 1) u)
             (fun _ => eq_refl) Ha).
Qed.

(** What [goBack] and [goForward] do to the active tab, in any state. *)
Lemma goBack_active (s : Bun.State) (t : Bun.Tab.t) :
  Bun.getActiveTab s = Some t -> 0 < Bun.Tab.historyIndex t ->
  Bun.getActiveTab (Bun.goBack s) =
  Some (Bun.startLoading (Bun.Tab.historyIndex t - 1)
          (Bun.orUndefined (Bun.at_ (Bun.Tab.history t) (Bun.Tab.historyIndex t - 1))) t).
Proof.
  intros Ha Hi. unfold Bun.goBack. rewrite Ha.
  rewrite (proj2 (Z.leb_gt _ _)) by lia. cbv zeta.
  exact (getActiveTab_update s t
           (Bun.startLoading (Bun.Tab.historyIndex t - 1)
              (Bun.orUndefined
                 (Bun.at_ (Bun.Tab.history t) (Bun.Tab.historyIndex t - 1))))
           (fun _ => eq_refl) Ha).
Qed.

Lemma goForward_active (s : Bun.State) (t : Bun.Tab.t) :
  Bun.getActiveTab s = Some t ->
  Bun.Tab.historyIndex t < Bun.len (Bun.Tab.history t) - 1 ->
  Bun.getActiveTab (Bun.goForward s) =
  Some (Bun.startLoading (Bun.Tab.historyIndex t + 1)
          (Bun.orUndefined (Bun.at_ (Bun.Tab.history t) (Bun.Tab.historyIndex t + 1))) t).
Proof.
  intros Ha Hi. unfold Bun.goForward. rewrite Ha.
  rewrite (proj2 (Z.leb_gt _ _)) by lia. cbv zeta.
  exact (getActiveTab_update s t
           (Bun.startLoading (Bun.Tab.historyIndex t + 1)
              (Bun.orUndefined
                 (Bun.at_ (Bun.Tab.history t) (Bun.Tab.historyIndex t + 1))))
           (fun _ => eq_refl) Ha).
Qed.

(** X15.  In every state the bun process reaches, [goBack] followed by
    [goForward] (and [goForward] followed by [goBack]) leaves the history of
    the active tab as it was and its cursor where it was, and the tab then
    loads the history entry at the cursor. *)
Theorem back_and_forward_cancel (events : list Bun.Event) (t : Bun.Tab.t) :
  let s := Bun.run P events Bun.initialState in
  Bun.getActiveTab s = Some t ->
  (0 < Bun.Tab.historyIndex t ->
   exists t',
     Bun.getActiveTab (Bun.goForward (Bun.goBack s)) = Some t' /\
     Bun.Tab.history t' = Bun.Tab.history t /\
     Bun.Tab.historyIndex t' = Bun.Tab.historyIndex t /\
     Bun.at_ (Bun.Tab.history t) (Bun.Tab.historyIndex t) = Some (Bun.Tab.url t')) /\
  (Bun.Tab.historyIndex t < Bun.len (Bun.Tab.history t) - 1 ->
   exists t',
     Bun.getActiveTab (Bun.goBack (Bun.goForward s)) = Some t' /\
     Bun.Tab.history t' = Bun.Tab.history t /\
     Bun.Tab.historyIndex t' = Bun.Tab.historyIndex t /\
     Bun.at_ (Bun.Tab.history t) (Bun.Tab.historyIndex t) = Some (Bun.Tab.url t')).
Proof.
  intros s Ha. pose proof (reachable_invariant events) as Hs. fold s in Hs.
  destruct (getActiveTab_Some s t Ha) as [Hin _].
  destruct (sessionInvariant_tab s t Hs Hin) as [Hr _].
  split; intros Hi.
  - pose proof (goBack_active s t Ha Hi) as H1.
    pose proof (goForward_active _ _ H1) as H2. cbn [Bun.startLoading Bun.Tab.historyIndex
      Bun.Tab.history] in H2.
    assert (Hlt : Bun.Tab.historyIndex t - 1 < Bun.len (Bun.Tab.history t) - 1) by lia.
    specialize (H2 Hlt).
    replace (Bun.Tab.historyIndex t - 1 + 1) with (Bun.Tab.historyIndex t) in H2 by lia.
    destruct (at_Some (Bun.Tab.history t) (Bun.Tab.historyIndex t)) as (u & Hu & _); [lia|].
    rewrite Hu in H2. eexists. split; [exact H2|]. cbn. repeat split. exact Hu.
  - pose proof (goForward_active s t Ha Hi) as H1.
    pose proof (goBack_active _ _ H1) as H2. cbn [Bun.startLoading Bun.Tab.historyIndex
      Bun.Tab.history] in H2.
    assert (H0 : 0 <= Bun.Tab.historyIndex t).
    { destruct (tabInvariant_cases t (sessionInvariant_tab s t Hs Hin)) as [[E1 E2]|E];
        [|lia]. rewrite E1, E2 in Hi. cbn in Hi. lia. }
    assert (Hlt : 0 < Bun.Tab.historyIndex t + 1) by lia.
    specialize (H2 Hlt).
    replace (Bun.Tab.historyIndex t + 1 - 1) with (Bun.Tab.historyIndex t) in H2 by lia.
    destruct (at_Some (Bun.Tab.history t) (Bun.Tab.historyIndex t)) as (u & Hu & _); [lia|].
    rewrite Hu in H2. eexists. split; [exact H2|]. cbn. repeat split. exact Hu.
Qed.

(** X16.  Whenever [getNavigationState] reports that the session cannot go
    back, [goBack] changes nothing, and likewise for [goForward]: in any
    state. *)
Theorem disabled_navigation_is_noop (s : Bun.State) :
  (Bun.canGoBack (Bun.getNavigationState s) = false -> Bun.goBack s = s) /\
  (Bun.canGoForward (Bun.getNavigationState s) = false -> Bun.goForward s = s).
Proof.
  unfold Bun.getNavigationState, Bun.goBack, Bun.goForward. cbn [Bun.canGoBack Bun.canGoForward].
  destruct (Bun.getActiveTab s) as [t|]; [|split; reflexivity].
  split; intros H.
  - apply Z.ltb_ge in H. now rewrite (proj2 (Z.leb_le _ _)) by lia.
  - apply Z.ltb_ge in H. now rewrite (proj2 (Z.leb_le _ _)) by lia.
Qed.

Lemma updateTab_comm (a b : Z) (f g : Bun.Tab.t -> Bun.Tab.t) (ts : list Bun.Tab.t) :
  (forall t, Bun.Tab.id (f t) = Bun.Tab.id t) ->
  (forall t, Bun.Tab.id (g t) = Bun.Tab.id t) ->
  (forall t, f (g t) = g (f t)) ->
  Bun.updateTab a f (Bun.updateTab b g ts) = Bun.updateTab b g (Bun.updateTab a f ts).
Proof.
  intros Hf Hg Hfg. unfold Bun.updateTab. rewrite !map_map. apply map_ext. intros t.
  destruct (Bun.Tab.id t =? b) eqn:Eb, (Bun.Tab.id t =? a) eqn:Ea;
    rewrite ?Hf, ?Hg, ?Ea, ?Eb; auto.
Qed.

Lemma updateTab_same (id : Z) (ts : list Bun.Tab.t) :
  Bun.updateTab id (fun t => t) ts = ts.
Proof.
  unfold Bun.updateTab. rewrite <- (map_id ts) at 2. apply map_ext. intros t.
  now destruct (Bun.Tab.id t =? id).
Qed.

(** X17.  [stopLoading] cancels nothing: a fetch that settles afterwards is
    committed as it would have been, and stopping before or after the fetch
    settles leads to the same state. *)
Theorem stopLoading_keeps_fetch (k : nat) (result : outcome PageContent.t)
    (s : Bun.State) :
  Bun.pending (Bun.stopLoading s) = Bun.pending s /\
  Bun.resume k result (Bun.stopLoading s) = Bun.stopLoading (Bun.resume k result s).
Proof.
  assert (Hp : Bun.pending (Bun.stopLoading s) = Bun.pending s).
  { unfold Bun.stopLoading. now destruct (Bun.getActiveTab s). }
  split; [exact Hp|].
  destruct (nth_error (Bun.pending s) k) as [p|] eqn:Hk.
  - set (G := match result, Bun.handler p with
              | Ok content, Bun.Navigate => Bun.commitNavigate content
              | Ok content, Bun.History => Bun.commitHistory content
              | Ok content, Bun.Reload => Bun.commitReload content
              | Throw _, Bun.Navigate => Bun.setLoading false
              | Throw _, _ => fun t => t
              end).
    assert (Gid : forall t, Bun.Tab.id (G t) = Bun.Tab.id t).
    { intros t. unfold G. destruct result, (Bun.handler p); reflexivity. }
    assert (Gsl : forall t, Bun.setLoading false (G t) = G (Bun.setLoading false t)).
    { intros t. unfold G. destruct result, (Bun.handler p); reflexivity. }
    assert (R : forall s0, Bun.pending s0 = Bun.pending s ->
              Bun.resume k result s0 =
              {| Bun.tabs := Bun.updateTab (Bun.tabRef p) G (Bun.tabs s0);
                 Bun.activeTabId := Bun.activeTabId s0;
                 Bun.nextTabId := Bun.nextTabId s0;
                 Bun.pending := Bun.splice1 k (Bun.pending s) |}).
    { intros s0 E. unfold Bun.resume. rewrite E, Hk. unfold G.
      destruct result, (Bun.handler p); cbn [Bun.withTabs Bun.tabs Bun.activeTabId
        Bun.nextTabId Bun.pending]; rewrite ?updateTab_same; reflexivity. }
    rewrite (R _ Hp), (R s eq_refl).
    set (s2 := {| Bun.tabs := Bun.updateTab (Bun.tabRef p) G (Bun.tabs s);
                  Bun.activeTabId := Bun.activeTabId s;
                  Bun.nextTabId := Bun.nextTabId s;
                  Bun.pending := Bun.splice1 k (Bun.pending s) |}).
    assert (Ha2 : Bun.getActiveTab s2 =
                  option_map (fun t => if Bun.Tab.id t =? Bun.tabRef p then G t else t)
                             (Bun.getActiveTab s)).
    { unfold Bun.getActiveTab, s2. cbn [Bun.tabs Bun.activeTabId].
      apply find_updateTab. exact Gid. }
    unfold Bun.stopLoading. rewrite Ha2.
    destruct (Bun.getActiveTab s) as [tab|] eqn:Ha; cbn [option_map]; [|reflexivity].
    unfold s2. cbn [Bun.withTabs Bun.tabs Bun.activeTabId Bun.nextTabId Bun.pending].
    f_equal. rewrite (updateTab_comm _ _ G (Bun.setLoading false));
      [| exact Gid | reflexivity | intros t; symmetry; apply Gsl].
    f_equal. now destruct (Bun.Tab.id tab =? Bun.tabRef p); rewrite ?Gid.
  - assert (E : forall s0, Bun.pending s0 = Bun.pending s -> Bun.resume k result s0 = s0).
    { intros s0 E. unfold Bun.resume. now rewrite E, Hk. }
    now rewrite (E _ Hp), (E s eq_refl).
Qed.

Lemma findIndex_None (tabId : Z) (ts : list Bun.Tab.t) :
  Bun.findIndex tabId ts = None -> forall t, In t ts -> Bun.Tab.id t <> tabId.
Proof.
  induction ts as [|x ts IH]; intros H t Hin; [destruct Hin|].
  cbn [Bun.findIndex] in H. destruct (Bun.Tab.id x =? tabId) eqn:E; [discriminate H|].
  destruct (Bun.findIndex tabId ts); [discriminate H|].
  destruct Hin as [<-|Hin]; [now apply Z.eqb_neq | now apply IH].
Qed.

Lemma findIndex_Some_In (tabId : Z) (ts : list Bun.Tab.t) :
  forall index, Bun.findIndex tabId ts = Some index ->
    exists t, In t ts /\ Bun.Tab.id t = tabId.
Proof.
  induction ts as [|x ts IH]; intros index H; [discriminate H|].
  cbn [Bun.findIndex] in H. destruct (Bun.Tab.id x =? tabId) eqn:E.
  - exists x. split; [now left | now apply Z.eqb_eq].
  - destruct (Bun.findIndex tabId ts) as [i|]; [|discriminate H].
    destruct (IH i eq_refl) as (t & Hin & Hid). exists t. split; [now right | exact Hid].
Qed.

Lemma findIndex_splice_gone (tabId : Z) (ts : list Bun.Tab.t) :
  NoDup (map Bun.Tab.id ts) ->
  forall index, Bun.findIndex tabId ts = Some index ->
    forall t, In t (Bun.splice1 index ts) -> Bun.Tab.id t <> tabId.
Proof.
  induction ts as [|x ts IH]; intros Hn index H t Hin; [discriminate H|].
  cbn [map] in Hn. inversion Hn as [|? ? Hx Hn']; subst.
  cbn [Bun.findIndex] in H. destruct (Bun.Tab.id x =? tabId) eqn:E.
  - injection H as <-. apply Z.eqb_eq in E. unfold Bun.splice1 in Hin. cbn in Hin.
    intros F. apply Hx. rewrite E, <- F. now apply in_map.
  - destruct (Bun.findIndex tabId ts) as [i|] eqn:Hi; [|discriminate H].
    injection H as <-. rewrite splice1_cons in Hin. destruct Hin as [<-|Hin].
    + now apply Z.eqb_neq.
    + exact (IH Hn' i eq_refl t Hin).
Qed.

(** X18.  In every state the bun process reaches, [closeTab] removes the
    tab with the id given and no other: no tab with that id is left, every
    other tab is still there, the only tab that can be new is the empty one
    that replaces the last tab closed, the active tab stays active unless it
    is the one closed, and the fetches that are waiting keep waiting. *)
Theorem closeTab_removes_only_that_tab (events : list Bun.Event) (tabId : Z) :
  let s := Bun.run P events Bun.initialState in
  let s' := Bun.closeTab tabId s in
  (forall t, In t (Bun.tabs s') -> Bun.Tab.id t <> tabId) /\
  (forall t, In t (Bun.tabs s) -> Bun.Tab.id t <> tabId -> In t (Bun.tabs s')) /\
  (forall t, In t (Bun.tabs s') ->
     In t (Bun.tabs s) \/ t = Bun.newTab (Bun.nextTabId s) (str "New Tab")) /\
  (Bun.activeTabId s <> tabId -> Bun.activeTabId s' = Bun.activeTabId s) /\
  Bun.pending s' = Bun.pending s.
Proof.
  intros s s'. destruct (reachable_invariant events) as [(_ & Hn & Hb) _].
  fold s in Hn, Hb. subst s'. unfold Bun.closeTab.
  destruct (Bun.findIndex tabId (Bun.tabs s)) as [index|] eqn:F.
  - pose proof (findIndex_splice_gone tabId _ Hn index F) as Hgone.
    pose proof (fun t => findIndex_keeps tabId t (Bun.tabs s) index F) as Hkeep.
    pose proof (fun t => @splice1_In _ index (Bun.tabs s) t) as Hold.
    assert (Hfresh : Bun.nextTabId s <> tabId).
    { destruct (findIndex_Some_In tabId _ index F) as (x & Hin & Hx).
      rewrite Forall_forall in Hb. specialize (Hb x Hin). lia. }
    cbv zeta. set (ts := Bun.splice1 index (Bun.tabs s)) in *.
    destruct (Bun.activeTabId s =? tabId) eqn:A.
    + destruct (0 <? Bun.len ts).
      * destruct (Bun.at_ ts (Z.min (Z.of_nat index) (Bun.len ts - 1))) as [tab|];
          cbn [Bun.withTabs Bun.tabs Bun.activeTabId Bun.pending];
          (split; [exact Hgone|]); (split; [exact Hkeep|]);
          (split; [intros t Ht; left; now apply Hold|]);
          (split; [|reflexivity]); apply Z.eqb_eq in A; intros; congruence.
      * cbn [Bun.tabs Bun.activeTabId Bun.pending].
        split; [|split; [|split; [|split; [|reflexivity]]]].
        -- intros t Ht. apply in_app_iff in Ht as [Ht|[<-|[]]]; [now apply Hgone|].
           exact Hfresh.
        -- intros t Ht Hid. apply in_app_iff. left. now apply Hkeep.
        -- intros t Ht. apply in_app_iff in Ht as [Ht|[<-|[]]];
             [left; now apply Hold | now right].
        -- apply Z.eqb_eq in A. intros; congruence.
    + cbn [Bun.withTabs Bun.tabs Bun.activeTabId Bun.pending].
      split; [exact Hgone|]. split; [exact Hkeep|].
      split; [intros t Ht; left; now apply Hold|]. split; reflexivity.
  - split; [exact (findIndex_None tabId _ F)|]. split; [auto|].
    split; [auto|]. split; reflexivity.
Qed.

Lemma updateTab_absent (id : Z) (f : Bun.Tab.t -> Bun.Tab.t) (ts : list Bun.Tab.t) :
  ~ In id (map Bun.Tab.id ts) -> Bun.updateTab id f ts = ts.
Proof.
  intros H. unfold Bun.updateTab. rewrite <- (map_id ts) at 2. apply map_ext_in.
  intros t Hin. destruct (Bun.Tab.id t =? id) eqn:E; [|reflexivity].
  apply Z.eqb_eq in E. exfalso. apply H. rewrite <- E. now apply in_map.
Qed.

(** X19.  A fetch that settles after its tab was closed changes no tab of
    the session and not the active tab: the handler is only taken off the
    list of those waiting. *)
Theorem settle_after_close_changes_no_tab
    (k : nat) (result : outcome PageContent.t) (s : Bun.State) (p : Bun.Pending) :
  nth_error (Bun.pending s) k = Some p ->
  ~ In (Bun.tabRef p) (map Bun.Tab.id (Bun.tabs s)) ->
  Bun.tabs (Bun.resume k result s) = Bun.tabs s /\
  Bun.activeTabId (Bun.resume k result s) = Bun.activeTabId s /\
  Bun.pending (Bun.resume k result s) = Bun.splice1 k (Bun.pending s).
Proof.
  intros Hk Habs. unfold Bun.resume. rewrite Hk.
  destruct result, (Bun.handler p);
    cbn [Bun.withTabs Bun.tabs Bun.activeTabId Bun.pending];
    rewrite ?(updateTab_absent _ _ _ Habs); repeat split.
Qed.

(** X20.  In every state the bun process reaches, [switchTab] with the id of
    a tab makes that very tab the active one and changes neither the tabs nor
    the fetches that are waiting; with an id no tab has, it changes
    nothing. *)
Theorem switchTab_activates (events : list Bun.Event) (tabId : Z) :
  let s := Bun.run P events Bun.initialState in
  let s' := Bun.switchTab tabId s in
  Bun.tabs s' = Bun.tabs s /\
  Bun.pending s' = Bun.pending s /\
  (forall t, In t (Bun.tabs s) -> Bun.Tab.id t = tabId ->
     Bun.getActiveTab s' = Some t) /\
  ((forall t, In t (Bun.tabs s) -> Bun.Tab.id t <> tabId) -> s' = s).
Proof.
  intros s s'. destruct (reachable_invariant events) as [(_ & Hn & _) _].
  fold s in Hn. subst s'. unfold Bun.switchTab.
  destruct (find (fun t => Bun.Tab.id t =? tabId) (Bun.tabs s)) as [x|] eqn:F.
  - cbn [Bun.tabs Bun.pending]. split; [reflexivity|]. split; [reflexivity|].
    apply find_some in F as [Hx Hid]. apply Z.eqb_eq in Hid. split.
    + intros t Hin Ht. unfold Bun.getActiveTab. cbn [Bun.tabs Bun.activeTabId].
      destruct (find (fun t0 => Bun.Tab.id t0 =? tabId) (Bun.tabs s)) as [y|] eqn:F2.
      * apply find_some in F2 as [Hy Hyid]. apply Z.eqb_eq in Hyid. f_equal.
        apply (NoDup_map_eq (Bun.tabs s) y t Hn Hy Hin). congruence.
      * exfalso. apply (find_none _ _ F2) in Hin. apply Z.eqb_neq in Hin. congruence.
    + intros H. exfalso. exact (H x Hx Hid).
  - repeat split; try reflexivity. intros t Hin Ht.
    apply (find_none _ _ F) in Hin. apply Z.eqb_neq in Hin. congruence.
Qed.

Lemma find_app_none {A} (p : A -> bool) (l l' : list A) :
  find p l = None -> find p (l ++ l') = find p l'.
Proof.
  induction l as [|x l IH]; intros H; [reflexivity|]. cbn [find app] in *.
  destruct (p x); [discriminate H | now apply IH].
Qed.

(** X21.  In every state the bun process reaches, [createTab] appends one
    empty tab whose id no tab has, and that tab is the active one afterwards,
    whether or not it is given a URL; it starts no fetch and leaves the
    tabs it found as they were. *)
Theorem createTab_adds_fresh_active_tab (events : list Bun.Event)
    (url : option jsstring) :
  let s := Bun.run P events Bun.initialState in
  let fresh := Bun.newTab (Bun.nextTabId s) (str "New Tab") in
  Bun.tabs (Bun.createTab url s) = Bun.tabs s ++ [fresh] /\
  Bun.getActiveTab (Bun.createTab url s) = Some fresh /\
  Forall (fun t => Bun.Tab.id t < Bun.Tab.id fresh) (Bun.tabs s) /\
  Bun.pending (Bun.createTab url s) = Bun.pending s.
Proof.
  intros s fresh. destruct (reachable_invariant events) as [(_ & _ & Hb) _].
  fold s in Hb. split; [reflexivity|]. split; [|split; [exact Hb | reflexivity]].
  unfold Bun.getActiveTab, Bun.createTab. cbn [Bun.tabs Bun.activeTabId].
  assert (E : find (fun t => Bun.Tab.id t =? Bun.nextTabId s) (Bun.tabs s) = None).
  { destruct (find _ (Bun.tabs s)) as [x|] eqn:F; [|reflexivity]. exfalso.
    apply find_some in F as [Hx Hid]. apply Z.eqb_eq in Hid.
    rewrite Forall_forall in Hb. specialize (Hb x Hx). lia. }
  rewrite (find_app_none _ _ _ E). cbn [find Bun.newTab Bun.Tab.id].
  now rewrite Z.eqb_refl.
Qed.

Lemma at_snoc {A} (l : list A) (x : A) : Bun.at_ (l ++ [x]) (Bun.len l) = Some x.
Proof.
  unfold Bun.at_, Bun.len. rewrite (proj2 (Z.ltb_ge _ _)) by lia.
  rewrite Nat2Z.id. exact (nth_error_snoc l x []).
Qed.

Lemma pushHistory_entry (history : list jsstring) (i : Z) (url : jsstring) :
  Bun.at_ (fst (Bun.pushHistory history i url)) (snd (Bun.pushHistory history i url)) =
  Some url.
Proof.
  unfold Bun.pushHistory. cbv zeta.
  set (h := if i <? Bun.len history - 1 then Bun.slice0 history (i + 1) else history).
  destruct (Bun.strictEq (Bun.at_ h (Bun.len h - 1)) url) eqn:E; cbn [negb fst snd].
  - now apply strictEq_Some.
  - rewrite len_app1. replace (Bun.len h + 1 - 1) with (Bun.len h) by lia.
    apply at_snoc.
Qed.

(** X22.  When the fetch of a [navigate] settles with a document, the tab
    shows that document, is no longer loading, and its cursor is on the last
    history entry, which is the URL of the document: there is nothing to go
    forward to. *)
Theorem completed_navigation_is_last_entry
    (s : Bun.State) (t : Bun.Tab.t) (k : nat) (p : Bun.Pending)
    (content : PageContent.t) :
  Bun.getActiveTab s = Some t ->
  nth_error (Bun.pending s) k = Some p ->
  Bun.handler p = Bun.Navigate -> Bun.tabRef p = Bun.Tab.id t ->
  let s' := Bun.resume k (Ok content) s in
  exists t',
    Bun.getActiveTab s' = Some t' /\
    Bun.Tab.url t' = PageContent.url content /\
    Bun.Tab.title t' = PageContent.title content /\
    Bun.Tab.content t' = Some content /\
    Bun.Tab.isLoading t' = false /\
    Bun.Tab.historyIndex t' = Bun.len (Bun.Tab.history t') - 1 /\
    Bun.at_ (Bun.Tab.history t') (Bun.Tab.historyIndex t') = Some (PageContent.url content) /\
    Bun.canGoForward (Bun.getNavigationState s') = false.
Proof.
  intros Ha Hk Hh Hr s'. destruct (resume_navigate s t k p content Ha Hk Hh Hr) as [H _].
  fold s' in H. exists (Bun.commitNavigate content t). split; [exact H|].
  pose proof (pushHistory_last (Bun.Tab.history t) (Bun.Tab.historyIndex t)
                (PageContent.url content)) as [_ Hl].
  pose proof (pushHistory_entry (Bun.Tab.history t) (Bun.Tab.historyIndex t)
                (PageContent.url content)) as He.
  do 4 (split; [reflexivity|]). split; [exact Hl|]. split; [exact He|].
  unfold Bun.getNavigationState. rewrite H. cbn [Bun.canGoForward].
  apply Z.ltb_ge. change (Bun.Tab.historyIndex (Bun.commitNavigate content t))
    with (snd (Bun.pushHistory (Bun.Tab.history t) (Bun.Tab.historyIndex t)
                 (PageContent.url content))).
  change (Bun.Tab.history (Bun.commitNavigate content t))
    with (fst (Bun.pushHistory (Bun.Tab.history t) (Bun.Tab.historyIndex t)
                 (PageContent.url content))).
  rewrite Hl. lia.
Qed.

(** X1.  A navigation whose fetch fails (in [fetch] itself, in the decoding,
    in the URL parser or in the converter) still ends as a completed one.
    [navigate], on a session with an active tab and a URL that normalizes to
    an address other than the start page, starts the fetch; [fetchPage] turns
    what is thrown into the error document for that address; and when it
    settles the handler commits it.  The same tab is active, shows the error
    document under the title [Error], is no longer loading, has the address
    as the last entry of its history with the cursor on it, and the fetches
    that were waiting before are the ones waiting after. *)
Theorem failed_navigation_commits_error_page
    (settings : BrowserSettings.t) (fetched : outcome Response)
    (s : Bun.State) (t : Bun.Tab.t) (url normalizedUrl message : jsstring) :
  Bun.getActiveTab s = Some t ->
  Bun.normalizeUrl url = Ok normalizedUrl -> normalizedUrl <> [] ->
  normalizedUrl <> START_PAGE_URL ->
  bind fetched (Bun.processResponse P settings) = Throw message ->
  let s' :=
    Bun.resume (length (Bun.pending s))
               (Bun.fetchPage P settings fetched normalizedUrl)
               (Bun.navigate url s) in
  exists t',
    Bun.getActiveTab s' = Some t' /\
    Bun.Tab.id t' = Bun.Tab.id t /\
    Bun.Tab.url t' = normalizedUrl /\
    Bun.Tab.title t' = str "Error" /\
    Bun.Tab.content t' = Some (Bun.errorPage normalizedUrl message) /\
    Bun.Tab.isLoading t' = false /\
    Bun.Tab.historyIndex t' = Bun.len (Bun.Tab.history t') - 1 /\
    Bun.at_ (Bun.Tab.history t') (Bun.Tab.historyIndex t') = Some normalizedUrl /\
    Bun.pending s' = Bun.pending s.
Proof.
  intros Ha Hn Hne Hu Hf s'. subst s'. unfold Bun.fetchPage.
  rewrite (jsstring_eqb_neq Hu), Hf.
  set (content := Bun.errorPage normalizedUrl message).
  destruct (navigate_suspends s t url normalizedUrl Ha Hn Hne) as (t1 & Ha1 & Hid & Hp).
  set (p := {| Bun.handler := Bun.Navigate; Bun.tabRef := Bun.Tab.id t;
               Bun.requested := normalizedUrl |}) in *.
  assert (Hk : nth_error (Bun.pending (Bun.navigate url s)) (length (Bun.pending s)) =
               Some p) by (rewrite Hp; apply nth_error_snoc).
  destruct (resume_navigate (Bun.navigate url s) t1 (length (Bun.pending s)) p content
              Ha1 Hk eq_refl (eq_sym Hid)) as [H Hp'].
  exists (Bun.commitNavigate content t1). split; [exact H|].
  pose proof (pushHistory_last (Bun.Tab.history t1) (Bun.Tab.historyIndex t1)
                (PageContent.url content)) as [_ Hl].
  pose proof (pushHistory_entry (Bun.Tab.history t1) (Bun.Tab.historyIndex t1)
                (PageContent.url content)) as He.
  split; [exact Hid|]. do 4 (split; [reflexivity|]). split; [exact Hl|].
  split; [exact He|]. rewrite Hp', Hp, splice1_snoc. apply app_nil_r.
Qed.

Lemma orNull_Some (v : option jsstring) (url : jsstring) :
  Bun.strictEq (Bun.orNull v) url = true -> v = Some url.
Proof.
  destruct v as [[|c x]|]; cbn; intros H; try discriminate H.
  apply jsstring_eqb_eq in H. now rewrite H.
Qed.

(** X23.  After [onWebviewNavigated] the active tab is at the URL reported
    and the history entry at its cursor is that URL, whether the cursor
    stayed, stepped back, stepped forward or a new entry was appended; the
    document of the tab, its loading flag and the waiting fetches are left
    alone. *)
Theorem webview_navigation_sets_cursor_entry
    (url : jsstring) (s : Bun.State) (t : Bun.Tab.t) :
  Bun.getActiveTab s = Some t ->
  let s' := Bun.onWebviewNavigated P url s in
  exists t',
    Bun.getActiveTab s' = Some t' /\
    Bun.Tab.url t' = url /\
    Bun.at_ (Bun.Tab.history t') (Bun.Tab.historyIndex t') = Some url /\
    Bun.Tab.content t' = Bun.Tab.content t /\
    Bun.Tab.isLoading t' = Bun.Tab.isLoading t /\
    Bun.pending s' = Bun.pending s.
Proof.
  intros Ha s'. subst s'. unfold Bun.onWebviewNavigated. rewrite Ha. cbv zeta.
  destruct (Bun.strictEq (Bun.orNull (Bun.at_ (Bun.Tab.history t) (Bun.Tab.historyIndex t)))
              url) eqn:E1;
    [|destruct (Bun.strictEq
                  (if 0 <? Bun.Tab.historyIndex t
                   then Bun.at_ (Bun.Tab.history t) (Bun.Tab.historyIndex t - 1)
                   else None) url) eqn:E2;
      [|destruct (Bun.strictEq
                    (if Bun.Tab.historyIndex t <? Bun.len (Bun.Tab.history t) - 1
                     then Bun.at_ (Bun.Tab.history t) (Bun.Tab.historyIndex t + 1)
                     else None) url) eqn:E3]];
    (eexists; split;
     [apply getActiveTab_update; [intros; reflexivity | exact Ha]|]);
    cbn [Bun.Tab.url Bun.Tab.history Bun.Tab.historyIndex Bun.Tab.content
         Bun.Tab.isLoading Bun.withTabs Bun.pending];
    (split; [reflexivity|]); (split; [|repeat split]).
  - now apply orNull_Some.
  - apply strictEq_Some in E2. now destruct (0 <? Bun.Tab.historyIndex t).
  - apply strictEq_Some in E3.
    now destruct (Bun.Tab.historyIndex t <? Bun.len (Bun.Tab.history t) - 1).
  - rewrite len_app1.
    match goal with |- Bun.at_ (?h ++ _) _ = _ =>
      replace (Bun.len h + 1 - 1) with (Bun.len h) by lia end.
    apply at_snoc.
Qed.

(** X24.  A fetch that settles for a tab other than the active one leaves
    the active tab exactly as it was: what it commits goes to the tab that
    started it. *)
Theorem settle_in_background_keeps_active_tab
    (k : nat) (result : outcome PageContent.t) (s : Bun.State) (p : Bun.Pending) :
  nth_error (Bun.pending s) k = Some p ->
  Bun.tabRef p <> Bun.activeTabId s ->
  Bun.getActiveTab (Bun.resume k result s) = Bun.getActiveTab s /\
  Bun.activeTabId (Bun.resume k result s) = Bun.activeTabId s /\
  map Bun.Tab.id (Bun.tabs (Bun.resume k result s)) = map Bun.Tab.id (Bun.tabs s).
Proof.
  intros Hk Hne. unfold Bun.resume. rewrite Hk.
  assert (F : forall f, (forall t, Bun.Tab.id (f t) = Bun.Tab.id t) ->
            find (fun t => Bun.Tab.id t =? Bun.activeTabId s)
                 (Bun.updateTab (Bun.tabRef p) f (Bun.tabs s)) =
            find (fun t => Bun.Tab.id t =? Bun.activeTabId s) (Bun.tabs s)).
  { intros f Hf. rewrite (find_updateTab _ _ f _ Hf).
    destruct (find _ (Bun.tabs s)) as [x|] eqn:E; [|reflexivity]. cbn [option_map].
    apply find_some in E as [_ E]. apply Z.eqb_eq in E.
    rewrite (proj2 (Z.eqb_neq _ _)) by congruence. reflexivity. }
  unfold Bun.getActiveTab.
  destruct result, (Bun.handler p);
    cbn [Bun.withTabs Bun.tabs Bun.activeTabId Bun.pending];
    rewrite ?F by reflexivity; rewrite ?updateTab_ids by reflexivity;
    repeat split.
Qed.

End SessionBehaviour.

Section Settings.

(** X25.  [updateSettings] answers [needsRefresh] exactly when one of the
    three settings changed, so an update that repeats the current values, and
    the same update sent a second time, ask for no refresh. *)
Theorem updateSettings_reports_changes
    (newSettings : PartialSettings.t) (settings : BrowserSettings.t) :
  let settings' := fst (Bun.updateSettings newSettings settings) in
  (snd (Bun.updateSettings newSettings settings) = false <-> settings' = settings) /\
  Bun.updateSettings newSettings settings' = (settings', false) /\
  Shim.updateSettings newSettings settings' = (settings', false).
Proof.
  destruct settings as [a b c], newSettings as [[x|] [y|] [z|]];
    destruct a, b, c; try destruct x; try destruct y; try destruct z;
    cbn; (split; [split; intros H; (reflexivity || discriminate H) |]);
    split; reflexivity.
Qed.

End Settings.

Lemma history_step_requests_entry_witness :
  Bun.pending
    (Bun.goForward (Bun.run Sample.platform Sample.backTrace Bun.initialState)) =
  Bun.pending (Bun.run Sample.platform Sample.backTrace Bun.initialState) ++
  [{| Bun.handler := Bun.History; Bun.tabRef := 1; Bun.requested := Sample.urlB |}].
Proof.
  destruct (proj2 (history_step_requests_entry Sample.platform Sample.backTrace
                     Sample.backTab eq_refl) eq_refl) as (u & Hu & _ & Hp).
  vm_compute in Hu. injection Hu as <-. exact Hp.
Defined.

Lemma back_and_forward_cancel_witness :
  exists t',
    Bun.getActiveTab
      (Bun.goBack
         (Bun.goForward (Bun.run Sample.platform Sample.backTrace Bun.initialState))) =
      Some t' /\
    Bun.Tab.history t' = [Sample.urlA; Sample.urlB] /\
    Bun.Tab.historyIndex t' = 0%Z /\
    Bun.at_ [Sample.urlA; Sample.urlB] 0%Z = Some (Bun.Tab.url t').
Proof.
  exact (proj2 (back_and_forward_cancel Sample.platform Sample.backTrace
                  Sample.backTab eq_refl) eq_refl).
Defined.

Lemma closeTab_removes_only_that_tab_witness :
  Bun.activeTabId
    (Bun.closeTab 1 (Bun.run Sample.platform [Bun.ECreateTab None] Bun.initialState)) =
  2%Z.
Proof.
  apply (proj1 (proj2 (proj2 (proj2
           (closeTab_removes_only_that_tab Sample.platform [Bun.ECreateTab None] 1))))).
  vm_compute. discriminate.
Defined.

Lemma settle_after_close_changes_no_tab_witness :
  Bun.tabs
    (Bun.resume 0 (Ok (Sample.page Sample.urlA))
       (Bun.run Sample.platform Sample.closedTrace Bun.initialState)) =
  [Bun.newTab 2 (str "New Tab")].
Proof.
  apply (proj1 (settle_after_close_changes_no_tab 0 (Ok (Sample.page Sample.urlA))
                  (Bun.run Sample.platform Sample.closedTrace Bun.initialState)
                  Sample.closedPending eq_refl
                  ltac:(vm_compute; intros [H|[]]; discriminate H))).
Defined.

Lemma switchTab_activates_witness :
  Bun.getActiveTab
    (Bun.switchTab 1 (Bun.run Sample.platform [Bun.ECreateTab None] Bun.initialState)) =
  Some (Bun.newTab 1 (str "New Tab")).
Proof.
  apply (proj1 (proj2 (proj2
           (switchTab_activates Sample.platform [Bun.ECreateTab None] 1)))).
  - left. reflexivity.
  - reflexivity.
Defined.

Lemma completed_navigation_is_last_entry_witness :
  exists t',
    Bun.getActiveTab
      (Bun.resume 0 (Ok (Sample.page Sample.urlA))
         (Bun.run Sample.platform [Bun.ENavigate Sample.urlA] Bun.initialState)) =
      Some t' /\
    Bun.Tab.url t' = Sample.urlA /\
    Bun.Tab.title t' = str "Page" /\
    Bun.Tab.content t' = Some (Sample.page Sample.urlA) /\
    Bun.Tab.isLoading t' = false /\
    Bun.Tab.historyIndex t' = (Bun.len (Bun.Tab.history t') - 1)%Z /\
    Bun.at_ (Bun.Tab.history t') (Bun.Tab.historyIndex t') = Some Sample.urlA /\
    Bun.canGoForward
      (Bun.getNavigationState
         (Bun.resume 0 (Ok (Sample.page Sample.urlA))
            (Bun.run Sample.platform [Bun.ENavigate Sample.urlA] Bun.initialState))) =
      false.
Proof.
  exact (completed_navigation_is_last_entry
           (Bun.run Sample.platform [Bun.ENavigate Sample.urlA] Bun.initialState)
           (Bun.startLoading (-1) Sample.urlA (Bun.newTab 1 (str "New Tab")))
           0 Sample.closedPending (Sample.page Sample.urlA)
           eq_refl eq_refl eq_refl eq_refl).
Defined.

Lemma failed_navigation_commits_error_page_witness :
  exists t',
    Bun.getActiveTab
      (Bun.resume 0
         (Bun.fetchPage Sample.platform Bun.settings0 (Throw (str "offline"))
            Sample.urlA)
         (Bun.navigate (str " a.example/ ") Bun.initialState)) = Some t' /\
    Bun.Tab.id t' = 1%Z /\
    Bun.Tab.url t' = Sample.urlA /\
    Bun.Tab.title t' = str "Error" /\
    Bun.Tab.content t' = Some (Bun.errorPage Sample.urlA (str "offline")) /\
    Bun.Tab.isLoading t' = false /\
    Bun.Tab.historyIndex t' = (Bun.len (Bun.Tab.history t') - 1)%Z /\
    Bun.at_ (Bun.Tab.history t') (Bun.Tab.historyIndex t') = Some Sample.urlA /\
    Bun.pending
      (Bun.resume 0
         (Bun.fetchPage Sample.platform Bun.settings0 (Throw (str "offline"))
            Sample.urlA)
         (Bun.navigate (str " a.example/ ") Bun.initialState)) = [].
Proof.
  exact (failed_navigation_commits_error_page Sample.platform Bun.settings0
           (Throw (str "offline")) Bun.initialState (Bun.newTab 1 (str "New Tab"))
           (str " a.example/ ") Sample.urlA (str "offline")
           eq_refl eq_refl ltac:(discriminate) ltac:(vm_compute; discriminate) eq_refl).
Defined.

Lemma webview_navigation_sets_cursor_entry_witness :
  exists t',
    Bun.getActiveTab
      (Bun.onWebviewNavigated Sample.platform Sample.urlB
         (Bun.run Sample.platform Sample.backTrace Bun.initialState)) = Some t' /\
    Bun.Tab.url t' = Sample.urlB /\
    Bun.at_ (Bun.Tab.history t') (Bun.Tab.historyIndex t') = Some Sample.urlB /\
    Bun.Tab.content t' = Some (Sample.page Sample.urlB) /\
    Bun.Tab.isLoading t' = true /\
    Bun.pending
      (Bun.onWebviewNavigated Sample.platform Sample.urlB
         (Bun.run Sample.platform Sample.backTrace Bun.initialState)) =
    Bun.pending (Bun.run Sample.platform Sample.backTrace Bun.initialState).
Proof.
  exact (webview_navigation_sets_cursor_entry Sample.platform Sample.urlB
           (Bun.run Sample.platform Sample.backTrace Bun.initialState)
           Sample.backTab eq_refl).
Defined.

Lemma settle_in_background_keeps_active_tab_witness :
  Bun.getActiveTab
    (Bun.resume 0 (Ok (Sample.page Sample.urlA))
       (Bun.run Sample.platform [Bun.ENavigate Sample.urlA; Bun.ECreateTab None]
                Bun.initialState)) =
  Some (Bun.newTab 2 (str "New Tab")).
Proof.
  apply (proj1 (settle_in_background_keeps_active_tab 0 (Ok (Sample.page Sample.urlA))
                  (Bun.run Sample.platform [Bun.ENavigate Sample.urlA; Bun.ECreateTab None]
                           Bun.initialState)
                  Sample.closedPending eq_refl ltac:(vm_compute; discriminate))).
Defined.

(* ================================================================== *)
(** * Invariants of the view shim *)
(* ================================================================== *)

Section ShimInvariants.

Local Open Scope Z_scope.

Lemma shim_updateTab_ids (id : Z) (f : Shim.ShimTab.t -> Shim.ShimTab.t)
    (ts : list Shim.ShimTab.t) :
  (forall t, Shim.ShimTab.id (f t) = Shim.ShimTab.id t) ->
  map Shim.ShimTab.id (Shim.updateTab id f ts) = map Shim.ShimTab.id ts.
Proof.
  intros Hf. unfold Shim.updateTab. rewrite map_map. apply map_ext. intros t.
  destruct (Shim.ShimTab.id t =? id); [apply Hf | reflexivity].
Qed.

Lemma shim_updateTab_In (id : Z) (f : Shim.ShimTab.t -> Shim.ShimTab.t)
    (ts : list Shim.ShimTab.t) (x : Shim.ShimTab.t) :
  In x (Shim.updateTab id f ts) ->
  exists y, In y ts /\ x = (if Shim.ShimTab.id y =? id then f y else y).
Proof.
  unfold Shim.updateTab. intros H. apply in_map_iff in H as (y & <- & Hy).
  exists y. split; [exact Hy | reflexivity].
Qed.

Lemma shim_NoDup_eq (ts : list Shim.ShimTab.t) (a b : Shim.ShimTab.t) :
  NoDup (map Shim.ShimTab.id ts) -> In a ts -> In b ts ->
  Shim.ShimTab.id a = Shim.ShimTab.id b -> a = b.
Proof.
  induction ts as [|x ts IH]; intros Hn Ha Hb E; [destruct Ha|].
  cbn [map] in Hn. inversion Hn as [|? ? Hx Hn']; subst.
  destruct Ha as [->|Ha], Hb as [->|Hb].
  - reflexivity.
  - exfalso. apply Hx. rewrite E. now apply in_map.
  - exfalso. apply Hx. rewrite <- E. now apply in_map.
  - now apply IH.
Qed.

Lemma shimTabInvariant_intro (history : list jsstring) (i : Z) (t : Shim.ShimTab.t) :
  Shim.ShimTab.history t = history -> Shim.ShimTab.historyIndex t = i ->
  (history = [] /\ i = -1) \/ (0 <= i < Bun.len history) ->
  shimTabInvariant t.
Proof.
  intros Hh Hi H. unfold shimTabInvariant. rewrite Hh, Hi.
  destruct H as [[-> ->] | H].
  - cbn. split; [lia | tauto].
  - split; [lia|]. split; [lia|]. intros ->. cbn in H. lia.
Qed.

Lemma shimTabInvariant_cases (t : Shim.ShimTab.t) :
  shimTabInvariant t ->
  (Shim.ShimTab.history t = [] /\ Shim.ShimTab.historyIndex t = -1) \/
  (0 <= Shim.ShimTab.historyIndex t < Bun.len (Shim.ShimTab.history t)).
Proof.
  intros [Hr Hi]. destruct (Z.eq_dec (Shim.ShimTab.historyIndex t) (-1)) as [E|E].
  - left. split; [now apply Hi | exact E].
  - right. lia.
Qed.

(** Updating the tabs with id [id0] by a function that keeps the id and
    takes each of them to a tab that satisfies the invariant. *)
Lemma shimTabsInvariant_update (s : Shim.State) (id0 : Z)
    (f : Shim.ShimTab.t -> Shim.ShimTab.t) :
  (forall x, Shim.ShimTab.id (f x) = Shim.ShimTab.id x) ->
  (forall y, In y (Shim.tabs s) -> Shim.ShimTab.id y = id0 -> shimTabInvariant (f y)) ->
  shimTabsInvariant s ->
  shimTabsInvariant (Shim.withTabs s (Shim.updateTab id0 f (Shim.tabs s))).
Proof.
  intros Hf Ht (Hinv & Hn & Hb). unfold shimTabsInvariant.
  cbn [Shim.withTabs Shim.tabs Shim.nextTabId]. split; [|split].
  - apply Forall_forall. intros x Hx. apply shim_updateTab_In in Hx as (y & Hy & ->).
    rewrite Forall_forall in Hinv.
    destruct (Shim.ShimTab.id y =? id0) eqn:E; [|now apply Hinv].
    apply Z.eqb_eq in E. now apply Ht.
  - now rewrite shim_updateTab_ids.
  - apply Forall_forall. intros x Hx. apply shim_updateTab_In in Hx as (y & Hy & ->).
    rewrite Forall_forall in Hb. specialize (Hb y Hy).
    destruct (Shim.ShimTab.id y =? id0); [now rewrite Hf | exact Hb].
Qed.

Lemma shimTabsInvariant_ext (s s' : Shim.State) :
  Shim.tabs s' = Shim.tabs s -> Shim.nextTabId s' = Shim.nextTabId s ->
  shimTabsInvariant s -> shimTabsInvariant s'.
Proof. unfold shimTabsInvariant. now intros -> ->. Qed.

Lemma shimInvariant_ext (s s' : Shim.State) :
  Shim.tabs s' = Shim.tabs s -> Shim.activeTabId s' = Shim.activeTabId s ->
  Shim.nextTabId s' = Shim.nextTabId s ->
  shimInvariant s -> shimInvariant s'.
Proof.
  unfold shimInvariant, shimTabsInvariant, shimActiveInvariant. now intros -> -> ->.
Qed.

(** Appending the tab [createShimTab] makes. *)
Lemma shimTabsInvariant_addTab (s : Shim.State) (active : Z) :
  shimTabsInvariant s ->
  shimTabsInvariant
    {| Shim.tabs := Shim.tabs s ++ [fst (Shim.createShimTab s)];
       Shim.activeTabId := active;
       Shim.nextTabId := Shim.nextTabId s + 1;
       Shim.pending := Shim.pending s |}.
Proof.
  intros (Hinv & Hn & Hb). unfold shimTabsInvariant.
  cbn [Shim.tabs Shim.nextTabId Shim.createShimTab fst]. split; [|split].
  - apply Forall_app. split; [exact Hinv|]. constructor; [|constructor].
    unfold shimTabInvariant. cbn. split; [lia | tauto].
  - rewrite map_app. cbn [map Shim.ShimTab.id]. apply NoDup_app; [exact Hn | | ].
    + constructor; [intros [] | constructor].
    + intros x Hx [<-|[]]. apply in_map_iff in Hx as (y & Hy & Hin).
      rewrite Forall_forall in Hb. specialize (Hb y Hin). lia.
  - apply Forall_app. split.
    + eapply Forall_impl; [|exact Hb]. cbn. intros; lia.
    + constructor; [cbn; lia | constructor].
Qed.

(** [ensureShimTab] establishes the whole invariant, returns the active tab,
    leaves the waiting fetches alone, and leaves a session that has a tab and
    an active one as it is. *)
Lemma ensureShimTab_spec (s : Shim.State) :
  shimTabsInvariant s ->
  shimInvariant (snd (Shim.ensureShimTab s)) /\
  Shim.pending (snd (Shim.ensureShimTab s)) = Shim.pending s /\
  (exists t,
     fst (Shim.ensureShimTab s) = Some t /\
     In t (Shim.tabs (snd (Shim.ensureShimTab s))) /\
     Shim.ShimTab.id t = Shim.activeTabId (snd (Shim.ensureShimTab s))) /\
  (Shim.tabs s <> [] -> shimActiveInvariant s -> snd (Shim.ensureShimTab s) = s).
Proof.
  intros Hs. unfold Shim.ensureShimTab.
  destruct (Shim.tabs s) as [|x rest] eqn:E.
  - pose proof (shimTabsInvariant_addTab s (Shim.nextTabId s) Hs) as Hs'.
    cbn [Shim.createShimTab fst] in *. rewrite E in *.
    cbn [app Shim.tabs Shim.activeTabId Shim.nextTabId Shim.pending find Shim.ShimTab.id]
      in *.
    rewrite Z.eqb_refl. cbn [fst snd Shim.pending Shim.tabs Shim.activeTabId].
    split; [|split; [reflexivity|split]].
    + split; [exact Hs'|]. intros _. eexists. split; [left; reflexivity | reflexivity].
    + eexists. split; [reflexivity|]. split; [left; reflexivity | reflexivity].
    + intros H. now elim H.
  - rewrite E.
    destruct (find (fun t => Shim.ShimTab.id t =? Shim.activeTabId s) (x :: rest))
      as [a|] eqn:F.
    + cbn [fst snd]. apply find_some in F as [Ha Hid]. apply Z.eqb_eq in Hid.
      split; [|split; [reflexivity|split]].
      * split; [exact Hs|]. intros _. exists a. rewrite E. split; assumption.
      * exists a. rewrite E. repeat split; assumption.
      * reflexivity.
    + cbn [fst snd Shim.tabs Shim.activeTabId Shim.pending].
      split; [|split; [reflexivity|split]].
      * split.
        -- eapply shimTabsInvariant_ext; [| |exact Hs]; [now rewrite E | reflexivity].
        -- intros _. exists x. cbn [Shim.tabs Shim.activeTabId].
           split; [now left | reflexivity].
      * exists x. split; [reflexivity|]. split; [now left | reflexivity].
      * intros _ Hact. exfalso. destruct Hact as (t & Hin & Hid); [rewrite E; discriminate|].
        rewrite E in Hin. apply (find_none _ _ F) in Hin. apply Z.eqb_neq in Hin.
        congruence.
Qed.

Lemma shimActiveInvariant_update (s : Shim.State) (id0 : Z)
    (f : Shim.ShimTab.t -> Shim.ShimTab.t) :
  (forall x, Shim.ShimTab.id (f x) = Shim.ShimTab.id x) ->
  shimActiveInvariant s ->
  shimActiveInvariant (Shim.withTabs s (Shim.updateTab id0 f (Shim.tabs s))).
Proof.
  intros Hf Ha Hne. cbn [Shim.withTabs Shim.tabs Shim.activeTabId] in *.
  destruct Ha as (t & Hin & Hid).
  { intros E. apply Hne. now rewrite E. }
  exists (if Shim.ShimTab.id t =? id0 then f t else t). split.
  - unfold Shim.updateTab. apply in_map_iff. exists t. split; [reflexivity | exact Hin].
  - destruct (Shim.ShimTab.id t =? id0); [now rewrite Hf | exact Hid].
Qed.

Lemma shimInvariant_update (s : Shim.State) (id0 : Z)
    (f : Shim.ShimTab.t -> Shim.ShimTab.t) :
  (forall x, Shim.ShimTab.id (f x) = Shim.ShimTab.id x) ->
  (forall y, In y (Shim.tabs s) -> Shim.ShimTab.id y = id0 -> shimTabInvariant (f y)) ->
  shimInvariant s ->
  shimInvariant (Shim.withTabs s (Shim.updateTab id0 f (Shim.tabs s))).
Proof.
  intros Hf Ht [Hs Ha]. split.
  - now apply shimTabsInvariant_update.
  - now apply shimActiveInvariant_update.
Qed.

Lemma shimInvariant_tab (s : Shim.State) (t : Shim.ShimTab.t) :
  shimInvariant s -> In t (Shim.tabs s) -> shimTabInvariant t.
Proof.
  intros [(Hinv & _) _] Hin. rewrite Forall_forall in Hinv. now apply Hinv.
Qed.

Lemma shimNavigate_invariant (b : bool) (s : Shim.State) :
  shimTabsInvariant s -> shimInvariant (Shim.shimNavigate b s).
Proof.
  intros Hs. unfold Shim.shimNavigate.
  destruct (ensureShimTab_spec s Hs) as (Hinv & _ & (t & Ht & Hin & Hid) & _).
  destruct (Shim.ensureShimTab s) as [o s1]. cbn [fst snd] in *. subst o.
  eapply shimInvariant_ext; [reflexivity | reflexivity | reflexivity |].
  apply shimInvariant_update; [reflexivity | | exact Hinv].
  intros y Hy _. exact (shimInvariant_tab s1 y Hinv Hy).
Qed.

Lemma shim_pushHistory_invariant (history : list jsstring) (i : Z) (url : jsstring) :
  (history = [] /\ i = -1) \/ (0 <= i < Bun.len history) ->
  let r := Shim.pushHistory history i url in
  (fst r = [] /\ snd r = -1) \/ (0 <= snd r < Bun.len (fst r)).
Proof.
  intros H. unfold Shim.pushHistory.
  destruct (negb (Bun.strictEq (Bun.at_ history (Bun.len history - 1)) url));
    cbn [fst snd]; [|exact H].
  right. rewrite len_app1. pose proof (len_nonneg
    (if i <? Bun.len history - 1 then Bun.slice0 history (i + 1) else history)). lia.
Qed.

Lemma commit_invariant (b : bool) (content : PageContent.t) (t : Shim.ShimTab.t) :
  shimTabInvariant t -> shimTabInvariant (Shim.commit b content t).
Proof.
  intros Ht. apply shimTabInvariant_cases in Ht. unfold Shim.commit. destruct b.
  - pose proof (shim_pushHistory_invariant _ _ (PageContent.url content) Ht) as H.
    cbv zeta in H.
    destruct (Shim.pushHistory (Shim.ShimTab.history t) (Shim.ShimTab.historyIndex t)
                (PageContent.url content)) as [h i].
    eapply shimTabInvariant_intro; [reflexivity | reflexivity | exact H].
  - eapply shimTabInvariant_intro; [reflexivity | reflexivity | exact Ht].
Qed.

Lemma commit_id (b : bool) (content : PageContent.t) (t : Shim.ShimTab.t) :
  Shim.ShimTab.id (Shim.commit b content t) = Shim.ShimTab.id t.
Proof.
  unfold Shim.commit. destruct b; [|reflexivity].
  now destruct (Shim.pushHistory _ _ _).
Qed.

Lemma shim_resume_invariant (k : nat) (result : outcome PageContent.t) (s : Shim.State) :
  shimInvariant s -> shimInvariant (Shim.resume k result s).
Proof.
  intros Hs. unfold Shim.resume. destruct (nth_error (Shim.pending s) k) as [p|]; [|exact Hs].
  destruct result as [content|m].
  - apply ensureShimTab_spec.
    set (s1 := {| Shim.tabs := Shim.tabs s; Shim.activeTabId := Shim.activeTabId s;
                  Shim.nextTabId := Shim.nextTabId s;
                  Shim.pending := Bun.splice1 k (Shim.pending s) |}).
    assert (H1 : shimInvariant s1) by (eapply shimInvariant_ext; [| | |exact Hs]; reflexivity).
    apply shimTabsInvariant_update; [intros x; apply commit_id | | exact (proj1 H1)].
    intros y Hy _. apply commit_invariant. exact (shimInvariant_tab s1 y H1 Hy).
  - eapply shimInvariant_ext; [| | |exact Hs]; reflexivity.
Qed.

Lemma shim_navigateToUrl_invariant (url : jsstring) (s : Shim.State) :
  shimInvariant s -> shimInvariant (Shim.navigateToUrl url s).
Proof.
  intros Hs. unfold Shim.navigateToUrl.
  destruct (negb (truthy (Shim.normalizeUrl url))); [exact Hs|].
  apply shimNavigate_invariant. exact (proj1 Hs).
Qed.

(** [goBack] and [goForward]: the cursor moves by one inside the history. *)
Lemma shim_step_cursor_invariant (s : Shim.State) (tab : Shim.ShimTab.t) (i : Z) :
  shimInvariant s -> In tab (Shim.tabs s) ->
  0 <= i < Bun.len (Shim.ShimTab.history tab) ->
  shimInvariant
    (Shim.shimNavigate false
       (Shim.withTabs s (Shim.updateTab (Shim.ShimTab.id tab) (Shim.setHistoryIndex i)
                                        (Shim.tabs s)))).
Proof.
  intros Hs Hin Hi. apply shimNavigate_invariant.
  apply shimTabsInvariant_update; [reflexivity | | exact (proj1 Hs)].
  intros y Hy E. destruct Hs as [(_ & Hn & _) _].
  rewrite (shim_NoDup_eq _ y tab Hn Hy Hin E).
  eapply shimTabInvariant_intro; [reflexivity | reflexivity | right; exact Hi].
Qed.

Lemma shim_goBack_invariant (s : Shim.State) :
  shimInvariant s -> shimInvariant (Shim.goBack s).
Proof.
  intros Hs. unfold Shim.goBack.
  destruct (ensureShimTab_spec s (proj1 Hs)) as (Hinv & _ & (t & Ht & Hin & Hid) & _).
  destruct (Shim.ensureShimTab s) as [o s1]. cbn [fst snd] in *. subst o.
  destruct (Shim.ShimTab.historyIndex t <=? 0) eqn:E; [exact Hinv|].
  apply Z.leb_gt in E. apply shim_step_cursor_invariant; [exact Hinv | exact Hin |].
  destruct (shimInvariant_tab s1 t Hinv Hin) as [Hr _]. lia.
Qed.

Lemma shim_goForward_invariant (s : Shim.State) :
  shimInvariant s -> shimInvariant (Shim.goForward s).
Proof.
  intros Hs. unfold Shim.goForward.
  destruct (ensureShimTab_spec s (proj1 Hs)) as (Hinv & _ & (t & Ht & Hin & Hid) & _).
  destruct (Shim.ensureShimTab s) as [o s1]. cbn [fst snd] in *. subst o.
  destruct (Bun.len (Shim.ShimTab.history t) - 1 <=? Shim.ShimTab.historyIndex t) eqn:E;
    [exact Hinv|].
  apply Z.leb_gt in E. apply shim_step_cursor_invariant; [exact Hinv | exact Hin |].
  destruct (shimInvariant_tab s1 t Hinv Hin) as [Hr _]. lia.
Qed.

Lemma shim_createNewTab_invariant (s : Shim.State) :
  shimInvariant s -> shimInvariant (Shim.createNewTab s).
Proof.
  intros Hs. unfold Shim.createNewTab. cbn [Shim.createShimTab].
  apply ensureShimTab_spec.
  exact (shimTabsInvariant_addTab s (Shim.nextTabId s) (proj1 Hs)).
Qed.

Lemma shim_switchTab_invariant (tabId : Z) (s : Shim.State) :
  shimInvariant s -> shimInvariant (Shim.switchTab tabId s).
Proof.
  intros Hs. unfold Shim.switchTab.
  destruct (find (fun t => Shim.ShimTab.id t =? tabId) (Shim.tabs s)); [|exact Hs].
  apply ensureShimTab_spec.
  eapply shimTabsInvariant_ext; [| |exact (proj1 Hs)]; reflexivity.
Qed.

Lemma shimTabsInvariant_splice (s : Shim.State) (index : nat) :
  shimTabsInvariant s ->
  shimTabsInvariant (Shim.withTabs s (Bun.splice1 index (Shim.tabs s))).
Proof.
  intros (Hinv & Hn & Hb). unfold shimTabsInvariant.
  cbn [Shim.withTabs Shim.tabs Shim.nextTabId]. split; [|split].
  - now apply splice1_Forall.
  - rewrite splice1_map. now apply splice1_NoDup.
  - now apply splice1_Forall.
Qed.

Lemma shim_closeTab_invariant (tabId : Z) (s : Shim.State) :
  shimInvariant s -> shimInvariant (Shim.closeTab tabId s).
Proof.
  intros Hs. unfold Shim.closeTab.
  destruct (Shim.findIndex tabId (Shim.tabs s)) as [index|]; [|exact Hs].
  cbv zeta. apply ensureShimTab_spec.
  pose proof (shimTabsInvariant_splice s index (proj1 Hs)) as H1.
  set (s1 := Shim.withTabs s (Bun.splice1 index (Shim.tabs s))) in *.
  destruct (Bun.len (Shim.tabs s1) =? 0).
  - cbn [Shim.createShimTab]. exact (shimTabsInvariant_addTab s1 (Shim.nextTabId s1) H1).
  - destruct (Shim.activeTabId s =? tabId); [|exact H1].
    destruct (Bun.at_ (Shim.tabs s1) _); [|exact H1].
    eapply shimTabsInvariant_ext; [| |exact H1]; reflexivity.
Qed.

Lemma shim_step_invariant (s : Shim.State) (e : Shim.Event) :
  shimInvariant s -> shimInvariant (Shim.step s e).
Proof.
  intros Hs. destruct e; cbn [Shim.step].
  - now apply shim_navigateToUrl_invariant.
  - now apply shim_goBack_invariant.
  - now apply shim_goForward_invariant.
  - now apply shim_createNewTab_invariant.
  - now apply shim_closeTab_invariant.
  - now apply shim_switchTab_invariant.
  - now apply shim_resume_invariant.
Qed.

Lemma shimState0_invariant : shimInvariant Shim.shimState0.
Proof.
  split; [split; [constructor | split; constructor]|]. intros H. now elim H.
Qed.

Lemma shim_serve_invariant (s : Shim.State) (r : Shim.Request) :
  shimInvariant s -> shimInvariant (Shim.serve s r).
Proof.
  intros Hs. destruct r as [e| |]; cbn [Shim.serve].
  - now apply shim_step_invariant.
  - unfold Shim.shimSyncTabs.
    destruct (ensureShimTab_spec s (proj1 Hs)) as (Hinv & _ & (t & Ht & _) & _).
    destruct (Shim.ensureShimTab s) as [o s1]. cbn [fst snd] in *. subst o. exact Hinv.
  - apply shimNavigate_invariant. exact (proj1 Hs).
Qed.

Lemma shim_session_reaches_invariant (requests : list Shim.Request) :
  forall s, shimInvariant s -> shimInvariant (Shim.session requests s).
Proof.
  induction requests as [|r requests IH]; intros s Hs; [exact Hs|].
  cbn [Shim.session fold_left]. apply IH. now apply shim_serve_invariant.
Qed.

(** X26.  In every state the view shim reaches from its empty session,
    through any sequence of its requests and settled fetches, the cursor of
    every tab is an index of its history (or [-1], exactly when the history
    is empty), the ids of the tabs are pairwise distinct and smaller than the
    next id to hand out, and once there is a tab [activeTabId] is the id of
    one. *)
Theorem shim_session_invariant (requests : list Shim.Request) :
  let s := Shim.session requests Shim.shimState0 in
  (forall t, In t (Shim.tabs s) ->
     -1 <= Shim.ShimTab.historyIndex t < Bun.len (Shim.ShimTab.history t) /\
     (Shim.ShimTab.historyIndex t = -1 <-> Shim.ShimTab.history t = [])) /\
  NoDup (map Shim.ShimTab.id (Shim.tabs s)) /\
  Forall (fun t => Shim.ShimTab.id t < Shim.nextTabId s) (Shim.tabs s) /\
  (Shim.tabs s <> [] ->
   exists t, In t (Shim.tabs s) /\ Shim.ShimTab.id t = Shim.activeTabId s).
Proof.
  intros s.
  pose proof (shim_session_reaches_invariant requests _ shimState0_invariant) as Hs.
  fold s in Hs. destruct Hs as [(Hinv & Hn & Hb) Ha].
  split; [|split; [exact Hn | split; [exact Hb | exact Ha]]].
  intros t Hin. rewrite Forall_forall in Hinv. exact (Hinv t Hin).
Qed.

Lemma shim_count_by_id (ts : list Shim.ShimTab.t) (t : Shim.ShimTab.t) :
  NoDup (map Shim.ShimTab.id ts) -> In t ts ->
  length (List.filter (fun x => Shim.ShimTab.id x =? Shim.ShimTab.id t) ts) = 1%nat.
Proof.
  induction ts as [|x ts IH]; intros Hn Hin; [destruct Hin|].
  cbn [map] in Hn. inversion Hn as [|? ? Hx Hn']; subst. cbn [List.filter].
  destruct Hin as [->|Hin].
  - rewrite Z.eqb_refl. cbn [length]. f_equal.
    assert (E : List.filter (fun x => Shim.ShimTab.id x =? Shim.ShimTab.id t) ts = []).
    { apply filter_none. intros y Hy.
      apply Z.eqb_neq. intros E. apply Hx. rewrite <- E. now apply in_map. }
    now rewrite E.
  - destruct (Shim.ShimTab.id x =? Shim.ShimTab.id t) eqn:E; [|now apply IH].
    apply Z.eqb_eq in E. exfalso. apply Hx. rewrite E. now apply in_map.
Qed.

(** X27.  In every state the view shim reaches, [shimSyncTabs] hands the
    store the tabs in their order with exactly one of them marked active, and
    [shimSyncNavigation] reports that the session can go back (forward) only
    when the history of the active tab has an entry before (after) its
    cursor; and when the session has a tab, syncing changes nothing in
    it. *)
Theorem shim_sync_is_consistent (requests : list Shim.Request) :
  let s := Shim.session requests Shim.shimState0 in
  let infos := fst (Shim.shimSyncTabs s) in
  length (List.filter TabInfo.isActive infos) = 1%nat /\
  map TabInfo.id infos = map Shim.ShimTab.id (Shim.tabs (snd (Shim.shimSyncTabs s))) /\
  (exists t,
     fst (Shim.ensureShimTab s) = Some t /\
     (fst (fst (Shim.shimSyncNavigation s)) = true ->
      exists u, Bun.at_ (Shim.ShimTab.history t) (Shim.ShimTab.historyIndex t - 1) = Some u) /\
     (snd (fst (Shim.shimSyncNavigation s)) = true ->
      exists u, Bun.at_ (Shim.ShimTab.history t) (Shim.ShimTab.historyIndex t + 1) = Some u)) /\
  (Shim.tabs s <> [] ->
   snd (Shim.shimSyncTabs s) = s /\ snd (Shim.shimSyncNavigation s) = s).
Proof.
  intros s infos.
  pose proof (shim_session_reaches_invariant requests _ shimState0_invariant) as Hs.
  fold s in Hs. subst infos. unfold Shim.shimSyncTabs, Shim.shimSyncNavigation.
  destruct (ensureShimTab_spec s (proj1 Hs)) as (Hinv & _ & (t & Ht & Hin & Hid) & Hsame).
  destruct (Shim.ensureShimTab s) as [o s1]. cbn [fst snd] in *. subst o.
  cbn [fst snd]. split; [|split; [|split]].
  - rewrite filter_map_comm, length_map. cbn [TabInfo.isActive].
    destruct Hinv as [(_ & Hn & _) _]. now apply shim_count_by_id.
  - rewrite map_map. reflexivity.
  - exists t. split; [reflexivity|].
    destruct (shimInvariant_tab s1 t Hinv Hin) as [Hr _]. split; intros H.
    + apply Z.ltb_lt in H.
      destruct (at_Some (Shim.ShimTab.history t) (Shim.ShimTab.historyIndex t - 1))
        as (u & Hu & _); [lia|]. now exists u.
    + apply Z.ltb_lt in H.
      destruct (at_Some (Shim.ShimTab.history t) (Shim.ShimTab.historyIndex t + 1))
        as (u & Hu & _); [lia|]. now exists u.
  - intros Hne. split; exact (Hsame Hne (proj2 Hs)).
Qed.

(** Whatever the session, [ensureShimTab] returns a tab of the session it
    leaves, the active one, and leaves the waiting fetches alone. *)
Lemma ensureShimTab_active (s : Shim.State) :
  Shim.pending (snd (Shim.ensureShimTab s)) = Shim.pending s /\
  exists t,
    fst (Shim.ensureShimTab s) = Some t /\
    In t (Shim.tabs (snd (Shim.ensureShimTab s))) /\
    Shim.ShimTab.id t = Shim.activeTabId (snd (Shim.ensureShimTab s)).
Proof.
  unfold Shim.ensureShimTab. destruct (Shim.tabs s) as [|x rest] eqn:E.
  - cbn [Shim.createShimTab fst]. rewrite E.
    cbn [app Shim.tabs Shim.activeTabId Shim.nextTabId Shim.pending find Shim.ShimTab.id].
    rewrite Z.eqb_refl. cbn [fst snd Shim.pending Shim.tabs Shim.activeTabId].
    split; [reflexivity|]. eexists. split; [reflexivity|].
    split; [left; reflexivity | reflexivity].
  - rewrite E.
    destruct (find (fun t => Shim.ShimTab.id t =? Shim.activeTabId s) (x :: rest))
      as [a|] eqn:F; cbn [fst snd Shim.tabs Shim.activeTabId Shim.pending].
    + apply find_some in F as [Ha Hid]. apply Z.eqb_eq in Hid.
      split; [reflexivity|]. exists a. rewrite E. repeat split; assumption.
    + split; [reflexivity|]. exists x. split; [reflexivity|].
      split; [now left | reflexivity].
Qed.

(** X28.  In the view shim a fetch that fails is not caught: after
    [navigateToUrl] the active tab is loading, and when the fetch settles
    with an exception the tabs stay as they are, so that tab keeps
    loading. *)
Theorem shim_failed_fetch_keeps_loading
    (url message : jsstring) (s : Shim.State) :
  Shim.normalizeUrl url <> [] ->
  let s1 := Shim.navigateToUrl url s in
  let s2 := Shim.resume (length (Shim.pending s)) (Throw message) s1 in
  Shim.tabs s2 = Shim.tabs s1 /\
  Shim.activeTabId s2 = Shim.activeTabId s1 /\
  Shim.pending s2 = Shim.pending s /\
  exists t, In t (Shim.tabs s2) /\ Shim.ShimTab.id t = Shim.activeTabId s2 /\
            Shim.ShimTab.isLoading t = true.
Proof.
  intros Hne s1 s2. subst s2 s1. unfold Shim.navigateToUrl.
  apply truthy_true in Hne. rewrite Hne. cbn [negb]. unfold Shim.shimNavigate.
  destruct (ensureShimTab_active s) as (Hp & t & Ht & Hin & Hid).
  destruct (Shim.ensureShimTab s) as [o s1]. cbn [fst snd] in *. subst o.
  unfold Shim.resume. cbn [Shim.pending Shim.withTabs]. rewrite Hp.
  rewrite nth_error_snoc. cbn [Shim.tabs Shim.activeTabId Shim.pending].
  split; [reflexivity|]. split; [reflexivity|]. split.
  - rewrite (splice1_snoc (Shim.pending s)). now rewrite app_nil_r.
  - eexists. split; [|split].
    + unfold Shim.updateTab. apply in_map_iff. exists t. split; [reflexivity | exact Hin].
    + rewrite Z.eqb_refl. exact Hid.
    + rewrite Z.eqb_refl. reflexivity.
Qed.

End ShimInvariants.

Lemma shim_failed_fetch_keeps_loading_witness :
  Shim.tabs
    (Shim.resume 0 (Throw (str "offline"))
       (Shim.navigateToUrl Sample.urlA Shim.shimState0)) =
  Shim.tabs (Shim.navigateToUrl Sample.urlA Shim.shimState0).
Proof.
  apply (proj1 (shim_failed_fetch_keeps_loading Sample.urlA (str "offline")
                  Shim.shimState0 ltac:(vm_compute; discriminate))).
Defined.

(* ================================================================== *)
(** * Closing a tab *)
(* ================================================================== *)

Section ClosingTabs.

Local Open Scope Z_scope.



End ClosingTabs.



(* ================================================================== *)
(** * Properties of the markup reduction *)
(* ================================================================== *)

Section Reduction.

Local Open Scope N_scope.

Lemma Subsequence_refl (a : jsstring) : Subsequence a a.
Proof. induction a; constructor; assumption. Qed.

Lemma Subsequence_nil (b : jsstring) : Subsequence [] b.
Proof. induction b; constructor; assumption. Qed.

Lemma Subsequence_trans (a b c : jsstring) :
  Subsequence a b -> Subsequence b c -> Subsequence a c.
Proof.
  intros Hab Hbc. revert a Hab. induction Hbc as [|x b c Hbc IH|x b c Hbc IH]; intros a Hab.
  - exact Hab.
  - apply sub_drop. now apply IH.
  - inversion Hab as [|y a' b' Hab'|y a' b' Hab']; subst.
    + apply sub_drop. now apply IH.
    + apply sub_keep. now apply IH.
Qed.

Lemma Subsequence_infix (a inner b : jsstring) : Subsequence inner (a ++ inner ++ b).
Proof.
  induction a as [|c a IH]; cbn [app].
  - induction inner as [|c inner IH]; cbn [app]; [apply Subsequence_nil|].
    now apply sub_keep.
  - now apply sub_drop.
Qed.

(** A global replacement whose replacement text is empty only deletes. *)
Lemma replaceFrom_deletes (m : matcher) :
  (forall prev t r n, m prev t = Some (r, n) -> r = []) ->
  forall s prev k, Subsequence (replaceFrom m prev k s) s.
Proof.
  intros Hm. induction s as [|c s IH]; intros prev k.
  - destruct k; cbn [replaceFrom]; [|constructor].
    destruct (m prev []) as [[r [|n]]|] eqn:E; [| |constructor];
      rewrite (Hm _ _ _ _ E); constructor.
  - destruct k as [|k]; cbn [replaceFrom]; [|apply sub_drop; apply IH].
    destruct (m prev (c :: s)) as [[r [|n]]|] eqn:E.
    + rewrite (Hm _ _ _ _ E). cbn [app]. apply sub_keep. apply IH.
    + rewrite (Hm _ _ _ _ E). cbn [app]. apply sub_drop. apply IH.
    + apply sub_keep. apply IH.
Qed.

Lemma deleting_matcher (f : jsstring -> option nat) (prev : option char)
    (t r : jsstring) (n : nat) :
  option_map (fun n => ([] : jsstring, n)) (f t) = Some (r, n) -> r = [].
Proof. destruct (f t); cbn; intros H; [now injection H | discriminate H]. Qed.

Lemma removeRegions_deletes (opening closing s : jsstring) :
  Subsequence (Html.removeRegions opening closing s) s.
Proof.
  unfold Html.removeRegions, replaceAll. apply replaceFrom_deletes.
  intros prev t r n. apply (deleting_matcher _ prev).
Qed.

Lemma findCI_Some (pat : jsstring) :
  forall s before rest, Html.findCI pat s = Some (before, rest) ->
    exists mid, s = before ++ mid ++ rest.
Proof.
  induction s as [|c s IH]; intros before rest H; cbn [Html.findCI] in H.
  - destruct (stripPrefixCI pat []) as [r|] eqn:E; [|discriminate H].
    injection H as <- <-. destruct (stripPrefixCI_Some _ _ _ E) as (pre & Hs & _).
    exists pre. exact Hs.
  - destruct (stripPrefixCI pat (c :: s)) as [r|] eqn:E.
    + injection H as <- <-. destruct (stripPrefixCI_Some _ _ _ E) as (pre & Hs & _).
      exists pre. exact Hs.
    + destruct (Html.findCI pat s) as [[b r]|] eqn:F; [|discriminate H].
      injection H as <- <-. destruct (IH b r eq_refl) as (mid & ->).
      exists mid. reflexivity.
Qed.

Lemma containerAt_infix (opening closing s inner : jsstring) :
  Html.containerAt opening closing s = Some inner ->
  exists a b, s = a ++ inner ++ b.
Proof.
  unfold Html.containerAt. intros H.
  destruct (stripPrefixCI opening s) as [r|] eqn:E; [|discriminate H].
  destruct (Html.findCI (str ">") r) as [[x r1]|] eqn:F1; [|discriminate H].
  destruct (Html.findCI closing r1) as [[i r2]|] eqn:F2; [|discriminate H].
  injection H as <-.
  destruct (stripPrefixCI_Some _ _ _ E) as (pre & -> & _).
  destruct (findCI_Some _ _ _ _ F1) as (m1 & ->).
  destruct (findCI_Some _ _ _ _ F2) as (m2 & ->).
  exists (pre ++ x ++ m1), (m2 ++ r2). now rewrite <- !app_assoc.
Qed.

Lemma matchContainer_infix (opening closing : jsstring) :
  forall s prev inner,
    firstMatch (fun _ t => Html.containerAt opening closing t) prev s = Some inner ->
    exists a b, s = a ++ inner ++ b.
Proof.
  induction s as [|c s IH]; intros prev inner H; cbn [firstMatch] in H.
  - destruct (Html.containerAt opening closing []) eqn:E; [|discriminate H].
    injection H as ->. exact (containerAt_infix _ _ _ _ E).
  - destruct (Html.containerAt opening closing (c :: s)) eqn:E.
    + injection H as ->. exact (containerAt_infix _ _ _ _ E).
    + destruct (IH _ _ H) as (a & b & ->). exists (c :: a), b. reflexivity.
Qed.

Lemma matchContainer_sub (opening closing s inner : jsstring) :
  Html.matchContainer opening closing s = Some inner -> Subsequence inner s.
Proof.
  intros H. destruct (matchContainer_infix _ _ _ _ _ H) as (a & b & ->).
  apply Subsequence_infix.
Qed.

(** A replacement and a search whose pattern begins with an opening angle
    bracket find nothing in a text that has none. *)
Lemma noTag_tail (c : char) (s : jsstring) : noTag (c :: s) = true -> noTag s = true.
Proof. unfold noTag. cbn [forallb]. intros H. now apply andb_true_iff in H as [_ H]. Qed.

Lemma no_match_noTag (m : matcher) :
  (forall prev t, noTag t = true -> m prev t = None) ->
  forall s prev, noTag s = true -> replaceFrom m prev 0 s = s.
Proof.
  intros Hm s prev Hs. apply replaceFrom_no_match. revert prev.
  induction s as [|c s IH]; intros prev; cbn [matchesSomewhere];
    rewrite (Hm prev _ Hs); [reflexivity|].
  apply IH. exact (noTag_tail _ _ Hs).
Qed.

Lemma no_first_match_noTag {A} (m : option char -> jsstring -> option A) :
  (forall prev t, noTag t = true -> m prev t = None) ->
  forall s prev, noTag s = true -> firstMatch m prev s = None.
Proof.
  intros Hm. induction s as [|c s IH]; intros prev Hs; cbn [firstMatch];
    rewrite (Hm prev _ Hs); [reflexivity|].
  apply IH. exact (noTag_tail _ _ Hs).
Qed.

Lemma tag_literal_noTag (p s : jsstring) :
  In 60 p -> noTag s = true -> stripPrefixCI p s = None.
Proof.
  intros Hin Hs. apply (stripPrefixCI_lacks 60 p s Hin); [|exact Hs].
  intros b. apply foldCase_fixed. lia.
Qed.

Lemma removeRegions_noTag (opening closing s : jsstring) :
  In 60 opening -> noTag s = true -> Html.removeRegions opening closing s = s.
Proof.
  intros Hin Hs. unfold Html.removeRegions, replaceAll.
  apply no_match_noTag; [|exact Hs]. intros prev t Ht. unfold Html.regionAt.
  now rewrite (tag_literal_noTag opening t Hin Ht).
Qed.

Lemma matchContainer_noTag (opening closing s : jsstring) :
  In 60 opening -> noTag s = true -> Html.matchContainer opening closing s = None.
Proof.
  intros Hin Hs. unfold Html.matchContainer.
  apply no_first_match_noTag; [|exact Hs]. intros prev t Ht. unfold Html.containerAt.
  now rewrite (tag_literal_noTag opening t Hin Ht).
Qed.

(** X29.  The markup reduction of [fetchPage] only deletes: what it hands to
    the converter is the decoded text with some of its characters left out,
    in their order; and a text without an opening angle bracket is handed on
    unchanged. *)
Theorem reduce_only_deletes (text : jsstring) :
  Subsequence (Html.reduce text) text /\
  (noTag text = true -> Html.reduce text = text).
Proof.
  split.
  - unfold Html.reduce. cbv zeta.
    match goal with
    | |- context [replaceAll ?m ?t] =>
        assert (Hall : Subsequence (replaceAll m t) text);
        [|set (anchors := replaceAll m t) in *]
    end.
    { eapply Subsequence_trans.
      - apply replaceFrom_deletes. intros prev t0 r n. apply (deleting_matcher _ prev).
      - repeat (eapply Subsequence_trans; [apply removeRegions_deletes|]).
        apply Subsequence_refl. }
    destruct (Html.matchContainer (str "<main") (str "</main>") anchors) as [m|] eqn:M;
      [exact (Subsequence_trans _ _ _ (matchContainer_sub _ _ _ _ M) Hall)|].
    destruct (Html.matchContainer (str "<article") (str "</article>") anchors)
      as [a|] eqn:A;
      [exact (Subsequence_trans _ _ _ (matchContainer_sub _ _ _ _ A) Hall)|].
    destruct (Html.matchContainer (str "<body") (str "</body>") anchors) as [b|] eqn:B;
      [exact (Subsequence_trans _ _ _ (matchContainer_sub _ _ _ _ B) Hall)|].
    exact Hall.
  - intros Hs. unfold Html.reduce. cbv zeta.
    repeat match goal with
    | |- context [Html.removeRegions ?o ?c text] =>
        rewrite (removeRegions_noTag o c text ltac:(vm_compute; tauto) Hs)
    end.
    assert (Ha : replaceAll
                   (fun _ t => option_map (fun n => ([] : jsstring, n)) (Html.emptyAnchorAt t))
                   text = text).
    { unfold replaceAll. apply no_match_noTag; [|exact Hs]. intros prev t Ht.
      unfold Html.emptyAnchorAt.
      now rewrite (tag_literal_noTag (str "<a") t ltac:(vm_compute; tauto) Ht). }
    rewrite Ha.
    repeat match goal with
    | |- context [Html.matchContainer ?o ?c text] =>
        rewrite (matchContainer_noTag o c text ltac:(vm_compute; tauto) Hs)
    end.
    reflexivity.
Qed.

End Reduction.

Lemma reduce_only_deletes_witness :
  Html.reduce (str "Hello, world") = str "Hello, world".
Proof.
  apply (proj2 (reduce_only_deletes (str "Hello, world"))). reflexivity.
Defined.

(* ================================================================== *)
(** * The cleanup of one link *)
(* ================================================================== *)

Section LinkCleanup.

Local Open Scope N_scope.

Lemma linkAt_link (t u rest : jsstring) :
  forallb notRBracket t = true -> u <> [] -> forallb notRParen u = true ->
  linkAt (91 :: t ++ 93 :: 40 :: u ++ 41 :: rest) =
  Some (t, u, (4 + length t + length u)%nat).
Proof.
  intros Ht Hne Hu. unfold linkAt. change (N.eqb 91 (chr "[")) with true. cbv iota.
  rewrite (span_all notRBracket t (93 :: 40 :: u ++ 41 :: rest) Ht) by reflexivity.
  change (N.eqb 93 (chr "]") && N.eqb 40 (chr "(")) with true. cbv iota.
  rewrite (span_all notRParen u (41 :: rest) Hu) by reflexivity.
  destruct u; [congruence | reflexivity].
Qed.

(** Once a match covers the rest of the input, nothing is left to copy. *)
Lemma replaceFrom_skip_all (m : matcher) :
  (forall prev, m prev [] = None) ->
  forall s prev, replaceFrom m prev (length s) s = [].
Proof.
  intros Hm. induction s as [|c s IH]; intros prev; cbn [length replaceFrom].
  - now rewrite Hm.
  - apply IH.
Qed.

Lemma stripPrefix_snoc_None (c : char) (p : jsstring) :
  ~ In c p -> forall u, startsWith p u = false -> stripPrefix p (u ++ [c]) = None.
Proof.
  unfold startsWith. induction p as [|a p IH]; intros Hc u H; [discriminate H|].
  destruct u as [|b u]; cbn [app stripPrefix] in *.
  - rewrite (proj2 (N.eqb_neq a c)); [reflexivity|]. intros E. apply Hc. now left.
  - destruct (N.eqb a b); [|reflexivity]. apply IH; [|exact H].
    intros F. apply Hc. now right.
Qed.

Lemma orphan_noLineTerminator (s : jsstring) :
  forall p, isLineTerminator p = false ->
    forallb Html.notLineTerminator s = true ->
    replaceFrom orphanMatcher (Some p) 0 s = s.
Proof.
  induction s as [|c s IH]; intros p Hp Hs; [apply orphan_nil|].
  cbn [forallb] in Hs. apply andb_true_iff in Hs as [Hc Hs].
  rewrite (orphan_copy p c s Hp). f_equal. apply IH; [|exact Hs].
  unfold Html.notLineTerminator in Hc. now apply negb_true_iff in Hc.
Qed.

Lemma collapse_noLineTerminator (s : jsstring) :
  forall x, forallb Html.notLineTerminator s = true ->
    replaceFrom newlineMatcher x 0 s = s.
Proof.
  induction s as [|c s IH]; intros x Hs; [apply newline_nil|].
  cbn [forallb] in Hs. apply andb_true_iff in Hs as [Hc Hs].
  unfold Html.notLineTerminator in Hc. apply negb_true_iff in Hc.
  rewrite (newline_copy_other x c s (not_lineTerminator_not_newline c Hc)).
  f_equal. now apply IH.
Qed.

Lemma spaced_noLineTerminator (s : jsstring) :
  spaced s = true -> forallb Html.notLineTerminator s = true.
Proof.
  induction s as [|c s IH]; intros H; [reflexivity|].
  cbn [spaced] in H. apply andb_true_iff in H as [Hc Hs].
  cbn [forallb]. rewrite (IH Hs), andb_true_r. unfold Html.notLineTerminator.
  destruct (isLineTerminator c) eqn:L; [|reflexivity]. exfalso.
  rewrite (lineTerminator_isWhiteSpace c L) in Hc. cbn [negb orb] in Hc.
  apply andb_true_iff in Hc as [Hc _]. apply N.eqb_eq in Hc. subst c. discriminate L.
Qed.

Lemma normalizeWhitespace_forallb (p : char -> bool) (t : jsstring) :
  p 32 = true -> forallb p t = true -> forallb p (Re.normalizeWhitespace t) = true.
Proof.
  intros H32 Ht. unfold Re.normalizeWhitespace, replaceAll. apply forallb_trim.
  apply replaceFrom_forallb; [|exact Ht]. intros prev s r n E.
  destruct (wsRunAt_Some _ _ _ _ E) as (-> & _). cbn. now rewrite H32.
Qed.

(** A link as the first pass leaves it is left alone by the later passes:
    its label has no bracket and no line terminator, its address has neither,
    and the address does not begin with the [data:] scheme. *)
Lemma link_passes_fixed (label url : jsstring) :
  noBracket label = true -> forallb notRBracket label = true ->
  forallb Html.notLineTerminator label = true ->
  noBracket url = true -> forallb Html.notLineTerminator url = true ->
  startsWith (str "data:") url = false ->
  let r := 91 :: label ++ 93 :: 40 :: url ++ [41] in
  replaceAll (fun _ s => option_map (fun n => ([] : jsstring, n)) (dataImageAt s)) r = r /\
  replaceAll (fun _ s => option_map (fun n => ([] : jsstring, n)) (dataLinkAt s)) r = r /\
  removeOrphanNumbers r = r /\
  collapseBlankLines r = r /\
  trim r = r.
Proof.
  intros Hl1 Hl2 Hl3 Hu1 Hu3 Hd r.
  assert (Hrest : noBracket (label ++ 93 :: 40 :: url ++ [41]) = true).
  { unfold noBracket in *. rewrite forallb_app, Hl1. cbn [forallb andb].
    rewrite forallb_app, Hu1. reflexivity. }
  assert (HLT : forallb Html.notLineTerminator (label ++ 93 :: 40 :: url ++ [41]) = true).
  { rewrite forallb_app, Hl3. cbn [forallb andb]. rewrite forallb_app, Hu3. reflexivity. }
  unfold replaceAll, removeOrphanNumbers, collapseBlankLines, r.
  split; [|split; [|split; [|split]]].
  - cbn [replaceFrom dataImageAt]. change (N.eqb 91 (chr "!")) with false.
    cbn [option_map]. f_equal. apply no_match_noBracket; [|exact Hrest].
    intros prev t Ht. now rewrite (dataImageAt_noBracket t Ht).
  - cbn [replaceFrom]. unfold dataLinkAt at 1. change (N.eqb 91 (chr "[")) with true.
    cbv iota.
    rewrite (span_all notRBracket label (93 :: 40 :: url ++ [41]) Hl2) by reflexivity.
    change (N.eqb 93 (chr "]") && N.eqb 40 (chr "(")) with true. cbv iota.
    rewrite (stripPrefix_snoc_None 41 (str "data:") ltac:(vm_compute; intuition discriminate)
               url Hd).
    cbn [option_map]. f_equal. apply no_match_noBracket; [|exact Hrest].
    intros prev t Ht. now rewrite (dataLinkAt_noBracket t Ht).
  - unfold replaceAll. cbn [replaceFrom].
    rewrite (orphanMatcher_not_digit None 91 _ eq_refl). f_equal.
    apply orphan_noLineTerminator; [reflexivity | exact HLT].
  - unfold replaceAll. apply collapse_noLineTerminator. cbn [forallb]. now rewrite HLT.
  - apply trim_fixed; [discriminate | reflexivity |].
    change (91 :: label ++ 93 :: 40 :: url ++ [41])
      with ((91 :: label) ++ (93 :: 40 :: url) ++ [41]).
    rewrite app_assoc. now rewrite last_last.
Qed.

(** X30.  A text that is one link, with no bracket in its label and an
    address without bracket, parenthesis or line terminator that is not a
    [data:] address, is cleaned up as follows.  The shared module normalizes
    the white space of the label, puts the address in its place when the
    label is blank, and prefixes an address that begins with two slashes with
    [https:].  The bun process normalizes the label and leaves the address as
    it is, and drops the whole link when the label is blank. *)
Theorem single_link_is_normalized (t u : jsstring) :
  noBracket t = true -> forallb notRBracket t = true ->
  u <> [] -> noBracket u = true -> forallb notRBracket u = true ->
  forallb notRParen u = true -> forallb Html.notLineTerminator u = true ->
  startsWith (str "data:") u = false ->
  let md := str "[" ++ t ++ str "](" ++ u ++ str ")" in
  let url := if startsWith (str "//") u then str "https:" ++ u else u in
  let label := Shared.normalizeWhitespace t in
  Shared.cleanupTurndownOutput md =
    str "[" ++ (if truthy label then label else url) ++ str "](" ++ url ++ str ")" /\
  Bun.cleanupTurndownOutput md =
    (if truthy label then str "[" ++ label ++ str "](" ++ u ++ str ")" else []).
Proof.
  intros Ht1 Ht2 Hne Hu1 Hu2 Hu3 Hu4 Hd md url label.
  change (str "[") with [91] in *. change (str "](") with [93; 40] in *.
  change (str ")") with [41] in *. cbn [app] in *.
  assert (Hmd : md = 91 :: t ++ 93 :: 40 :: u ++ 41 :: []) by reflexivity.
  pose proof (linkAt_link t u [] Ht2 Hne Hu3) as HL. rewrite <- Hmd in HL.
  assert (Hlen : (4 + length t + length u)%nat =
                 S (length (t ++ 93 :: 40 :: u ++ [41]))).
  { rewrite length_app. cbn [length]. rewrite length_app. cbn [length]. lia. }
  (* the label *)
  assert (Lb : noBracket label = true)
    by (apply normalizeWhitespace_forallb; [reflexivity | exact Ht1]).
  assert (Lr : forallb notRBracket label = true)
    by (apply normalizeWhitespace_forallb; [reflexivity | exact Ht2]).
  assert (Ll : forallb Html.notLineTerminator label = true)
    by (apply spaced_noLineTerminator, normalizeWhitespace_spaced).
  (* the address *)
  assert (Ub : noBracket url = true).
  { subst url. destruct (startsWith (str "//") u); [|exact Hu1].
    unfold noBracket. rewrite forallb_app. fold (noBracket u). now rewrite Hu1. }
  assert (Ur : forallb notRBracket url = true).
  { subst url. destruct (startsWith (str "//") u); [|exact Hu2].
    rewrite forallb_app. now rewrite Hu2. }
  assert (Ul : forallb Html.notLineTerminator url = true).
  { subst url. destruct (startsWith (str "//") u); [|exact Hu4].
    rewrite forallb_app. now rewrite Hu4. }
  assert (Ud : startsWith (str "data:") url = false).
  { subst url. destruct (startsWith (str "//") u); [reflexivity | exact Hd]. }
  assert (Une : url <> []).
  { subst url. destruct (startsWith (str "//") u); [discriminate | exact Hne]. }
  split.
  - unfold Shared.cleanupTurndownOutput. cbv zeta.
    assert (P1 : replaceAll Shared.linkReplacement md =
                 91 :: (if truthy label then label else url) ++ 93 :: 40 :: url ++ [41]).
    { unfold replaceAll. rewrite Hmd at 1. cbn [replaceFrom].
      unfold Shared.linkReplacement at 1. rewrite <- Hmd, HL. cbv zeta.
      fold label. fold url. rewrite Hlen.
      rewrite (replaceFrom_skip_all Shared.linkReplacement (fun _ => eq_refl)).
      rewrite app_nil_r.
      assert (E : truthy (if truthy label then label else url) = true).
      { destruct (truthy label) eqn:E; [exact E | now apply truthy_true]. }
      rewrite E. change (str "[") with [91]. change (str "](") with [93; 40].
      change (str ")") with [41]. reflexivity. }
    rewrite P1.
    assert (Lb' : noBracket (if truthy label then label else url) = true)
      by (destruct (truthy label); assumption).
    assert (Lr' : forallb notRBracket (if truthy label then label else url) = true)
      by (destruct (truthy label); assumption).
    assert (Ll' : forallb Html.notLineTerminator (if truthy label then label else url) = true)
      by (destruct (truthy label); assumption).
    destruct (link_passes_fixed _ url Lb' Lr' Ll' Ub Ul Ud) as (E1 & E2 & E3 & E4 & E5).
    now rewrite E1, E2, E3, E4, E5.
  - unfold Bun.cleanupTurndownOutput. cbv zeta.
    assert (P1 : replaceAll Bun.linkReplacement md =
                 if truthy label then 91 :: label ++ 93 :: 40 :: u ++ [41] else []).
    { unfold replaceAll. rewrite Hmd at 1. cbn [replaceFrom].
      unfold Bun.linkReplacement at 1. rewrite <- Hmd, HL. cbv zeta.
      change (trim (replaceAll wsRunAt t)) with label. rewrite Hlen.
      rewrite (replaceFrom_skip_all Bun.linkReplacement (fun _ => eq_refl)).
      rewrite app_nil_r. destruct (truthy label); reflexivity. }
    rewrite P1. destruct (truthy label); [|reflexivity].
    destruct (link_passes_fixed label u Lb Lr Ll Hu1 Hu4 Hd) as (_ & _ & E3 & E4 & E5).
    now rewrite E3, E4, E5.
Qed.

End LinkCleanup.

Lemma single_link_is_normalized_witness :
  Shared.cleanupTurndownOutput (str "[ Read   more ](//example.com/a)") =
    str "[Read more](https://example.com/a)" /\
  Bun.cleanupTurndownOutput (str "[ Read   more ](//example.com/a)") =
    str "[Read more](//example.com/a)".
Proof.
  exact (single_link_is_normalized (str " Read   more ") (str "//example.com/a")
           eq_refl eq_refl ltac:(vm_compute; discriminate) eq_refl eq_refl eq_refl
           eq_refl eq_refl).
Defined.

(* ================================================================== *)
(** * When the cleanup is idempotent *)
(* ================================================================== *)

Section TidyFixedPoints.

Local Open Scope N_scope.

(** ** Lines that the orphan pattern reads *)





(** ** The first character that is not white space *)


Lemma exposedOrphan_ws (s : jsstring) :
  forall p, forallb isWhiteSpace s = true -> exposedOrphan p s = false.
Proof.
  induction s as [|c s IH]; intros p H; [reflexivity|].
  cbn [forallb] in H. apply andb_true_iff in H as [Hc H].
  cbn [exposedOrphan]. rewrite Hc. now apply IH.
Qed.



(** ** Trimming *)







(** ** The three last steps *)








End TidyFixedPoints.

(* ================================================================== *)
(** * Texts whose brackets are links *)
(* ================================================================== *)

Section LinkedTexts.

Local Open Scope N_scope.






Lemma orphanChar_notLBracket (c : char) : orphanChar c = true -> notLBracket c = true.
Proof.
  intros H. unfold notLBracket. change (chr "[") with 91.
  destruct (N.eqb_spec c 91) as [->|]; [discriminate H | reflexivity].
Qed.


(** ** Brackets that start no link *)











(** ** Passes that go through a link without touching it *)



Section Classes.

Variables label address : jsstring -> bool.



Lemma Linked_plain_app (a s : jsstring) :
  noBracket a = true -> Linked label address s -> Linked label address (a ++ s).
Proof.
  induction a as [|c a IH]; intros Ha H; [exact H|].
  unfold noBracket in Ha. cbn [forallb] in Ha. apply andb_true_iff in Ha as [Hc Ha].
  cbn [app]. apply linked_char; [exact Hc | now apply IH].
Qed.



Hypothesis label_plain :
  forall t, label t = true ->
    noBracket t = true /\ forallb Html.notLineTerminator t = true.
Hypothesis address_plain :
  forall u, address u = true ->
    noBracket u = true /\ forallb Html.notLineTerminator u = true.


Lemma body_noBracket (t u : jsstring) :
  label t = true -> address u = true -> noBracket (linkBody t u) = true.
Proof.
  intros Ht Hu. destruct (label_plain t Ht) as [H1 _].
  destruct (address_plain u Hu) as [H2 _]. unfold noBracket in *.
  rewrite forallb_app, H1. cbn [forallb andb]. rewrite forallb_app, H2. reflexivity.
Qed.




End Classes.


(** ** The link pass *)



Section LinkPass.

Variable m : matcher.
Variable f : jsstring -> jsstring -> jsstring.
Hypothesis m_spec :
  forall prev s,
    m prev s = match linkAt s with
               | Some (t, u, n) => Some (f t u, n)
               | None => None
               end.

Variables label address label' address' : jsstring -> bool.
Hypothesis label_spec : forall t, label t = true -> forallb notRBracket t = true.
Hypothesis address_spec :
  forall u, address u = true -> u <> [] /\ forallb notRParen u = true.







Hypothesis f_spec :
  forall t u, label t = true -> address u = true ->
    exists t' u', f t u = link t' u' /\ label' t' = true /\ address' u' = true.


End LinkPass.

(** ** The passes that remove [data:] links *)







Section DataPasses.

Variables label address : jsstring -> bool.
Hypothesis label_spec :
  forall t, label t = true -> noBracket t = true /\ forallb notRBracket t = true.
Hypothesis address_spec :
  forall u, address u = true ->
    noBracket u = true /\ startsWith (str "data:") u = false.



End DataPasses.


(** ** Texts that are the same up to the first bracket *)








(** ** The classes of the two cleanups *)




























End LinkedTexts.

